(** * Hand detector: decoding, selection, rescaling and tensor lifetime

    A shallow embedding of [src/handtrack/src/hand.ts] (class
    [HandDetector]).  The TensorFlow.js calls the class makes are modelled
    as operations of a small state-and-exception monad [TF] over a store
    of live tensors; the methods of the class are written in that monad,
    line by line.

    The file has two parts.  The first holds the definitions: numbers,
    tensor values and their operations, the store, the detector (as a
    value, and as an object whose fields a method could assign), and the
    instance on rationals used to run it.  The second holds the proofs:
    what each tensor program computes row by row, which row a call
    selects and what it returns, and which tensors are live after a call.

    Three things are idealised.  Numbers are an abstract type with
    abstract operations, so rounding plays no role and laws of arithmetic
    are named where they are used.  Shapes are read off nested lists, so
    axes of length 0 are not told apart.  Tensors handed to an operation
    are taken to be live. *)

From Stdlib Require Import ZArith QArith Qcanon Lqa.
From stdpp Require Import base option list gmap.

Local Open Scope nat_scope.

(** ** Numbers

    The source computes on JavaScript numbers and on tensors of floats.
    The embedding is parametric in the number type and its operations:
    nothing is assumed about them except where a theorem names a law
    (see [ZeroLaws] and [OrderLaws] below). *)

Class Number := {
  num : Type;
  of_Q : Q → num;                 (* numeric literals and integer sizes *)
  nadd : num → num → num;
  nsub : num → num → num;
  nmul : num → num → num;
  ndiv : num → num → num;
  nlt : num → num → bool;         (* [a < b] *)
  sigmoid : num → num;
}.

Definition of_nat `{Number} (n : nat) : num := of_Q (inject_Z (Z.of_nat n)).

Definition zero `{Number} : num := of_Q 0.

Declare Scope num_scope.
Delimit Scope num_scope with num.
Infix "+" := nadd : num_scope.
Infix "-" := nsub : num_scope.
Infix "*" := nmul : num_scope.
Infix "/" := ndiv : num_scope.

(** What zero offsets need: adding or subtracting zero changes nothing,
    zero divided by a non-zero number is zero, and doubling a non-zero
    number does not give zero. *)
Class ZeroLaws `{Number} : Prop := {
  add_zero_l : ∀ a, nadd zero a = a;
  add_zero_r : ∀ a, nadd a zero = a;
  sub_zero_r : ∀ a, nsub a zero = a;
  zero_div : ∀ x, x ≠ zero → ndiv zero x = zero;
  double_nonzero : ∀ x, x ≠ zero → nmul x (of_Q 2) ≠ zero;
}.

(** What ranking by score needs: [<] is asymmetric. *)
Class OrderLaws `{Number} : Prop := {
  nlt_asym : ∀ a b, nlt a b = true → nlt b a = false;
}.

(** ** Tensor values

    A tensor of rank 1, 2 or 3 is a list nested that deep, outermost axis
    first; its shape is read off the lists, so a tensor with no rows does
    not record how long its rows would be.  Image tensors (rank 4) are only
    ever transformed element by element or handed to the runtime, so they
    keep their shape and a flat list of values. *)

Abbreviation T1 := (list num).
Abbreviation T2 := (list (list num)).
Abbreviation T3 := (list (list (list num))).

Section Data.
Context `{Number}.

Record Image := {
  ishape : list nat;              (* [batch; height; width; channels] *)
  pixels : list num;
}.

(** One axis of broadcasting: equal lengths go pairwise, an axis of
    length 1 is repeated along the other, anything else is an error. *)
Definition bzip {A B C} (f : A → B → option C) (xs : list A) (ys : list B)
  : option (list C) :=
  if decide (length xs = length ys) then mapM (λ p, f p.1 p.2) (zip xs ys)
  else match xs, ys with
       | [x], _ => mapM (f x) ys
       | _, [y] => mapM (λ x, f x y) xs
       | _, _ => None
       end.

Definition bop1 (f : num → num → num) : T1 → T1 → option T1 :=
  bzip (λ x y, Some (f x y)).
Definition bop2 (f : num → num → num) : T2 → T2 → option T2 := bzip (bop1 f).
Definition bop3 (f : num → num → num) : T3 → T3 → option T3 := bzip (bop2 f).

(** Binary element-wise operations align shapes from the last axis: the
    operand of lower rank is given leading axes of length 1. *)
Class Broadcast (D1 D2 E : Type) :=
  broadcast : (num → num → num) → D1 → D2 → option E.
Global Hint Mode Broadcast ! ! - : typeclass_instances.

Global Instance broadcast_2_1 : Broadcast T2 T1 T2 := λ f a b, bop2 f a [b].
Global Instance broadcast_2_2 : Broadcast T2 T2 T2 := bop2.
Global Instance broadcast_3_1 : Broadcast T3 T1 T3 := λ f a b, bop3 f a [[b]].
Global Instance broadcast_3_3 : Broadcast T3 T3 T3 := bop3.
Global Instance broadcast_image_scalar : Broadcast Image num Image :=
  λ f a b, Some {| ishape := ishape a; pixels := (λ x, f x b) <$> pixels a |}.

(** [tf.slice] along one axis: [size = -1] means "to the end". *)
Definition slice_axis {A} (begin : nat) (size : Z) (l : list A)
  : option (list A) :=
  let n := if decide (size = (-1)%Z)
           then (Z.of_nat (length l) - Z.of_nat begin)%Z else size in
  if decide ((0 ≤ n)%Z ∧ (Z.of_nat begin + n ≤ Z.of_nat (length l))%Z)
  then Some (take (Z.to_nat n) (drop begin l))
  else None.

(** [tf.slice] on all axes; [begin] and [size] shorter than the rank are
    padded with [0] and [-1]. *)
Class Slice (D : Type) := slice : list nat → list Z → D → option D.

Global Instance slice_num : Slice num := λ _ _ x, Some x.
Global Instance slice_list `{Slice A} : Slice (list A) := λ begin size l,
  rows ← slice_axis (hd 0 begin) (hd (-1)%Z size) l;
  mapM (slice (tail begin) (tail size)) rows.

(** All values of a tensor in row-major order. *)
Class Flat (D : Type) := flat : D → list num.
Global Instance flat_num : Flat num := λ x, [x].
Global Instance flat_list `{Flat A} : Flat (list A) := λ l, l ≫= flat.

(** Cut a list into consecutive pieces of length [n]. *)
Definition chunks {A} (n : nat) (l : list A) : list (list A) :=
  reshape (replicate (length l `div` n) n) l.

(** [x.reshape([d0, d1])] and [x.reshape([d0, d1, d2])], where [d0] may be
    [-1] (inferred from the number of values). *)
Definition reshape_ok (d0 : Z) (inner len : nat) : Prop :=
  0 < inner ∧
  ((d0 = (-1)%Z ∧ len `mod` inner = 0) ∨
   ((0 ≤ d0)%Z ∧ Z.to_nat d0 * inner = len)).

Global Instance reshape_ok_dec d0 inner len : Decision (reshape_ok d0 inner len).
Proof. unfold reshape_ok. apply _. Defined.

Definition reshape2 (shape : list Z) (v : list num) : option T2 :=
  match shape with
  | [d0; d1] =>
      if decide ((0 < d1)%Z ∧ reshape_ok d0 (Z.to_nat d1) (length v))
      then Some (chunks (Z.to_nat d1) v) else None
  | _ => None
  end.

Definition reshape3 (shape : list Z) (v : list num) : option T3 :=
  match shape with
  | [d0; d1; d2] =>
      if decide ((0 < d1)%Z ∧ (0 < d2)%Z ∧
                 reshape_ok d0 (Z.to_nat d1 * Z.to_nat d2) (length v))
      then Some (chunks (Z.to_nat d1) (chunks (Z.to_nat d2) v)) else None
  | _ => None
  end.

(** [x.squeeze()] drops every axis of length 1.  The source uses the
    result of squeezing a rank-3 tensor as a rank-2 tensor and that of a
    rank-2 tensor as a rank-1 tensor; any other resulting rank makes the
    next operation throw, which is reported here. *)
Definition shape2 (t : T2) : list nat := [length t; length (hd [] t)].
Definition shape3 (t : T3) : list nat :=
  [length t; length (hd [] t); length (hd [] (hd [] t))].

Definition squeeze3 (t : T3) : option T2 :=
  match filter (λ d, d ≠ 1) (shape3 t) with
  | [_; d] => Some (chunks d (flat t))
  | _ => None
  end.

Definition squeeze2 (t : T2) : option T1 :=
  match filter (λ d, d ≠ 1) (shape2 t) with
  | [_] => Some (flat t)
  | _ => None
  end.

(** [tf.concat2d(tensors, axis)]: along axis 1 rows are joined and the row
    counts must agree; along axis 0 rows are appended and the row lengths
    must agree.  At least one tensor is required. *)
Definition concat_pair (axis : nat) (a b : T2) : option T2 :=
  match axis with
  | 0 => if decide (length (hd [] a) = length (hd [] b))
         then Some (a ++ b) else None
  | 1 => if decide (length a = length b)
         then Some (zip_with app a b) else None
  | _ => None
  end.

Definition concat2d (axis : nat) (tensors : list T2) : option T2 :=
  match tensors with
  | [] => None
  | t :: rest => foldl (λ acc b, a ← acc; concat_pair axis a b) (Some t) rest
  end.

End Data.

(** ** The tensor store

    TensorFlow.js keeps every tensor alive until it is disposed, either
    explicitly or at the end of the [tf.tidy] scope that created it.  The
    store records which tensor ids are live; a [TF] computation threads
    the store and either returns a value or throws.  Handles that are
    passed in are taken to be live: the store accounts for allocation and
    release only. *)

Inductive Error := ShapeError | TypeError | ModelError.

Inductive Outcome (A : Type) :=
  | Ok (a : A)
  | Throw (e : Error).
Arguments Ok {A} a.
Arguments Throw {A} e.

Record Heap := { next : nat; live : gset nat }.

Definition TF (A : Type) : Type := Heap → Outcome A * Heap.

Global Instance TF_ret : MRet TF := λ A a h, (Ok a, h).
Global Instance TF_bind : MBind TF := λ A B f m h,
  match m h with
  | (Ok a, h') => f a h'
  | (Throw e, h') => (Throw e, h')
  end.

Definition throw {A} (e : Error) : TF A := λ h, (Throw e, h).

Definition lift {A} (o : option A) : TF A :=
  match o with Some a => mret a | None => throw ShapeError end.

Record Tensor (D : Type) := { tid : nat; tdata : D }.
Arguments tid {D} t.
Arguments tdata {D} t.

(** Every operation that yields a tensor registers a fresh id. *)
Definition extend (h : Heap) : Heap :=
  {| next := S (next h); live := {[next h]} ∪ live h |}.

Definition alloc {D} (d : D) : TF (Tensor D) := λ h,
  (Ok {| tid := next h; tdata := d |}, extend h).

(** [t.dispose()] *)
Definition dispose {D} (t : Tensor D) : TF () := λ h,
  (Ok (), {| next := next h; live := live h ∖ {[tid t]} |}).

(** [t.arraySync()] copies the values out and allocates nothing. *)
Definition arraySync {D} (t : Tensor D) : D := tdata t.

(** The tensors found in a value returned from [tf.tidy]; [null] holds
    none. *)
Class Tensors (A : Type) := tensors_in : A → gset nat.
Global Instance tensors_tensor {D} : Tensors (Tensor D) := λ t, {[tid t]}.
Global Instance tensors_option `{Tensors A} : Tensors (option A) := λ o,
  match o with Some a => tensors_in a | None => ∅ end.
Global Instance tensors_pair `{Tensors A, Tensors B} : Tensors (A * B) := λ p,
  tensors_in p.1 ∪ tensors_in p.2.

(** Leaving a scope entered when the next id was [start]: every tensor
    created since is released, except those in [keep]. *)
Definition end_scope (start : nat) (keep : gset nat) (h : Heap) : Heap :=
  {| next := next h;
     live := filter (λ i, i < start ∨ i ∈ keep) (live h) |}.

(** [tf.tidy(() => body)]: the scope is also left when [body] throws. *)
Definition tidy `{Tensors A} (body : TF A) : TF A := λ h,
  match body h with
  | (Ok r, h') => (Ok r, end_scope (next h) (tensors_in r) h')
  | (Throw e, h') => (Throw e, end_scope (next h) ∅ h')
  end.

(** ** TensorFlow.js operations used by the detector *)

Section Ops.
Context `{Number}.

(** [tf.tensor1d(values)], [tf.tensor2d(values)] and the conversion of a
    number argument to a scalar tensor.  [tf.tensor2d] cannot infer a
    rank-2 shape from an empty array and throws. *)
Definition tf_tensor1d (values : list num) : TF (Tensor T1) := alloc values.
Definition tf_tensor2d (values : list (list num)) : TF (Tensor T2) :=
  match values with [] => throw ShapeError | _ => alloc values end.
Definition tf_scalar (value : num) : TF (Tensor num) := alloc value.

Definition tf_binop {D1 D2 E} `{!Broadcast D1 D2 E} (f : num → num → num)
    (a : Tensor D1) (b : Tensor D2) : TF (Tensor E) :=
  r ← lift (broadcast f (tdata a) (tdata b)); alloc r.

Definition tf_add {D1 D2 E} `{!Broadcast D1 D2 E} (a : Tensor D1)
    (b : Tensor D2) : TF (Tensor E) := tf_binop nadd a b.
Definition tf_sub {D1 D2 E} `{!Broadcast D1 D2 E} (a : Tensor D1)
    (b : Tensor D2) : TF (Tensor E) := tf_binop nsub a b.
Definition tf_mul {D1 D2 E} `{!Broadcast D1 D2 E} (a : Tensor D1)
    (b : Tensor D2) : TF (Tensor E) := tf_binop nmul a b.
Definition tf_div {D1 D2 E} `{!Broadcast D1 D2 E} (a : Tensor D1)
    (b : Tensor D2) : TF (Tensor E) := tf_binop ndiv a b.

Definition tf_slice `{!Slice D} (x : Tensor D) (begin : list nat)
    (size : list Z) : TF (Tensor D) :=
  r ← lift (slice begin size (tdata x)); alloc r.

Definition tf_sigmoid (x : Tensor T2) : TF (Tensor T2) :=
  alloc ((λ row : T1, sigmoid <$> row) <$> tdata x).

Definition tf_reshape2 `{!Flat D} (x : Tensor D) (shape : list Z)
  : TF (Tensor T2) :=
  r ← lift (reshape2 shape (flat (tdata x))); alloc r.
Definition tf_reshape3 `{!Flat D} (x : Tensor D) (shape : list Z)
  : TF (Tensor T3) :=
  r ← lift (reshape3 shape (flat (tdata x))); alloc r.

Definition tf_squeeze3 (x : Tensor T3) : TF (Tensor T2) :=
  r ← lift (squeeze3 (tdata x)); alloc r.
Definition tf_squeeze2 (x : Tensor T2) : TF (Tensor T1) :=
  r ← lift (squeeze2 (tdata x)); alloc r.

Definition tf_concat2d (tensors : list (Tensor T2)) (axis : nat)
  : TF (Tensor T2) :=
  r ← lift (concat2d axis (tdata <$> tensors)); alloc r.

End Ops.

(** ** External collaborators

    The image resampler, the overlap measure used by suppression and the
    pretrained network are outside the repository: the first two are
    parameters of the development, the network is a field of the
    detector.  Each may refuse its input, which throws. *)

Class Runtime `{Number} := {
  resizeBilinear : Image → num → num → option Image;
  intersectionOverUnion : list num → list num → num;
}.

Record GraphModel `{Number} := { predict : Image → option T3 }.

Section Suppression.
Context `{Number, !Runtime}.

Definition tf_resizeBilinear (x : Tensor Image) (size : num * num)
  : TF (Tensor Image) :=
  r ← lift (resizeBilinear (tdata x) size.1 size.2); alloc r.

Definition model_predict (m : GraphModel) (x : Tensor Image) : TF (Tensor T3) :=
  match predict m (tdata x) with
  | Some r => alloc r
  | None => throw ModelError
  end.

(** Modelled from the spec: [tf.image.nonMaxSuppression] is a library
    function whose code is not among the sources.  Spec 4.1, step 6: "sort
    candidates by score descending; greedily accept the highest-scoring
    candidate whose IoU with all previously accepted candidates is below
    the threshold; discard candidates below the score threshold before
    consideration", keeping at most the requested number of boxes. *)
Definition candidates (scores : T1) (scoreThreshold : num) : list (nat * num) :=
  filter (λ c, nlt c.2 scoreThreshold = false) (imap pair scores).

(** Modelled from the spec: "sort candidates by score descending".  The
    sort is an insertion sort that keeps candidates of equal score in index
    order. *)
Fixpoint insert_by_score (c : nat * num) (sorted : list (nat * num))
  : list (nat * num) :=
  match sorted with
  | [] => [c]
  | c' :: rest =>
      if nlt c.2 c'.2 then c' :: insert_by_score c rest else c :: sorted
  end.

(** Modelled from the spec: the candidates in descending score order. *)
Definition sort_by_score (cs : list (nat * num)) : list (nat * num) :=
  foldr insert_by_score [] cs.

(** Row [i] of the boxes (empty when out of range). *)
Definition box_at (boxes : T2) (i : nat) : list num := default [] (boxes !! i).

(** Modelled from the spec: "greedily accept the highest-scoring candidate
    whose IoU with all previously accepted candidates is below the
    threshold", until the requested number of boxes is reached. *)
Fixpoint greedy_select (boxes : T2) (maxOutputSize : nat) (iouThreshold : num)
    (cands : list (nat * num)) (selected : list nat) : list nat :=
  match cands with
  | [] => selected
  | c :: rest =>
      if decide (length selected < maxOutputSize) then
        if forallb (λ j, nlt (intersectionOverUnion (box_at boxes c.1)
                                                    (box_at boxes j))
                             iouThreshold) selected
        then greedy_select boxes maxOutputSize iouThreshold rest
                           (selected ++ [c.1])
        else greedy_select boxes maxOutputSize iouThreshold rest selected
      else selected
  end.

(** Modelled from the spec: filter by score, sort, select greedily. *)
Definition nonMaxSuppression (boxes : T2) (scores : T1) (maxOutputSize : nat)
    (iouThreshold scoreThreshold : num) : list nat :=
  greedy_select boxes maxOutputSize iouThreshold
                (sort_by_score (candidates scores scoreThreshold)) [].

(** Modelled from the spec: the library call returns the kept indices as a
    new tensor. *)
Definition tf_image_nonMaxSuppression (boxes : Tensor T2) (scores : Tensor T1)
    (maxOutputSize : nat) (iouThreshold scoreThreshold : num)
  : TF (Tensor (list nat)) :=
  alloc (nonMaxSuppression (tdata boxes) (tdata scores) maxOutputSize
                           iouThreshold scoreThreshold).

End Suppression.

(** ** Bounding boxes ([./box]) *)

Section Box.
Context `{Number}.

Record BoundingBox := {
  startPoint : list num;
  endPoint : list num;
  landmarks : list (list num);
}.

(** Modelled from the spec: [scaleBoxCoordinates] is imported from
    [./box], which is not among the sources.  Spec 4.1, step 9: "multiply
    the selected box and landmark coordinates by (originalWidth/width,
    originalHeight/height)", the first factor on x and the second on y. *)
Definition scalePoint (factors : num * num) (point : list num) : list num :=
  zip_with nmul point [factors.1; factors.2].

(** Modelled from the spec: [scaleBoxCoordinates] scales the start point,
    the end point and every landmark. *)
Definition scaleBoxCoordinates (box : BoundingBox) (factors : num * num)
  : BoundingBox :=
  {| startPoint := scalePoint factors (startPoint box);
     endPoint := scalePoint factors (endPoint box);
     landmarks := scalePoint factors <$> landmarks box |}.

(** [array.slice(start, end)] of JavaScript. *)
Definition js_slice {A} (l : list A) (start stop : nat) : list A :=
  take (stop - start) (drop start l).

End Box.

(** ** The detector ([hand.ts]) *)

Section Detector.
Context `{Number, !Runtime}.

Record Anchor := { x_center : num; y_center : num }.

Record HandDetector := {
  model : GraphModel;
  width : num;
  height : num;
  iouThreshold : num;
  scoreThreshold : num;
  anchors : Tensor T2;
  inputSizeTensor : Tensor T1;
  doubleInputSizeTensor : Tensor T1;
}.

(** [constructor] *)
Definition new_HandDetector (model : GraphModel) (width height : num)
    (ANCHORS : list Anchor) (iouThreshold scoreThreshold : num)
  : TF HandDetector :=
  anchors ← tf_tensor2d ((λ anchor, [x_center anchor; y_center anchor]) <$> ANCHORS);
  inputSizeTensor ← tf_tensor1d [width; height];
  doubleInputSizeTensor ←
    tf_tensor1d [nmul width (of_Q 2); nmul height (of_Q 2)];
  mret {| model := model; width := width; height := height;
          iouThreshold := iouThreshold; scoreThreshold := scoreThreshold;
          anchors := anchors; inputSizeTensor := inputSizeTensor;
          doubleInputSizeTensor := doubleInputSizeTensor |}.

Definition normalizeBoxes (this : HandDetector) (boxes : Tensor T2)
  : TF (Tensor T2) :=
  boxOffsets ← tf_slice boxes [0; 0] [-1; 2]%Z;
  boxSizes ← tf_slice boxes [0; 2] [-1; 2]%Z;
  quotient ← tf_div boxOffsets (inputSizeTensor this);
  boxCenterPoints ← tf_add quotient (anchors this);
  halfBoxSizes ← tf_div boxSizes (doubleInputSizeTensor this);
  startPoints ← tf_sub boxCenterPoints halfBoxSizes;
  endPoints ← tf_add boxCenterPoints halfBoxSizes;
  scaledStart ← tf_mul startPoints (inputSizeTensor this);
  scaledEnd ← tf_mul endPoints (inputSizeTensor this);
  tf_concat2d [scaledStart; scaledEnd] 1.

Definition _decode_landmarks (this : HandDetector) (raw_landmarks : Tensor T2)
  : TF (Tensor T3) :=
  reshaped ← tf_reshape3 raw_landmarks [-1; 7; 2]%Z;
  quotient ← tf_div reshaped (inputSizeTensor this);
  anchors3 ← tf_reshape3 (anchors this) [-1; 1; 2]%Z;
  relative_landmarks ← tf_add quotient anchors3;
  tf_mul relative_landmarks (inputSizeTensor this).

Definition _getBoundingBox (this : HandDetector) (input : Tensor Image)
  : TF (option (Tensor T2) * option (Tensor T2)) :=
  tidy (
    half ← tf_scalar (of_Q 0.5);
    centred ← tf_sub input half;
    two ← tf_scalar (of_Q 2);
    img ← tf_mul centred two;
    output ← model_predict (model this) img;
    prediction ← tf_squeeze3 output;
    rawScores ← tf_slice prediction [0; 0] [-1; 1]%Z;
    probabilities ← tf_sigmoid rawScores;
    scores ← tf_squeeze2 probabilities;
    rawBoxes ← tf_slice prediction [0; 1] [-1; 4]%Z;
    boxes ← normalizeBoxes this rawBoxes;
    suppressed ← tf_image_nonMaxSuppression boxes scores 1
                   (iouThreshold this) (scoreThreshold this);
    let box_indices := arraySync suppressed in
    match box_indices with
    | [] => mret (None, None)
    | box_index :: _ =>
        result_box ← tf_slice boxes [box_index; 0] [1; -1]%Z;
        raw_landmarks ← tf_slice prediction [0; 5] [-1; 14]%Z;
        landmarks ← _decode_landmarks this raw_landmarks;
        sliced ← tf_slice landmarks [box_index; 0] [1]%Z;
        result_landmarks ← tf_reshape2 sliced [-1; 2]%Z;
        mret (Some result_box, Some result_landmarks)
    end).

Definition getSingleBoundingBox (this : HandDetector) (input : Tensor Image)
  : TF (option BoundingBox) :=
  let original_h := of_nat (ishape (tdata input) !!! 1) in
  let original_w := of_nat (ishape (tdata input) !!! 2) in
  image ← tidy (
    resized ← tf_resizeBilinear input (width this, height this);
    scale ← tf_scalar (of_Q 255);
    tf_div resized scale);
  bboxes_data ← _getBoundingBox this image;
  match bboxes_data.1 with
  | None => mret None
  | Some box_tensor =>
      let bboxes := arraySync box_tensor in
      landmarks_tensor ← from_option mret (throw TypeError) bboxes_data.2;
      let landmarks := arraySync landmarks_tensor in
      let factors := (ndiv original_w (width this),
                      ndiv original_h (height this)) in
      row ← from_option mret (throw TypeError) (bboxes !! 0);
      let bb := scaleBoxCoordinates
                  {| startPoint := js_slice row 0 2;
                     endPoint := js_slice row 2 4;
                     landmarks := landmarks |} factors in
      dispose image;;
      dispose box_tensor;;
      dispose landmarks_tensor;;
      mret (Some bb)
  end.

End Detector.

(** ** The detector as an object

    A method of a JavaScript class can assign to the fields of [this].
    The definitions above take the detector as a value; here the methods
    are written once more with the object in the state next to the tensor
    store, so that what a call leaves in the fields can be stated.
    [field f] is [this.f], read from the object as it is at that point;
    [op m] is a TensorFlow.js call, which has no access to the object;
    [scoped body] is [tf.tidy(() => body)].  The class never assigns to a
    field after the constructor, so no method below writes the object. *)

Definition Method `{Number} (A : Type) : Type :=
  HandDetector → Heap → Outcome A * (HandDetector * Heap).

Global Instance Method_ret `{Number} : MRet Method := λ A a this h,
  (Ok a, (this, h)).
Global Instance Method_bind `{Number} : MBind Method := λ A B f m this h,
  match m this h with
  | (Ok a, (this', h')) => f a this' h'
  | (Throw e, s) => (Throw e, s)
  end.

Definition field `{Number} {X} (f : HandDetector → X) : Method X := λ this h,
  (Ok (f this), (this, h)).

(** [this.f = v]: what an assignment to a field would be.  No method of
    the class has one; it is here to show that the object can change. *)
Definition assign `{Number} (update : HandDetector → HandDetector)
  : Method () := λ this h, (Ok (), (update this, h)).

Definition op `{Number} {A} (m : TF A) : Method A := λ this h,
  ((m h).1, (this, (m h).2)).

Definition scoped `{Number} `{Tensors A} (body : Method A) : Method A :=
  λ this h,
    match body this h with
    | (Ok r, (this', h')) =>
        (Ok r, (this', end_scope (next h) (tensors_in r) h'))
    | (Throw e, (this', h')) => (Throw e, (this', end_scope (next h) ∅ h'))
    end.

Module Object.
Section Methods.
Context `{Number, !Runtime}.

Definition normalizeBoxes (boxes : Tensor T2) : Method (Tensor T2) :=
  boxOffsets ← op (tf_slice boxes [0; 0] [-1; 2]%Z);
  boxSizes ← op (tf_slice boxes [0; 2] [-1; 2]%Z);
  inputSize ← field inputSizeTensor;
  quotient ← op (tf_div boxOffsets inputSize);
  anchors ← field anchors;
  boxCenterPoints ← op (tf_add quotient anchors);
  doubleInputSize ← field doubleInputSizeTensor;
  halfBoxSizes ← op (tf_div boxSizes doubleInputSize);
  startPoints ← op (tf_sub boxCenterPoints halfBoxSizes);
  endPoints ← op (tf_add boxCenterPoints halfBoxSizes);
  inputSize ← field inputSizeTensor;
  scaledStart ← op (tf_mul startPoints inputSize);
  inputSize ← field inputSizeTensor;
  scaledEnd ← op (tf_mul endPoints inputSize);
  op (tf_concat2d [scaledStart; scaledEnd] 1).

Definition _decode_landmarks (raw_landmarks : Tensor T2) : Method (Tensor T3) :=
  reshaped ← op (tf_reshape3 raw_landmarks [-1; 7; 2]%Z);
  inputSize ← field inputSizeTensor;
  quotient ← op (tf_div reshaped inputSize);
  anchors ← field anchors;
  anchors3 ← op (tf_reshape3 anchors [-1; 1; 2]%Z);
  relative_landmarks ← op (tf_add quotient anchors3);
  inputSize ← field inputSizeTensor;
  op (tf_mul relative_landmarks inputSize).

Definition _getBoundingBox (input : Tensor Image)
  : Method (option (Tensor T2) * option (Tensor T2)) :=
  scoped (
    half ← op (tf_scalar (of_Q 0.5));
    centred ← op (tf_sub input half);
    two ← op (tf_scalar (of_Q 2));
    img ← op (tf_mul centred two);
    model ← field model;
    output ← op (model_predict model img);
    prediction ← op (tf_squeeze3 output);
    rawScores ← op (tf_slice prediction [0; 0] [-1; 1]%Z);
    probabilities ← op (tf_sigmoid rawScores);
    scores ← op (tf_squeeze2 probabilities);
    rawBoxes ← op (tf_slice prediction [0; 1] [-1; 4]%Z);
    boxes ← normalizeBoxes rawBoxes;
    iouThreshold ← field iouThreshold;
    scoreThreshold ← field scoreThreshold;
    suppressed ← op (tf_image_nonMaxSuppression boxes scores 1
                       iouThreshold scoreThreshold);
    let box_indices := arraySync suppressed in
    match box_indices with
    | [] => mret (None, None)
    | box_index :: _ =>
        result_box ← op (tf_slice boxes [box_index; 0] [1; -1]%Z);
        raw_landmarks ← op (tf_slice prediction [0; 5] [-1; 14]%Z);
        landmarks ← _decode_landmarks raw_landmarks;
        sliced ← op (tf_slice landmarks [box_index; 0] [1]%Z);
        result_landmarks ← op (tf_reshape2 sliced [-1; 2]%Z);
        mret (Some result_box, Some result_landmarks)
    end).

Definition getSingleBoundingBox (input : Tensor Image)
  : Method (option BoundingBox) :=
  let original_h := of_nat (ishape (tdata input) !!! 1) in
  let original_w := of_nat (ishape (tdata input) !!! 2) in
  image ← scoped (
    width ← field width;
    height ← field height;
    resized ← op (tf_resizeBilinear input (width, height));
    scale ← op (tf_scalar (of_Q 255));
    op (tf_div resized scale));
  bboxes_data ← _getBoundingBox image;
  match bboxes_data.1 with
  | None => mret None
  | Some box_tensor =>
      let bboxes := arraySync box_tensor in
      landmarks_tensor ← op (from_option mret (throw TypeError) bboxes_data.2);
      let landmarks := arraySync landmarks_tensor in
      width ← field width;
      height ← field height;
      let factors := (ndiv original_w width, ndiv original_h height) in
      row ← op (from_option mret (throw TypeError) (bboxes !! 0));
      let bb := scaleBoxCoordinates
                  {| startPoint := js_slice row 0 2;
                     endPoint := js_slice row 2 4;
                     landmarks := landmarks |} factors in
      op (dispose image);;
      op (dispose box_tensor);;
      op (dispose landmarks_tensor);;
      mret (Some bb)
  end.

End Methods.
End Object.

(** [refines this M m]: run on the object [this], the method [M] does to
    the store and returns what the function [m] does and returns, and
    leaves the object as it was. *)
Definition refines `{Number} {A} (this : HandDetector) (M : Method A)
    (m : TF A) : Prop :=
  ∀ h, M this h = ((m h).1, (this, (m h).2)).

(** ** Reading the tensor programs row by row

    What [normalizeBoxes] and [_decode_landmarks] compute for one anchor
    and the matching slice of one prediction row.  These are not in the
    source: they are the row-wise reading of its whole-tensor operations,
    and the theorems below show that the programs compute them. *)

Section Rows.
Context `{Number}.

Definition box_row (inputSize doubleInputSize raw anchor : T1) : T1 :=
  let center :=
    zip_with nadd (zip_with ndiv (take 2 raw) inputSize) anchor in
  let halfSize := zip_with ndiv (take 2 (drop 2 raw)) doubleInputSize in
  zip_with nmul (zip_with nsub center halfSize) inputSize ++
  zip_with nmul (zip_with nadd center halfSize) inputSize.

Definition landmark_point (inputSize anchor point : T1) : T1 :=
  zip_with nmul (zip_with nadd (zip_with ndiv point inputSize) anchor)
           inputSize.

Definition landmarks_row (inputSize raw anchor : T1) : T2 :=
  landmark_point inputSize anchor <$> chunks 2 raw.

Definition anchor_row `{!Runtime} (a : Anchor) : T1 := [x_center a; y_center a].

(** The image handed to the network: resized, divided by 255, then
    [(x - 0.5) * 2] on every value. *)
Definition normalise (image : Image) : Image :=
  {| ishape := ishape image;
     pixels := (λ x, ndiv x (of_Q 255)) <$> pixels image |}.

Definition centre (image : Image) : Image :=
  {| ishape := ishape image;
     pixels := (λ x, nmul x (of_Q 2)) <$> ((λ x, nsub x (of_Q 0.5)) <$> pixels image) |}.

Definition network_input `{!Runtime} (this : HandDetector) (input : Image)
  : option Image :=
  resized ← resizeBilinear input (width this) (height this);
  Some (centre (normalise resized)).

(** The same detector around another network. *)
Definition with_model (this : HandDetector) (net : GraphModel)
  : HandDetector :=
  {| model := net; width := width this; height := height this;
     iouThreshold := iouThreshold this; scoreThreshold := scoreThreshold this;
     anchors := anchors this; inputSizeTensor := inputSizeTensor this;
     doubleInputSizeTensor := doubleInputSizeTensor this |}.

(** The same detector with another overlap threshold. *)
Definition with_iouThreshold (this : HandDetector) (iou : num) : HandDetector :=
  {| model := model this; width := width this; height := height this;
     iouThreshold := iou; scoreThreshold := scoreThreshold this;
     anchors := anchors this; inputSizeTensor := inputSizeTensor this;
     doubleInputSizeTensor := doubleInputSizeTensor this |}.

(** Scores, decoded boxes and decoded landmarks of a raw prediction, and
    the indices suppression keeps. *)
Definition scores_of (rows : T2) : T1 :=
  concat ((λ r, sigmoid <$> take 1 r) <$> rows).

Definition boxes_of `{!Runtime} (this : HandDetector) (rows : T2) : T2 :=
  zip_with (box_row (tdata (inputSizeTensor this))
                    (tdata (doubleInputSizeTensor this)))
           ((λ r, take 4 (drop 1 r)) <$> rows) (tdata (anchors this)).

Definition landmarks_of `{!Runtime} (this : HandDetector) (rows : T2) : T3 :=
  zip_with (landmarks_row (tdata (inputSizeTensor this)))
           ((λ r, take 14 (drop 5 r)) <$> rows) (tdata (anchors this)).

Definition selection `{!Runtime} (this : HandDetector) (rows : T2) : list nat :=
  nonMaxSuppression (boxes_of this rows) (scores_of rows) 1
                    (iouThreshold this) (scoreThreshold this).

(** The result of a call that selects row [i]. *)
Definition factors_of `{!Runtime} (this : HandDetector) (input : Image)
  : num * num :=
  (ndiv (of_nat (ishape input !!! 2)) (width this),
   ndiv (of_nat (ishape input !!! 1)) (height this)).

Definition detection_at `{!Runtime} (this : HandDetector) (input : Image)
    (rows : T2) (i : nat) : option BoundingBox :=
  box ← boxes_of this rows !! i;
  points ← landmarks_of this rows !! i;
  Some (scaleBoxCoordinates
          {| startPoint := js_slice box 0 2;
             endPoint := js_slice box 2 4;
             landmarks := points |}
          (factors_of this input)).

(** The shape the detector expects of the network's answer: a batch of
    one, one row of 19 values per anchor.  A single row would lose its
    axis in [squeeze] along with the batch. *)
Definition raw_prediction_ok `{!Runtime} (this : HandDetector) (rows : T2)
  : Prop :=
  length rows = length (tdata (anchors this)) ∧
  length rows ≠ 1 ∧
  Forall (λ r, length r = 19) rows.

End Rows.

(** ** Well-formed stores

    Ids are handed out in increasing order, so every live id is below the
    next one. *)
Definition heap_wf (h : Heap) : Prop := set_Forall (λ i, i < next h) (live h).

Definition empty_heap : Heap := {| next := 0; live := ∅ |}.

(** ** A caller

    What a client does with a detector: one call per frame, each from the
    store the previous call left.  Not in the source; used to state what
    calls add up to. *)
Definition store_after_calls `{Number, !Runtime} (this : HandDetector)
    (inputs : list (Tensor Image)) (h : Heap) : Heap :=
  foldl (λ h input, (getSingleBoundingBox this input h).2) h inputs.

(** [outcomes m Ψ Φ]: from any store, [m] throws only errors satisfying
    [Ψ] and returns only values satisfying [Φ]. *)
Definition outcomes {A} (m : TF A) (Ψ : Error → Prop) (Φ : A → Prop) : Prop :=
  ∀ h, match (m h).1 with Ok a => Φ a | Throw e => Ψ e end.

(** The errors of tensor code: a rejected shape, or a failing network. *)
Definition tensor_error (e : Error) : Prop := e = ShapeError ∨ e = ModelError.

(** [_getBoundingBox] returns both tensors or neither, and the box
    tensor holds one row. *)
Definition one_box_or_nothing `{Number}
    (r : option (Tensor T2) * option (Tensor T2)) : Prop :=
  r = (None, None) ∨ ∃ b l, r = (Some b, Some l) ∧ length (tdata b) = 1.

(** ** Predicates used by the proofs *)

(** [frames n m Φ]: run from a well-formed store whose next id is at
    least [n], the computation [m] leaves every id below [n] as it was,
    keeps the store well formed, and returns only values satisfying [Φ]. *)
Definition frames {A} (n : nat) (m : TF A) (Φ : A → Prop) : Prop :=
  ∀ h, heap_wf h → n ≤ next h →
    heap_wf (m h).2 ∧ next h ≤ next (m h).2 ∧
    (∀ i, i < n → i ∈ live (m h).2 ↔ i ∈ live h) ∧
    (∀ a, (m h).1 = Ok a → Φ a).

(** Two runs are similar when both throw the same error or both return,
    with related values. *)
Definition sim {A} (R : A → A → Prop) (m1 m2 : TF A) : Prop :=
  ∀ h1 h2,
    match (m1 h1).1, (m2 h2).1 with
    | Ok a1, Ok a2 => R a1 a2
    | Throw e1, Throw e2 => e1 = e2
    | _, _ => False
    end.

(** Tensors are related when they hold the same values, whatever their
    ids. *)
Definition same_data {D} (t1 t2 : Tensor D) : Prop := tdata t1 = tdata t2.

Section Predicates.
Context `{Number, !Runtime}.

(** A rank-2 tensor whose rows all have [n] values. *)
Definition uniform (n : nat) (t : T2) : Prop := Forall (λ r, length r = n) t.

(** The detector's own tensors have the shapes the constructor gives
    them. *)
Definition detector_shapes (this : HandDetector) : Prop :=
  length (tdata (inputSizeTensor this)) = 2 ∧
  length (tdata (doubleInputSizeTensor this)) = 2 ∧
  uniform 2 (tdata (anchors this)) ∧
  tdata (anchors this) ≠ [].

(** The two shapes of what [_getBoundingBox] returns. *)
Definition pair_or_nothing (n : nat)
    (r : option (Tensor T2) * option (Tensor T2)) : Prop :=
  r = (None, None) ∨
  ∃ b l, r = (Some b, Some l) ∧ n ≤ tid b ∧ n ≤ tid l.

(** What [_getBoundingBox] returns in two runs: nothing both times, or
    tensors with the same values. *)
Definition same_boxes
    (r1 r2 : option (Tensor T2) * option (Tensor T2)) : Prop :=
  option_Forall2 same_data r1.1 r2.1 ∧ option_Forall2 same_data r1.2 r2.2.

End Predicates.

(** ** An exact instance

    Rational numbers, to run the definitions on concrete inputs.  The
    logistic function is not rational; this instance squashes with
    [x ↦ (1 + x / (1 + |x|)) / 2], which like the logistic function is
    increasing, maps 0 to 1/2 and stays strictly between 0 and 1. *)

Definition Qc_ltb (a b : Qc) : bool :=
  match (this a ?= this b)%Q with Lt => true | _ => false end.

Definition Qc_abs (a : Qc) : Qc := if Qc_ltb a 0%Qc then (- a)%Qc else a.

Definition Qc_squash (x : Qc) : Qc := ((1 + x / (1 + Qc_abs x)) / Q2Qc 2)%Qc.

Global Instance Qc_number : Number := {|
  num := Qc;
  of_Q := Q2Qc;
  nadd := Qcplus;
  nsub := Qcminus;
  nmul := Qcmult;
  ndiv := Qcdiv;
  nlt := Qc_ltb;
  sigmoid := Qc_squash;
|}.

Definition Qc_max (a b : Qc) : Qc := if Qc_ltb a b then b else a.
Definition Qc_min (a b : Qc) : Qc := if Qc_ltb a b then a else b.

(** Area of the intersection over area of the union of two boxes
    [x1; y1; x2; y2]; 0 for anything else. *)
Definition Qc_iou (a b : list Qc) : Qc :=
  match a, b with
  | [ax1; ay1; ax2; ay2], [bx1; by1; bx2; by2] =>
      let w := Qc_max 0 (Qc_min ax2 bx2 - Qc_max ax1 bx1) in
      let h := Qc_max 0 (Qc_min ay2 by2 - Qc_max ay1 by1) in
      let inter := w * h in
      let union := (ax2 - ax1) * (ay2 - ay1) + (bx2 - bx1) * (by2 - by1) - inter in
      inter / union
  | _, _ => 0
  end%Qc.

(** The examples feed images that are already at the input resolution:
    resampling leaves them unchanged. *)
Global Instance Qc_runtime : Runtime := {|
  resizeBilinear := λ image _ _, Some image;
  intersectionOverUnion := Qc_iou;
|}.

(** A stand-in network that answers every image with the same raw
    prediction (spec 9: "a mock returning a fixed raw-prediction array"). *)
Definition mock_model (rows : list (list Qc)) : GraphModel :=
  {| predict := λ _, Some [rows] |}.

(** ** A small detector to run

    Three anchors on the diagonal, input size 10 by 10, a 20 by 20 image,
    and a network that scores the middle anchor highest with all
    regression values zero. *)

Definition demo_anchors : list Anchor :=
  [ {| x_center := Q2Qc 0.25; y_center := Q2Qc 0.25 |};
    {| x_center := Q2Qc 0.5; y_center := Q2Qc 0.5 |};
    {| x_center := Q2Qc 0.75; y_center := Q2Qc 0.75 |} ].

Definition demo_row (score : Q) : list Qc :=
  Q2Qc score :: replicate 18 (Q2Qc 0).

Definition demo_rows : list (list Qc) :=
  [demo_row (-5); demo_row 3; demo_row 1].

Definition quiet_rows : list (list Qc) :=
  [demo_row (-5); demo_row (-3); demo_row (-4)].

(** Two confident rows whose boxes, 10 by 10 around the first two
    anchors, overlap by more than the IoU threshold. *)
Definition wide_row (score : Q) : list Qc :=
  [Q2Qc score; Q2Qc 0; Q2Qc 0; Q2Qc 10; Q2Qc 10] ++ replicate 14 (Q2Qc 0).

Definition overlapping_rows : list (list Qc) :=
  [wide_row 3; wide_row 1; demo_row (-5)].

(** A network that answers only images whose values all lie between -1
    and 1. *)
Definition picky_model (rows : list (list Qc)) : GraphModel :=
  {| predict := λ img,
       if forallb (λ p, negb (Qc_ltb p (Q2Qc (-1))) && negb (Qc_ltb (Q2Qc 1) p))
                  (pixels img)
       then Some [rows] else None |}.

Definition demo_detector (rows : list (list Qc)) : HandDetector :=
  {| model := mock_model rows;
     width := Q2Qc 10; height := Q2Qc 10;
     iouThreshold := Q2Qc 0.3; scoreThreshold := Q2Qc 0.5;
     anchors := {| tid := 0; tdata := anchor_row <$> demo_anchors |};
     inputSizeTensor := {| tid := 1; tdata := [Q2Qc 10; Q2Qc 10] |};
     doubleInputSizeTensor := {| tid := 2; tdata := [Q2Qc 20; Q2Qc 20] |} |}.

Definition demo_heap : Heap := Nat.iter 4 extend empty_heap.

Definition demo_image : Tensor Image :=
  {| tid := 3;
     tdata := {| ishape := [1; 20; 20; 3]; pixels := [Q2Qc 0; Q2Qc 255] |} |}.

Definition demo_prediction (rows : list (list Qc))
  : Tensor (list (list (num (Number:=Qc_number)))) :=
  {| tid := 3; tdata := rows |}.

(** Raw landmarks for the three anchors: every point one input pixel
    right of and two below its anchor. *)
Definition demo_raw_landmarks
  : Tensor (list (list (num (Number:=Qc_number)))) :=
  {| tid := 3;
     tdata := replicate 3 (concat (replicate 7 [Q2Qc 1; Q2Qc 2])) |}.

(** The small detector with its first anchor only, around a network that
    answers with a single row. *)
Definition lone_detector : HandDetector :=
  {| model := mock_model [demo_row 3];
     width := Q2Qc 10; height := Q2Qc 10;
     iouThreshold := Q2Qc 0.3; scoreThreshold := Q2Qc 0.5;
     anchors := {| tid := 0; tdata := anchor_row <$> take 1 demo_anchors |};
     inputSizeTensor := {| tid := 1; tdata := [Q2Qc 10; Q2Qc 10] |};
     doubleInputSizeTensor := {| tid := 2; tdata := [Q2Qc 20; Q2Qc 20] |} |}.

(** The box of the spec's rescaling example, before and after. *)
Definition example_box : BoundingBox (H:=Qc_number) :=
  {| startPoint := [Q2Qc 10; Q2Qc 10]; endPoint := [Q2Qc 20; Q2Qc 20];
     landmarks := [] |}.

Definition example_box_rescaled : BoundingBox (H:=Qc_number) :=
  {| startPoint := [Q2Qc 20; Q2Qc 20]; endPoint := [Q2Qc 40; Q2Qc 40];
     landmarks := [] |}.

(** A call of the small detector, and the detection it returns. *)
Definition demo_call : Outcome (option BoundingBox) * Heap :=
  getSingleBoundingBox (demo_detector demo_rows) demo_image demo_heap.

Definition demo_detection : BoundingBox :=
  match demo_call.1 with Ok (Some bb) => bb | _ => example_box end.

(** * Proofs *)

(** ** Broadcasting *)

Section BroadcastLemmas.
Context `{Number}.

Lemma mapM_total {A B} (g : A → B) (l : list A) :
  mapM (λ x, Some (g x)) l = Some (g <$> l).
Proof.
  apply mapM_Some_2. induction l; constructor; auto.
Qed.

Lemma mapM_ext_Forall {A B} (f : A → option B) (g : A → B) (l : list A) :
  Forall (λ x, f x = Some (g x)) l → mapM f l = Some (g <$> l).
Proof.
  intros Hl. apply mapM_Some_2.
  induction Hl; constructor; auto.
Qed.

(** Broadcasting along one axis, when the lengths agree. *)
Lemma bzip_same {A B C} (f : A → B → option C) (g : A → B → C) xs ys :
  length xs = length ys →
  Forall2 (λ x y, f x y = Some (g x y)) xs ys →
  bzip f xs ys = Some (zip_with g xs ys).
Proof.
  intros Hlen Hall. unfold bzip. rewrite decide_True by done.
  apply mapM_Some_2. clear Hlen.
  induction Hall; simpl; constructor; auto.
Qed.

(** Broadcasting a single item along the other operand. *)
Lemma bzip_single_r {A B C} (f : A → B → option C) (g : A → C) xs y :
  Forall (λ x, f x y = Some (g x)) xs →
  bzip f xs [y] = Some (g <$> xs).
Proof.
  intros Hall. unfold bzip. case_decide as Hlen.
  - destruct xs as [|x [|]]; simplify_eq/=.
    apply Forall_cons in Hall as [-> _]. done.
  - destruct xs as [|x [|x' xs]]; [done|done|].
    by apply (mapM_ext_Forall (λ x, f x y)).
Qed.

Lemma bop1_same (f : num → num → num) (r v : T1) :
  length r = length v → bop1 f r v = Some (zip_with f r v).
Proof.
  intros Hlen. apply bzip_same; [done|].
  revert v Hlen. induction r; intros [|? ?] ?; simplify_eq/=; constructor; auto.
Qed.

(** A rank-2 tensor against a vector as long as its rows. *)
Lemma broadcast_rows_vector (f : num → num → num) (a : T2) (v : T1) :
  Forall (λ r, length r = length v) a →
  broadcast f a v = Some ((λ r, zip_with f r v) <$> a).
Proof.
  intros Hall. unfold broadcast, broadcast_2_1, bop2.
  apply bzip_single_r. eapply Forall_impl; [done|].
  intros r Hr. by apply bop1_same.
Qed.

(** Two rank-2 tensors of the same shape. *)
Lemma broadcast_rows_rows (f : num → num → num) (a b : T2) :
  Forall2 (λ r s, length r = length s) a b →
  broadcast f a b = Some (zip_with (zip_with f) a b).
Proof.
  intros Hall. unfold broadcast, broadcast_2_2, bop2.
  apply bzip_same; [by eapply Forall2_length|].
  eapply Forall2_impl; [done|]. intros r s ?. by apply bop1_same.
Qed.

(** A rank-3 tensor against a vector as long as its innermost rows. *)
Lemma broadcast_cube_vector (f : num → num → num) (a : T3) (v : T1) :
  Forall (Forall (λ r, length r = length v)) a →
  broadcast f a v = Some (fmap (λ r, zip_with f r v) <$> a).
Proof.
  intros Hall. unfold broadcast, broadcast_3_1, bop3.
  apply bzip_single_r. eapply Forall_impl; [done|].
  intros m Hm. simpl. unfold bop2. apply bzip_single_r.
  eapply Forall_impl; [done|]. intros r Hr. by apply bop1_same.
Qed.

(** A rank-3 tensor against one row per outer index. *)
Lemma broadcast_cube_points (f : num → num → num) (a : T3) (ps : T2) :
  Forall2 (λ m p, Forall (λ r, length r = length p) m) a ps →
  broadcast f a ((λ p, [p]) <$> ps)
  = Some (zip_with (λ m p, (λ r, zip_with f r p) <$> m) a ps).
Proof.
  intros Hall. unfold broadcast, broadcast_3_3, bop3.
  rewrite <-(zip_with_fmap_r
              (λ (m : T2) (q : T2), (λ r, zip_with f r (hd [] q)) <$> m)
              (λ p : T1, [p])).
  apply bzip_same.
  - rewrite length_fmap. by eapply Forall2_length.
  - apply Forall2_fmap_r. eapply Forall2_impl; [exact Hall|].
    intros m p Hm. simpl. unfold bop2. apply bzip_single_r.
    eapply Forall_impl; [exact Hm|]. intros r Hr. by apply bop1_same.
Qed.
End BroadcastLemmas.

(** ** Slicing, flattening and cutting *)

Section SliceLemmas.
Context `{Number}.

Lemma slice_axis_full {A} (l : list A) : slice_axis 0 (-1) l = Some l.
Proof.
  unfold slice_axis. cbv zeta.
  rewrite (decide_True (P:=(-1 = -1)%Z)) by done.
  rewrite decide_True by lia.
  rewrite drop_0, take_ge by lia. done.
Qed.

Lemma slice_axis_range {A} (begin : nat) (size : Z) (l : list A) :
  (0 ≤ size)%Z → begin + Z.to_nat size ≤ length l →
  slice_axis begin size l = Some (take (Z.to_nat size) (drop begin l)).
Proof.
  intros Hsize Hlen. unfold slice_axis. cbv zeta.
  rewrite (decide_False (P:=(size = -1)%Z)) by lia.
  rewrite decide_True by lia. done.
Qed.

Lemma mapM_Some_id {A} (l : list A) : mapM Some l = Some l.
Proof. rewrite (mapM_total id). by rewrite list_fmap_id. Qed.

Lemma slice_vector (begin : nat) (size : Z) (r : T1) :
  (0 ≤ size)%Z → begin + Z.to_nat size ≤ length r →
  slice [begin] [size] r = Some (take (Z.to_nat size) (drop begin r)).
Proof.
  intros. unfold slice, slice_list. simpl.
  rewrite slice_axis_range by done. simpl. apply mapM_Some_id.
Qed.

Lemma slice_vector_full (begin : list nat) (size : list Z) (r : T1) :
  hd 0 begin = 0 → hd (-1)%Z size = (-1)%Z → slice begin size r = Some r.
Proof.
  intros Hb Hs. unfold slice, slice_list. rewrite Hb, Hs.
  rewrite slice_axis_full. simpl. apply mapM_Some_id.
Qed.

(** Columns [c0 .. c0+size) of every row. *)
Lemma slice_columns (c0 : nat) (size : Z) (rows : T2) :
  (0 ≤ size)%Z → Forall (λ r, c0 + Z.to_nat size ≤ length r) rows →
  slice [0; c0] [(-1)%Z; size] rows
  = Some ((λ r, take (Z.to_nat size) (drop c0 r)) <$> rows).
Proof.
  intros Hsize Hall. unfold slice at 1, slice_list at 1. simpl.
  rewrite slice_axis_full. simpl.
  apply mapM_ext_Forall. eapply Forall_impl; [exact Hall|].
  intros r Hr. by apply slice_vector.
Qed.

(** Row [i], all columns. *)
Lemma slice_one_row (i : nat) (t : T2) (row : T1) :
  t !! i = Some row → slice [i; 0] [1; -1]%Z t = Some [row].
Proof.
  intros Hi. unfold slice at 1, slice_list at 1. simpl.
  rewrite slice_axis_range; [|lia|].
  - erewrite drop_S by done. simpl.
    rewrite slice_vector_full by done. done.
  - apply lookup_lt_Some in Hi. simpl. lia.
Qed.

(** Matrix [i] of a rank-3 tensor, whole. *)
Lemma slice_one_matrix (i : nat) (t : T3) (m : T2) :
  t !! i = Some m → slice [i; 0] [1%Z] t = Some [m].
Proof.
  intros Hi. unfold slice at 1, slice_list at 1. simpl.
  rewrite slice_axis_range; [|lia|].
  - erewrite drop_S by done. simpl.
    unfold slice at 1, slice_list at 1. simpl.
    rewrite slice_axis_full. simpl.
    rewrite (mapM_ext_Forall _ id).
    + by rewrite list_fmap_id.
    + apply Forall_forall. intros r _. by apply slice_vector_full.
  - apply lookup_lt_Some in Hi. simpl. lia.
Qed.

Lemma flat_vector (r : T1) : flat r = r.
Proof.
  unfold flat, flat_list. induction r as [|x r IH]; [done|].
  cbn. f_equal. exact IH.
Qed.

Lemma flat_rows (t : T2) : flat t = concat t.
Proof.
  unfold flat at 1, flat_list at 1. induction t as [|r t IH]; [done|].
  cbn. rewrite flat_vector. f_equal. exact IH.
Qed.

Lemma flat_cube (t : T3) : flat t = concat (concat t).
Proof.
  unfold flat at 1, flat_list at 1. induction t as [|m t IH]; [done|].
  cbn. rewrite flat_rows, concat_app. f_equal. exact IH.
Qed.

Lemma length_concat_uniform {A} (n : nat) (ls : list (list A)) :
  Forall (λ r, length r = n) ls → length (concat ls) = length ls * n.
Proof.
  induction 1 as [|r ls Hr _ IH]; [done|].
  simpl. rewrite length_app, IH, Hr. lia.
Qed.

Lemma reshape_concat {A} (n : nat) (ls : list (list A)) :
  Forall (λ r, length r = n) ls →
  reshape (replicate (length ls) n) (concat ls) = ls.
Proof.
  induction 1 as [|r ls Hr _ IH]; [done|]. simpl.
  rewrite take_app_length' by done. rewrite drop_app_length' by done.
  by rewrite IH.
Qed.

(** Cutting a concatenation of equal-length pieces gives the pieces. *)
Lemma chunks_concat {A} (n : nat) (ls : list (list A)) :
  0 < n → Forall (λ r, length r = n) ls → chunks n (concat ls) = ls.
Proof.
  intros Hn Hall. unfold chunks.
  rewrite (length_concat_uniform n) by done.
  rewrite Nat.div_mul by lia. by apply reshape_concat.
Qed.

Lemma chunks_singletons {A} (l : list A) : chunks 1 l = (λ x, [x]) <$> l.
Proof.
  unfold chunks. rewrite Nat.div_1_r.
  induction l as [|x l IH]; [done|]. simpl. rewrite drop_0, take_0. by rewrite IH.
Qed.

Lemma length_chunks {A} (n : nat) (l : list A) :
  length (chunks n l) = length l `div` n.
Proof. unfold chunks. by rewrite length_reshape, length_replicate. Qed.

Lemma chunks_app {A} (n k : nat) (l1 l2 : list A) :
  0 < n → length l1 = k * n → chunks n (l1 ++ l2) = chunks n l1 ++ chunks n l2.
Proof.
  intros Hn. unfold chunks. revert l1.
  induction k as [|k IH]; intros l1 Hlen.
  - destruct l1; [|done]. simpl. by rewrite Nat.Div0.div_0_l.
  - rewrite length_app, Hlen.
    replace ((S k * n + length l2) `div` n) with (S (k + length l2 `div` n)).
    2:{ replace (S k * n + length l2) with (length l2 + S k * n) by lia.
        rewrite Nat.div_add by lia. lia. }
    rewrite Nat.div_mul by lia. simpl.
    rewrite take_app_le by lia. f_equal.
    rewrite drop_app_le by lia.
    specialize (IH (drop n l1)). rewrite length_drop, Hlen in IH.
    rewrite length_app, length_drop, Hlen in IH.
    replace (S k * n - n) with (k * n) in IH by lia.
    rewrite Nat.div_mul in IH by lia.
    replace ((k * n + length l2) `div` n) with (k + length l2 `div` n) in IH.
    2:{ replace (k * n + length l2) with (length l2 + k * n) by lia.
        rewrite Nat.div_add by lia. lia. }
    by apply IH.
Qed.

Lemma chunks_concat_fmap {A} (n k : nat) (ls : list (list A)) :
  0 < n → Forall (λ r, length r = k * n) ls →
  chunks n (concat ls) = concat (chunks n <$> ls).
Proof.
  intros Hn. induction 1 as [|r ls Hr _ IH]; simpl.
  - unfold chunks. simpl. by rewrite Nat.Div0.div_0_l.
  - by rewrite (chunks_app n k), IH.
Qed.

End SliceLemmas.

(** ** Reshaping and squeezing *)

Section ReshapeLemmas.
Context `{Number}.

(** [raw_landmarks.reshape([-1, 7, 2])] on rows of 14 values: each row
    becomes 7 points. *)
Lemma reshape3_landmarks (rows : T2) :
  Forall (λ r, length r = 14) rows →
  reshape3 [-1; 7; 2]%Z (flat rows) = Some (chunks 2 <$> rows).
Proof.
  intros Hall. unfold reshape3. rewrite flat_rows.
  rewrite decide_True.
  - f_equal. change (Z.to_nat 7) with 7. change (Z.to_nat 2) with 2.
    rewrite (chunks_concat_fmap 2 7) by (done || lia).
    apply chunks_concat; [lia|].
    apply Forall_fmap. eapply Forall_impl; [exact Hall|].
    intros r Hr. simpl. by rewrite length_chunks, Hr.
  - split_and!; [lia|lia|]. split; [simpl; lia|]. left. split; [done|].
    rewrite (length_concat_uniform 14) by done.
    change (Z.to_nat 7 * Z.to_nat 2) with 14. apply Nat.Div0.mod_mul.
Qed.

(** [anchors.reshape([-1, 1, 2])]: each anchor becomes a one-row matrix. *)
Lemma reshape3_anchors (anc : T2) :
  Forall (λ r, length r = 2) anc →
  reshape3 [-1; 1; 2]%Z (flat anc) = Some ((λ p, [p]) <$> anc).
Proof.
  intros Hall. unfold reshape3. rewrite flat_rows.
  rewrite decide_True.
  - f_equal. change (Z.to_nat 1) with 1. change (Z.to_nat 2) with 2.
    rewrite chunks_concat by (done || lia). apply chunks_singletons.
  - split_and!; [lia|lia|]. split; [simpl; lia|]. left. split; [done|].
    rewrite (length_concat_uniform 2) by done.
    change (Z.to_nat 1 * Z.to_nat 2) with 2. apply Nat.Div0.mod_mul.
Qed.

(** [x.reshape([-1, 2])] of a single matrix of points is that matrix. *)
Lemma reshape2_points (m : T2) :
  Forall (λ r, length r = 2) m →
  reshape2 [-1; 2]%Z (flat [m]) = Some m.
Proof.
  intros Hall. unfold reshape2. rewrite flat_cube. simpl.
  rewrite !app_nil_r. rewrite decide_True.
  - f_equal. apply chunks_concat; [lia|done].
  - split; [lia|]. split; [simpl; lia|]. left. split; [done|].
    rewrite (length_concat_uniform 2) by done.
    change (Z.to_nat 2) with 2. apply Nat.Div0.mod_mul.
Qed.

(** Squeezing a batch of one: the batch axis goes, provided no other
    axis has length 1. *)
Lemma squeeze3_batch (rows : T2) (c : nat) :
  rows ≠ [] → length rows ≠ 1 → c ≠ 1 → 0 < c →
  Forall (λ r, length r = c) rows →
  squeeze3 [rows] = Some rows.
Proof.
  intros Hne Hrows Hc Hpos Hall. unfold squeeze3, shape3.
  destruct rows as [|r rows]; [done|].
  assert (length r = c) as Hr by (by apply Forall_cons in Hall as [? _]).
  cbn [hd]. rewrite Hr.
  rewrite filter_cons_False by (intros ?; done).
  rewrite filter_cons_True by done.
  rewrite filter_cons_True by done. rewrite filter_nil.
  f_equal. rewrite flat_cube. simpl. rewrite app_nil_r.
  by apply (chunks_concat c (r :: rows)).
Qed.

(** Squeezing a column gives the vector of its entries. *)
Lemma squeeze2_column (rows : T2) :
  rows ≠ [] → length rows ≠ 1 →
  Forall (λ r, length r = 1) rows →
  squeeze2 rows = Some (concat rows).
Proof.
  intros Hne Hrows Hall. unfold squeeze2, shape2.
  destruct rows as [|r rows]; [done|].
  assert (length r = 1) as Hr by (by apply Forall_cons in Hall as [? _]).
  cbn [hd]. rewrite Hr.
  rewrite filter_cons_True by done.
  rewrite filter_cons_False by (intros ?; done). rewrite filter_nil.
  by rewrite flat_rows.
Qed.

End ReshapeLemmas.

(** ** Running [TF] programs *)

Lemma bind_run {A B} (m : TF A) (k : A → TF B) h a h1 r :
  m h = (Ok a, h1) → k a h1 = r → (m ≫= k) h = r.
Proof. intros Hm Hk. unfold mbind, TF_bind. by rewrite Hm. Qed.

Lemma bind_throw {A B} (m : TF A) (k : A → TF B) h e h1 :
  m h = (Throw e, h1) → (m ≫= k) h = (Throw e, h1).
Proof. intros Hm. unfold mbind, TF_bind. by rewrite Hm. Qed.

Lemma lift_alloc_run {D} (o : option D) (d : D) h :
  o = Some d →
  (lift o ≫= alloc) h = (Ok {| tid := next h; tdata := d |}, extend h).
Proof. by intros ->. Qed.

Section OpRuns.
Context `{Number, !Runtime}.

Lemma tf_binop_run {D1 D2 E} `{!Broadcast D1 D2 E} f (a : Tensor D1)
    (b : Tensor D2) (r : E) h :
  broadcast f (tdata a) (tdata b) = Some r →
  tf_binop f a b h = (Ok {| tid := next h; tdata := r |}, extend h).
Proof. apply lift_alloc_run. Qed.

Lemma tf_slice_run `{!Slice D} (x : Tensor D) begin size (r : D) h :
  slice begin size (tdata x) = Some r →
  tf_slice x begin size h = (Ok {| tid := next h; tdata := r |}, extend h).
Proof. apply lift_alloc_run. Qed.

Lemma tf_reshape2_run `{!Flat D} (x : Tensor D) shape (r : T2) h :
  reshape2 shape (flat (tdata x)) = Some r →
  tf_reshape2 x shape h = (Ok {| tid := next h; tdata := r |}, extend h).
Proof. apply lift_alloc_run. Qed.

Lemma tf_reshape3_run `{!Flat D} (x : Tensor D) shape (r : T3) h :
  reshape3 shape (flat (tdata x)) = Some r →
  tf_reshape3 x shape h = (Ok {| tid := next h; tdata := r |}, extend h).
Proof. apply lift_alloc_run. Qed.

Lemma tf_squeeze3_run (x : Tensor T3) (r : T2) h :
  squeeze3 (tdata x) = Some r →
  tf_squeeze3 x h = (Ok {| tid := next h; tdata := r |}, extend h).
Proof. apply lift_alloc_run. Qed.

Lemma tf_squeeze2_run (x : Tensor T2) (r : T1) h :
  squeeze2 (tdata x) = Some r →
  tf_squeeze2 x h = (Ok {| tid := next h; tdata := r |}, extend h).
Proof. apply lift_alloc_run. Qed.

Lemma tf_concat2d_run (a b : Tensor T2) h :
  length (tdata a) = length (tdata b) →
  tf_concat2d [a; b] 1 h
  = (Ok {| tid := next h; tdata := zip_with app (tdata a) (tdata b) |},
     extend h).
Proof.
  intros Hlen. apply lift_alloc_run. unfold concat2d, concat_pair. simpl.
  by rewrite decide_True.
Qed.

Lemma uniform_fmap (n m : nat) (g : T1 → T1) (t : T2) :
  (∀ r, length r = n → length (g r) = m) → uniform n t → uniform m (g <$> t).
Proof.
  intros Hg Ht. apply Forall_fmap. eapply Forall_impl; [exact Ht|].
  intros r Hr. simpl. auto.
Qed.

Lemma uniform_zip_with (n : nat) (g : T1 → T1 → T1) (a b : T2) :
  (∀ r s, length r = n → length s = n → length (g r s) = n) →
  uniform n a → uniform n b → uniform n (zip_with g a b).
Proof.
  intros Hg Ha. revert b. induction Ha as [|r a Hr _ IH]; intros b Hb; [constructor|].
  destruct Hb as [|s b Hs Hb]; simpl; constructor; auto. by apply IH.
Qed.

Lemma uniform_Forall2 (n : nat) (a b : T2) :
  length a = length b → uniform n a → uniform n b →
  Forall2 (λ r s, length r = length s) a b.
Proof.
  intros Hlen Ha. revert b Hlen.
  induction Ha as [|r a Hr _ IH]; intros [|s b] Hlen Hb; simplify_eq/=;
    constructor.
  - apply Forall_cons in Hb as [? ?]. congruence.
  - apply IH; [done|]. by apply Forall_cons in Hb as [? ?].
Qed.

Lemma uniform_lookup (n : nat) (t : T2) (i : nat) (r : T1) :
  uniform n t → t !! i = Some r → length r = n.
Proof. intros Ht Hi. exact (Forall_lookup_1 _ _ _ _ Ht Hi). Qed.

Lemma length_zip_with_same {A B C} (g : A → B → C) n (r : list A) (s : list B) :
  length r = n → length s = n → length (zip_with g r s) = n.
Proof. intros. rewrite length_zip_with. lia. Qed.

End OpRuns.

Section DecodeRuns.
Context `{Number, !Runtime}.

Ltac shape :=
  repeat first
    [ assumption
    | apply (uniform_fmap 2 2); [intros ? ?|]
    | apply (uniform_zip_with 2); [intros ? ? ? ?| |]
    | apply length_zip_with_same
    | rewrite length_take, ?length_drop; lia ].

(** [normalizeBoxes] on raw boxes with one row of at least 4 values per
    anchor. *)
Lemma normalizeBoxes_run (this : HandDetector) (boxes : Tensor T2) h :
  length (tdata (inputSizeTensor this)) = 2 →
  length (tdata (doubleInputSizeTensor this)) = 2 →
  uniform 2 (tdata (anchors this)) →
  length (tdata boxes) = length (tdata (anchors this)) →
  Forall (λ r, 4 ≤ length r) (tdata boxes) →
  normalizeBoxes this boxes h
  = (Ok {| tid := 9 + next h;
           tdata := zip_with (box_row (tdata (inputSizeTensor this))
                                      (tdata (doubleInputSizeTensor this)))
                             (tdata boxes) (tdata (anchors this)) |},
     Nat.iter 10 extend h).
Proof.
  intros Hsize Hdbl Hanc Hlen Hrows. unfold normalizeBoxes.
  set (size := tdata (inputSizeTensor this)) in *.
  set (dbl := tdata (doubleInputSizeTensor this)) in *.
  set (anc := tdata (anchors this)) in *.
  set (rows := tdata boxes) in *.
  assert (uniform 2 ((λ r, take (Z.to_nat 2) (drop 0 r)) <$> rows)) as Hoffs.
  { apply Forall_fmap. eapply Forall_impl; [exact Hrows|]. intros r Hr. simpl in *.
    rewrite length_take, length_drop. change (Z.to_nat 2) with 2. lia. }
  assert (uniform 2 ((λ r, take (Z.to_nat 2) (drop 2 r)) <$> rows)) as Hsizes.
  { apply Forall_fmap. eapply Forall_impl; [exact Hrows|]. intros r Hr. simpl in *.
    rewrite length_take, length_drop. change (Z.to_nat 2) with 2. lia. }
  eapply bind_run.
  { apply tf_slice_run, slice_columns; [lia|].
    eapply Forall_impl; [exact Hrows|]. intros r Hr. simpl in *. lia. }
  eapply bind_run.
  { apply tf_slice_run, slice_columns; [lia|].
    eapply Forall_impl; [exact Hrows|]. intros r Hr. simpl in *. lia. }
  eapply bind_run.
  { apply tf_binop_run, broadcast_rows_vector. simpl. fold size.
    rewrite Hsize. exact Hoffs. }
  eapply bind_run.
  { apply tf_binop_run, broadcast_rows_rows. simpl. fold anc.
    apply (uniform_Forall2 2); [by rewrite !length_fmap| |done].
    shape. }
  eapply bind_run.
  { apply tf_binop_run, broadcast_rows_vector. simpl. fold dbl.
    rewrite Hdbl. exact Hsizes. }
  eapply bind_run.
  { apply tf_binop_run, broadcast_rows_rows. simpl.
    apply (uniform_Forall2 2).
    - rewrite length_zip_with, !length_fmap. fold rows anc. lia.
    - shape.
    - shape. }
  eapply bind_run.
  { apply tf_binop_run, broadcast_rows_rows. simpl.
    apply (uniform_Forall2 2).
    - rewrite length_zip_with, !length_fmap. fold rows anc. lia.
    - shape.
    - shape. }
  eapply bind_run.
  { apply tf_binop_run, broadcast_rows_vector. simpl. fold size.
    rewrite Hsize. shape. }
  eapply bind_run.
  { apply tf_binop_run, broadcast_rows_vector. simpl. fold size.
    rewrite Hsize. shape. }
  rewrite tf_concat2d_run.
  2:{ simpl. rewrite !length_fmap, !length_zip_with, !length_fmap. done. }
  do 3 f_equal. simpl. fold size dbl anc rows. apply list_eq. intros i.
  repeat first [rewrite lookup_zip_with | rewrite list_lookup_fmap].
  destruct (rows !! i) as [r|], (anc !! i) as [a|]; done.
Qed.

End DecodeRuns.

Section LandmarkRuns.
Context `{Number, !Runtime}.

Lemma chunks_cons {A} (n : nat) (l : list A) :
  0 < n → n ≤ length l → chunks n l = take n l :: chunks n (drop n l).
Proof.
  intros Hn Hlen. unfold chunks. rewrite length_drop.
  replace (length l `div` n) with (S ((length l - n) `div` n)); [done|].
  replace (length l) with ((length l - n) + 1 * n) at 2 by lia.
  rewrite Nat.div_add by lia. lia.
Qed.

Lemma uniform_chunks {A} (n k : nat) (l : list A) :
  0 < n → length l = k * n → Forall (λ p, length p = n) (chunks n l).
Proof.
  intros Hn. revert l. induction k as [|k IH]; intros l Hlen.
  - destruct l; [|done]. unfold chunks. simpl.
    rewrite Nat.Div0.div_0_l. constructor.
  - rewrite chunks_cons by lia. constructor.
    + rewrite length_take. lia.
    + apply IH. rewrite length_drop. lia.
Qed.

(** [_decode_landmarks] on rows of 14 raw values, one per anchor. *)
Lemma decode_landmarks_run (this : HandDetector) (raw : Tensor T2) h :
  length (tdata (inputSizeTensor this)) = 2 →
  uniform 2 (tdata (anchors this)) →
  length (tdata raw) = length (tdata (anchors this)) →
  uniform 14 (tdata raw) →
  _decode_landmarks this raw h
  = (Ok {| tid := 4 + next h;
           tdata := zip_with (landmarks_row (tdata (inputSizeTensor this)))
                             (tdata raw) (tdata (anchors this)) |},
     Nat.iter 5 extend h).
Proof.
  intros Hsize Hanc Hlen Hrows. unfold _decode_landmarks.
  set (size := tdata (inputSizeTensor this)) in *.
  set (anc := tdata (anchors this)) in *.
  set (rows := tdata raw) in *.
  assert (Forall (Forall (λ p : T1, length p = 2)) (chunks 2 <$> rows)) as Hpts.
  { apply Forall_fmap. eapply Forall_impl; [exact Hrows|]. intros r Hr.
    simpl in *. apply (uniform_chunks 2 7); [lia|done]. }
  eapply bind_run.
  { apply tf_reshape3_run, reshape3_landmarks. exact Hrows. }
  eapply bind_run.
  { apply tf_binop_run, broadcast_cube_vector. simpl. fold size rows.
    by rewrite Hsize. }
  eapply bind_run.
  { apply tf_reshape3_run, reshape3_anchors. exact Hanc. }
  eapply bind_run.
  { apply tf_binop_run, broadcast_cube_points. simpl. fold size rows anc.
    apply Forall2_same_length_lookup_2.
    { by rewrite !length_fmap. }
    intros i m p Hm Hp. rewrite !list_lookup_fmap in Hm.
    destruct (rows !! i) as [r|] eqn:Hr; simplify_eq/=.
    assert (length r = 14) as Hr14 by (by eapply uniform_lookup).
    assert (length p = 2) as -> by (by eapply uniform_lookup).
    apply Forall_fmap. eapply Forall_impl; [apply (uniform_chunks 2 7); [lia|done]|].
    intros q Hq. simpl in *. rewrite length_zip_with. lia. }
  etrans.
  {   apply tf_binop_run, broadcast_cube_vector. simpl. fold size rows anc.
      apply Forall_lookup_2. intros i m Hm.
      apply lookup_zip_with_Some in Hm as (m' & p & -> & Hm' & Hp).
      rewrite !list_lookup_fmap in Hm'.
      destruct (rows !! i) as [r|] eqn:Hr; simplify_eq/=.
      assert (length r = 14) as Hr14 by (by eapply uniform_lookup).
      assert (length p = 2) as Hp2 by (by eapply uniform_lookup).
      rewrite <-list_fmap_compose.
      apply Forall_fmap. eapply Forall_impl; [apply (uniform_chunks 2 7); [lia|done]|].
      intros q Hq. simpl in *. rewrite !length_zip_with. lia. }
  do 3 f_equal. cbn [tdata]. apply list_eq. intros i.
  repeat first [rewrite lookup_zip_with | rewrite list_lookup_fmap].
  fold size rows anc.
  destruct (rows !! i) as [r|], (anc !! i) as [a|]; simpl; [|done..].
  f_equal. unfold landmarks_row, landmark_point.
  rewrite <-!list_fmap_compose. done.
Qed.

End LandmarkRuns.

(** ** Suppression *)

Section SuppressionLemmas.
Context `{Number, !Runtime}.

Lemma elem_of_insert_by_score (x c : nat * num) (l : list (nat * num)) :
  x ∈ insert_by_score c l ↔ x = c ∨ x ∈ l.
Proof.
  induction l as [|c' l IH]; simpl.
  - rewrite list_elem_of_singleton, elem_of_nil. tauto.
  - destruct (nlt c.2 c'.2); rewrite !elem_of_cons, ?IH; tauto.
Qed.

Lemma elem_of_sort_by_score (x : nat * num) (l : list (nat * num)) :
  x ∈ sort_by_score l ↔ x ∈ l.
Proof.
  unfold sort_by_score. induction l as [|c l IH]; simpl; [done|].
  rewrite elem_of_insert_by_score, elem_of_cons, IH. done.
Qed.

Lemma elem_of_candidates (i : nat) (s : num) (scores : T1) (threshold : num) :
  (i, s) ∈ candidates scores threshold
  ↔ scores !! i = Some s ∧ nlt s threshold = false.
Proof.
  unfold candidates. rewrite list_elem_of_filter. simpl.
  rewrite elem_of_lookup_imap. split.
  - intros [Hs (j & y & Heq & Hj)]. by simplify_eq.
  - intros [Hi Hs]. split; [done|]. by exists i, s.
Qed.

Lemma elem_of_greedy_select boxes k iou cands selected (i : nat) :
  i ∈ greedy_select boxes k iou cands selected →
  i ∈ selected ∨ ∃ s, (i, s) ∈ cands.
Proof.
  revert selected. induction cands as [|c cands IH]; intros selected; simpl.
  - auto.
  - case_decide; [|auto]. destruct (forallb _ _).
    + intros [Hi|[s Hs]]%IH.
      * apply elem_of_app in Hi as [?|Hi]; [auto|].
        apply list_elem_of_singleton in Hi as ->.
        right. exists c.2. destruct c. left.
      * right. exists s. by right.
    + intros [Hi|[s Hs]]%IH; [auto|]. right. exists s. by right.
Qed.

(** Whatever suppression keeps is the index of a score that is not
    below the score threshold. *)
Lemma elem_of_nonMaxSuppression boxes scores k iou threshold (i : nat) :
  i ∈ nonMaxSuppression boxes scores k iou threshold →
  ∃ s, scores !! i = Some s ∧ nlt s threshold = false.
Proof.
  unfold nonMaxSuppression.
  intros [Hi|[s Hs]]%elem_of_greedy_select; [by apply elem_of_nil in Hi|].
  exists s. by apply elem_of_candidates, elem_of_sort_by_score.
Qed.

(** With at most one box requested, suppression keeps the first
    candidate in score order and never compares boxes. *)
Lemma nonMaxSuppression_one boxes scores iou threshold :
  nonMaxSuppression boxes scores 1 iou threshold
  = match sort_by_score (candidates scores threshold) with
    | [] => []
    | c :: _ => [c.1]
    end.
Proof.
  unfold nonMaxSuppression.
  destruct (sort_by_score _) as [|c [|c' rest]]; simpl; try done.
Qed.

Lemma candidates_none scores threshold :
  Forall (λ s, nlt s threshold = true) scores → candidates scores threshold = [].
Proof.
  intros Hall. unfold candidates.
  destruct (filter _ _) as [|[i s] l] eqn:Hf; [done|].
  assert ((i, s) ∈ filter (λ c : nat * num, nlt c.2 threshold = false)
                          (imap pair scores)) as Hin by (rewrite Hf; left).
  apply elem_of_candidates in Hin as [Hi Hs].
  rewrite Forall_lookup in Hall. specialize (Hall _ _ Hi). simpl in *. congruence.
Qed.

Lemma nonMaxSuppression_none boxes scores k iou threshold :
  Forall (λ s, nlt s threshold = true) scores →
  nonMaxSuppression boxes scores k iou threshold = [].
Proof.
  intros Hall. unfold nonMaxSuppression. by rewrite candidates_none.
Qed.

Lemma nlt_irrefl `{!OrderLaws} (a : num) : nlt a a = false.
Proof.
  destruct (nlt a a) eqn:Ha; [|done]. by rewrite (nlt_asym _ _ Ha) in Ha.
Qed.

(** A candidate that beats every other candidate comes first. *)
Lemma sort_by_score_head `{!OrderLaws} (cs : list (nat * num)) (c : nat * num) :
  c ∈ cs →
  (∀ c', c' ∈ cs → c' = c ∨ nlt c'.2 c.2 = true) →
  head (sort_by_score cs) = Some c.
Proof.
  unfold sort_by_score. induction cs as [|a cs IH]; intros Hin Hbest.
  - by apply elem_of_nil in Hin.
  - simpl. destruct (Hbest a) as [->|Ha]; [left|..].
    + destruct (foldr insert_by_score [] cs) as [|b rest] eqn:Hsort; [done|].
      simpl. assert (b ∈ cs) as Hb.
      { apply elem_of_sort_by_score. unfold sort_by_score. rewrite Hsort. left. }
      destruct (Hbest b) as [->|Hlt]; [by right|..].
      * by rewrite nlt_irrefl.
      * by rewrite (nlt_asym _ _ Hlt).
    + apply elem_of_cons in Hin as [->|Hin].
      { by rewrite nlt_irrefl in Ha. }
      rewrite <-(elem_of_sort_by_score c cs) in Hin.
      specialize (IH ltac:(by apply elem_of_sort_by_score)
                     (λ c' Hc', Hbest c' ltac:(by right))).
      destruct (foldr insert_by_score [] cs) as [|b rest]; [done|].
      simpl in *. simplify_eq. by rewrite Ha.
Qed.

(** With one box requested, suppression keeps the row whose score passes
    the threshold and beats every other passing score. *)
Lemma nonMaxSuppression_best `{!OrderLaws} boxes scores iou threshold i s :
  scores !! i = Some s → nlt s threshold = false →
  (∀ j s', scores !! j = Some s' → nlt s' threshold = false →
           j = i ∨ nlt s' s = true) →
  nonMaxSuppression boxes scores 1 iou threshold = [i].
Proof.
  intros Hi Hpass Hbest. rewrite nonMaxSuppression_one.
  assert (head (sort_by_score (candidates scores threshold)) = Some (i, s))
    as Hhead.
  { apply sort_by_score_head.
    - by apply elem_of_candidates.
    - intros [j s'] [Hj Hs']%elem_of_candidates. simpl.
      destruct (Hbest j s' Hj Hs') as [->|?]; [|by right].
      left. congruence. }
  by destruct (sort_by_score _) as [|c rest]; simplify_eq/=.
Qed.

End SuppressionLemmas.

(** ** Running [_getBoundingBox] *)

Section DetectRuns.
Context `{Number, !Runtime}.

Lemma tidy_run `{Tensors A} (body : TF A) h r h1 :
  body h = (Ok r, h1) →
  tidy body h = (Ok r, end_scope (next h) (tensors_in r) h1).
Proof. intros Hb. unfold tidy. by rewrite Hb. Qed.

Lemma model_predict_run (m : GraphModel) (x : Tensor Image) (r : T3) h :
  predict m (tdata x) = Some r →
  model_predict m x h = (Ok {| tid := next h; tdata := r |}, extend h).
Proof. intros Hp. unfold model_predict. by rewrite Hp. Qed.

Lemma length_scores_of (rows : T2) :
  Forall (λ r, 1 ≤ length r) rows → length (scores_of rows) = length rows.
Proof.
  intros Hall. unfold scores_of.
  rewrite (length_concat_uniform 1), length_fmap; [lia|].
  apply Forall_fmap. eapply Forall_impl; [exact Hall|]. intros r Hr.
  simpl in *. rewrite length_fmap, length_take. lia.
Qed.

Lemma selection_lt (this : HandDetector) (rows : T2) (i : nat) :
  Forall (λ r, 1 ≤ length r) rows →
  i ∈ selection this rows → i < length rows.
Proof.
  intros Hall (s & Hs & _)%elem_of_nonMaxSuppression.
  apply lookup_lt_Some in Hs. by rewrite length_scores_of in Hs.
Qed.

Lemma length_landmark_point (size a p : T1) :
  length size = 2 → length a = 2 → length p = 2 →
  length (landmark_point size a p) = 2.
Proof. intros. unfold landmark_point. rewrite !length_zip_with. lia. Qed.

Lemma squeeze2_scores (rows : T2) :
  rows ≠ [] → length rows ≠ 1 → Forall (λ r, length r = 19) rows →
  squeeze2 ((λ row : T1, sigmoid <$> row) <$>
            ((λ r : T1, take (Z.to_nat 1) (drop 0 r)) <$> rows))
  = Some (concat ((λ row : T1, sigmoid <$> row) <$>
                  ((λ r : T1, take (Z.to_nat 1) (drop 0 r)) <$> rows))).
Proof.
  intros Hne Hone Hrows. apply squeeze2_column.
  - destruct rows; done.
  - by rewrite !length_fmap.
  - rewrite <-list_fmap_compose. apply Forall_fmap.
    eapply Forall_impl; [exact Hrows|]. intros r Hr. simpl in *.
    rewrite length_fmap, length_take, length_drop. lia.
Qed.

Lemma raw_slice_wide (c0 : nat) (n : Z) (rows : T2) :
  (0 ≤ n)%Z → c0 + Z.to_nat n ≤ 19 → Forall (λ r, length r = 19) rows →
  Forall (λ r : T1, length r = Z.to_nat n)
         ((λ r : T1, take (Z.to_nat n) (drop c0 r)) <$> rows).
Proof.
  intros Hn Hc Hrows. apply Forall_fmap.
  eapply Forall_impl; [exact Hrows|]. intros r Hr. simpl in *.
  rewrite length_take, length_drop. lia.
Qed.

Lemma raw_columns (c0 : nat) (n : Z) (rows : T2) :
  (0 ≤ n)%Z → c0 + Z.to_nat n ≤ 19 → Forall (λ r, length r = 19) rows →
  slice [0; c0] [(-1)%Z; n] rows
  = Some ((λ r, take (Z.to_nat n) (drop c0 r)) <$> rows).
Proof.
  intros Hn Hc Hrows. apply slice_columns; [done|].
  eapply Forall_impl; [exact Hrows|]. intros r Hr. simpl in *. lia.
Qed.

Local Ltac prefix_steps Hpred Hne Hone Hrows Hshapes :=
  eapply bind_run; [reflexivity|];
  eapply bind_run; [apply tf_binop_run; reflexivity|];
  eapply bind_run; [reflexivity|];
  eapply bind_run; [apply tf_binop_run; reflexivity|];
  eapply bind_run; [apply model_predict_run; exact Hpred|];
  eapply bind_run;
    [apply tf_squeeze3_run, (squeeze3_batch _ 19); [done|done|lia|lia|done]|];
  eapply bind_run;
    [apply tf_slice_run, raw_columns; [lia|compute; lia|exact Hrows]|];
  eapply bind_run; [reflexivity|];
  eapply bind_run;
    [apply tf_squeeze2_run, squeeze2_scores; assumption|];
  eapply bind_run;
    [apply tf_slice_run, raw_columns; [lia|compute; lia|exact Hrows]|];
  eapply bind_run;
    [apply normalizeBoxes_run;
     [apply Hshapes|apply Hshapes|apply Hshapes
     |cbn [tdata]; rewrite length_fmap; apply Hshapes
     |cbn [tdata]; eapply Forall_impl;
        [apply (raw_slice_wide 1 4); [lia|compute; lia|exact Hrows]
        |intros ? ->; compute; lia]]|].

(** [_getBoundingBox] on an image the network answers with a prediction
    of the expected shape. *)
Lemma getBoundingBox_run (this : HandDetector) (input : Tensor Image)
    (rows : T2) h :
  detector_shapes this →
  predict (model this) (centre (tdata input)) = Some [rows] →
  raw_prediction_ok this rows →
  match selection this rows with
  | [] => ∃ h', _getBoundingBox this input h = (Ok (None, None), h')
  | i :: _ =>
      ∃ b m h',
        boxes_of this rows !! i = Some b ∧
        landmarks_of this rows !! i = Some m ∧
        _getBoundingBox this input h
        = (Ok (Some {| tid := 21 + next h; tdata := [b] |},
               Some {| tid := 29 + next h; tdata := m |}), h')
  end.
Proof.
  intros (Hsize & Hdbl & Hanc & Hne) Hpred (Hlen & Hone & Hrows).
  assert (length (tdata (inputSizeTensor this)) = 2 ∧
          length (tdata (doubleInputSizeTensor this)) = 2 ∧
          uniform 2 (tdata (anchors this)) ∧
          length rows = length (tdata (anchors this))) as Hshapes by done.
  assert (rows ≠ []) as Hrne.
  { intros ->. destruct (tdata (anchors this)); done. }
  assert (∀ n, n ≤ 19 → Forall (λ r : T1, n ≤ length r) rows) as Hge.
  { intros n Hn. eapply Forall_impl; [exact Hrows|]. intros r Hr.
    simpl in *. lia. }
  assert (Forall (λ r : T1, 1 ≤ length r) rows) as Hge1 by (apply Hge; lia).
  assert (∀ i, i ∈ selection this rows →
            is_Some (boxes_of this rows !! i) ∧
            is_Some (landmarks_of this rows !! i)) as Hsel_ok.
  { intros i Hi%selection_lt; [|done]. split; apply lookup_lt_is_Some.
    - unfold boxes_of. rewrite length_zip_with, length_fmap. lia.
    - unfold landmarks_of. rewrite length_zip_with, length_fmap. lia. }
  unfold _getBoundingBox.
  destruct (selection this rows) as [|i sel] eqn:Hsel.
  - eexists. apply tidy_run. prefix_steps Hpred Hrne Hone Hrows Hshapes.
    eapply bind_run; [reflexivity|].
    cbn [arraySync tdata]. rewrite <-list_fmap_compose.
    change (nonMaxSuppression _ _ _ _ _) with (selection this rows).
    rewrite Hsel. reflexivity.
  - destruct (Hsel_ok i) as [[b Hb] [m Hm]]; [left|].
    exists b, m. eexists. split; [done|]. split; [done|].
    apply tidy_run. prefix_steps Hpred Hrne Hone Hrows Hshapes.
    eapply bind_run; [reflexivity|].
    cbn [arraySync tdata]. rewrite <-list_fmap_compose.
    change (nonMaxSuppression _ _ _ _ _) with (selection this rows).
    rewrite Hsel.
    eapply bind_run.
    { apply tf_slice_run, slice_one_row. exact Hb. }
    eapply bind_run.
    { apply tf_slice_run, slice_columns; [lia|]. apply Hge. lia. }
    eapply bind_run.
    { apply decode_landmarks_run; simpl; auto.
      - by rewrite length_fmap.
      - apply Forall_fmap. eapply Forall_impl; [exact Hrows|].
        intros r Hr. simpl in *. rewrite length_take, length_drop. lia. }
    eapply bind_run.
    { apply tf_slice_run, slice_one_matrix. exact Hm. }
    eapply bind_run.
    { apply tf_reshape2_run, reshape2_points. simpl.
      unfold landmarks_of in Hm.
      apply lookup_zip_with_Some in Hm as (r & a & -> & Hr & Ha).
      apply list_lookup_fmap_Some in Hr as (r' & -> & Hr').
      unfold landmarks_row. apply Forall_fmap.
      eapply Forall_impl.
      { apply (uniform_chunks 2 7); [lia|].
        rewrite length_take, length_drop.
        rewrite (uniform_lookup 19 rows i r') by done. done. }
      intros p Hp. simpl in *. apply length_landmark_point; [done| |done].
      by eapply uniform_lookup. }
    reflexivity.
Qed.

End DetectRuns.

(** ** What a call does to the store *)

Lemma heap_wf_extend h : heap_wf h → heap_wf (extend h).
Proof.
  unfold heap_wf, extend. simpl. intros Hwf i Hi.
  apply elem_of_union in Hi as [Hi%elem_of_singleton|Hi]; [lia|].
  specialize (Hwf i Hi). simpl in Hwf. lia.
Qed.

Lemma heap_wf_fresh h : heap_wf h → next h ∉ live h.
Proof. intros Hwf Hi. specialize (Hwf _ Hi). simpl in Hwf. lia. Qed.

Lemma elem_of_end_scope start keep h i :
  i ∈ live (end_scope start keep h) ↔ (i < start ∨ i ∈ keep) ∧ i ∈ live h.
Proof. unfold end_scope. simpl. by rewrite elem_of_filter. Qed.

Lemma heap_wf_end_scope start keep h : heap_wf h → heap_wf (end_scope start keep h).
Proof.
  intros Hwf i [_ Hi]%elem_of_end_scope. exact (Hwf i Hi).
Qed.

Section Frames.
Context `{Number, !Runtime}.

Lemma frames_ret {A} n (a : A) (Φ : A → Prop) : Φ a → frames n (mret a) Φ.
Proof. intros Ha h Hwf Hn. simpl. split_and!; [done|done|done|]. by intros ? [= <-]. Qed.

Lemma frames_throw {A} n e (Φ : A → Prop) : frames n (throw e) Φ.
Proof. intros h Hwf Hn. simpl. split_and!; done. Qed.

Lemma frames_lift {A} n (o : option A) : frames n (lift o) (λ _, True).
Proof. destruct o; [by apply frames_ret|apply frames_throw]. Qed.

Lemma frames_alloc {D} n (d : D) : frames n (alloc d) (λ t, n ≤ tid t).
Proof.
  intros h Hwf Hn. simpl. split_and!.
  - by apply heap_wf_extend.
  - lia.
  - intros i Hi. rewrite elem_of_union, elem_of_singleton. split; [|auto].
    intros [->|?]; [lia|done].
  - by intros ? [= <-].
Qed.

Lemma frames_dispose {D} n (t : Tensor D) :
  n ≤ tid t → frames n (dispose t) (λ _, True).
Proof.
  intros Ht h Hwf Hn. simpl. split_and!; [|done| |done].
  - intros i Hi%elem_of_difference. apply Hwf. tauto.
  - intros i Hi. rewrite elem_of_difference, elem_of_singleton.
    split; [tauto|]. intros ?. split; [done|lia].
Qed.

Lemma frames_bind {A B} n (m : TF A) (k : A → TF B) Φ Ψ :
  frames n m Φ → (∀ a, Φ a → frames n (k a) Ψ) → frames n (m ≫= k) Ψ.
Proof.
  intros Hm Hk h Hwf Hn. destruct (Hm h Hwf Hn) as (Hwf1 & Hn1 & Hfr1 & Hres).
  unfold mbind, TF_bind. destruct (m h) as [[a|e] h1]; simpl in *.
  - destruct (Hk a (Hres a eq_refl) h1 Hwf1) as (Hwf2 & Hn2 & Hfr2 & Hres2);
      [lia|].
    split_and!; [done|lia| |done].
    intros i Hi. by rewrite Hfr2, Hfr1.
  - split_and!; done.
Qed.

Lemma frames_weaken {A} n (m : TF A) (Φ Ψ : A → Prop) :
  frames n m Φ → (∀ a, Φ a → Ψ a) → frames n m Ψ.
Proof.
  intros Hm HΦ h Hwf Hn. destruct (Hm h Hwf Hn) as (? & ? & ? & Hres).
  split_and!; auto.
Qed.

Lemma frames_tidy `{Tensors A} n (body : TF A) Φ :
  frames n body Φ → frames n (tidy body) Φ.
Proof.
  intros Hb h Hwf Hn. destruct (Hb h Hwf Hn) as (Hwf1 & Hn1 & Hfr1 & Hres).
  unfold tidy. destruct (body h) as [[a|e] h1]; cbn [fst snd] in *.
  - split_and!; [by apply heap_wf_end_scope|done| |done].
    intros i Hi. rewrite elem_of_end_scope, Hfr1 by done.
    split; [tauto|]. intros ?. split; [left; lia|done].
  - split_and!; [by apply heap_wf_end_scope|done| |done].
    intros i Hi. rewrite elem_of_end_scope, Hfr1 by done.
    split; [tauto|]. intros ?. split; [left; lia|done].
Qed.

(** Leaving a scope releases everything the body created except what it
    returns. *)
Lemma tidy_live `{Tensors A} (body : TF A) Φ h :
  heap_wf h → frames (next h) body Φ →
  live h ⊆ live (tidy body h).2 ∧
  live (tidy body h).2
  ⊆ live h ∪ match (tidy body h).1 with Ok r => tensors_in r | Throw _ => ∅ end.
Proof.
  intros Hwf Hb. destruct (Hb h Hwf (le_n _)) as (Hwf1 & Hn1 & Hfr1 & Hres).
  unfold tidy. destruct (body h) as [[a|e] h1]; cbn [fst snd] in *.
  - split; intros i; rewrite elem_of_end_scope.
    + intros Hi. pose proof (Hwf i Hi) as Hlt. simpl in Hlt.
      split; [auto|]. by apply Hfr1.
    + intros [[Hi|Hi] Hl]; [|by apply elem_of_union_r].
      apply elem_of_union_l. by apply Hfr1.
  - split; intros i; rewrite elem_of_end_scope.
    + intros Hi. pose proof (Hwf i Hi) as Hlt. simpl in Hlt.
      split; [auto|]. by apply Hfr1.
    + intros [[Hi|Hi] Hl]; [|by apply not_elem_of_empty in Hi].
      apply elem_of_union_l. by apply Hfr1.
Qed.

(** Every operation of the detector allocates one tensor and releases
    none. *)
Lemma frames_lift_alloc {D} n (o : option D) :
  frames n (lift o ≫= alloc) (λ t, n ≤ tid t).
Proof.
  eapply frames_bind; [apply frames_lift|]. intros d _. apply frames_alloc.
Qed.

Lemma frames_binop {D1 D2 E} `{!Broadcast D1 D2 E} n f (a : Tensor D1)
    (b : Tensor D2) :
  frames n (tf_binop f a b) (λ t : Tensor E, n ≤ tid t).
Proof. apply frames_lift_alloc. Qed.

Lemma frames_slice `{!Slice D} n (x : Tensor D) begin size :
  frames n (tf_slice x begin size) (λ t, n ≤ tid t).
Proof. apply frames_lift_alloc. Qed.

Lemma frames_reshape2 `{!Flat D} n (x : Tensor D) shape :
  frames n (tf_reshape2 x shape) (λ t, n ≤ tid t).
Proof. apply frames_lift_alloc. Qed.

Lemma frames_reshape3 `{!Flat D} n (x : Tensor D) shape :
  frames n (tf_reshape3 x shape) (λ t, n ≤ tid t).
Proof. apply frames_lift_alloc. Qed.

Lemma frames_squeeze3 n x : frames n (tf_squeeze3 x) (λ t, n ≤ tid t).
Proof. apply frames_lift_alloc. Qed.

Lemma frames_squeeze2 n x : frames n (tf_squeeze2 x) (λ t, n ≤ tid t).
Proof. apply frames_lift_alloc. Qed.

Lemma frames_concat2d n tensors axis :
  frames n (tf_concat2d tensors axis) (λ t, n ≤ tid t).
Proof. apply frames_lift_alloc. Qed.

Lemma frames_predict n m x : frames n (model_predict m x) (λ t, n ≤ tid t).
Proof.
  unfold model_predict. destruct (predict m (tdata x));
    [apply frames_alloc|apply frames_throw].
Qed.

Lemma frames_resize n x size :
  frames n (tf_resizeBilinear x size) (λ t, n ≤ tid t).
Proof. apply frames_lift_alloc. Qed.

Local Ltac frame_step :=
  first
    [ apply frames_binop | apply frames_slice | apply frames_reshape2
    | apply frames_reshape3 | apply frames_squeeze3 | apply frames_squeeze2
    | apply frames_concat2d | apply frames_predict | apply frames_resize
    | apply frames_alloc ].

Local Ltac frame_steps :=
  repeat (eapply frames_bind; [frame_step|intros ? ?]).

Lemma frames_normalizeBoxes n this boxes :
  frames n (normalizeBoxes this boxes) (λ t, n ≤ tid t).
Proof. unfold normalizeBoxes. frame_steps. frame_step. Qed.

Lemma frames_decode_landmarks n this raw :
  frames n (_decode_landmarks this raw) (λ t, n ≤ tid t).
Proof. unfold _decode_landmarks. frame_steps. frame_step. Qed.

Lemma getBoundingBox_live this input h :
  heap_wf h →
  let r := _getBoundingBox this input h in
  heap_wf r.2 ∧ next h ≤ next r.2 ∧
  (∀ a, r.1 = Ok a → pair_or_nothing (next h) a) ∧
  live h ⊆ live r.2 ∧
  live r.2 ⊆ live h ∪ match r.1 with Ok a => tensors_in a | Throw _ => ∅ end.
Proof.
  intros Hwf. unfold _getBoundingBox.
  match goal with |- context [tidy ?b h] => set (body := b) end.
  assert (frames (next h) body (pair_or_nothing (next h))) as Hbody.
  { unfold body. frame_steps.
    eapply frames_bind; [apply frames_normalizeBoxes|intros ? ?].
    eapply frames_bind; [apply frames_alloc|intros sel ?].
    destruct (arraySync sel) as [|i ?].
    - apply frames_ret. by left.
    - frame_steps.
      eapply frames_bind; [apply frames_decode_landmarks|intros ? ?].
      frame_steps. apply frames_ret. right. eauto. }
  simpl.
  destruct (frames_tidy _ _ _ Hbody h Hwf (le_n _)) as (? & ? & _ & ?).
  destruct (tidy_live body _ h Hwf Hbody) as [? ?].
  split_and!; done.
Qed.

End Frames.

Section CallStore.
Context `{Number, !Runtime}.

Local Ltac frame_step :=
  first
    [ apply frames_binop | apply frames_slice | apply frames_reshape2
    | apply frames_reshape3 | apply frames_squeeze3 | apply frames_squeeze2
    | apply frames_concat2d | apply frames_predict | apply frames_resize
    | apply frames_alloc | apply frames_normalizeBoxes
    | apply frames_decode_landmarks ].

Local Ltac frame_steps :=
  repeat (eapply frames_bind; [frame_step|intros ? ?]).

Lemma frames_getBoundingBox n this input :
  frames n (_getBoundingBox this input) (pair_or_nothing n).
Proof.
  unfold _getBoundingBox. apply frames_tidy. frame_steps.
  match goal with |- context [arraySync ?sel] => destruct (arraySync sel) end.
  - apply frames_ret. by left.
  - frame_steps. apply frames_ret. right. eauto.
Qed.

(** A call leaves every tensor that existed before it as it was. *)
Lemma frames_getSingleBoundingBox n this input :
  frames n (getSingleBoundingBox this input) (λ _, True).
Proof.
  unfold getSingleBoundingBox.
  eapply frames_bind.
  { apply frames_tidy. frame_steps. frame_step. }
  intros image Himage.
  eapply frames_bind; [apply frames_getBoundingBox|].
  intros r [->|(b & l & -> & Hb & Hl)]; cbn [fst snd from_option].
  - by apply frames_ret.
  - eapply frames_bind;
      [apply (frames_ret _ _ (λ t : Tensor T2, n ≤ tid t)); exact Hl|].
    intros lt Hlt.
    destruct (arraySync b !! 0); cbn [from_option].
    + eapply frames_bind;
        [apply (frames_ret _ _ (λ _ : T1, True)); exact I|intros ? _].
      eapply frames_bind; [by apply frames_dispose|intros ? _].
      eapply frames_bind; [by apply frames_dispose|intros ? _].
      eapply frames_bind; [by apply frames_dispose|intros ? _].
      by apply frames_ret.
    + eapply (frames_bind _ _ _ (λ _, False)); [apply frames_throw|].
      intros ? [].
Qed.

(** The first scope of a call: the resized image divided by 255. *)
Lemma image_scope_run (this : HandDetector) (input : Tensor Image) resized h :
  resizeBilinear (tdata input) (width this) (height this) = Some resized →
  tidy (resized ← tf_resizeBilinear input (width this, height this);
        scale ← tf_scalar (of_Q 255);
        tf_div resized scale) h
  = (Ok {| tid := 2 + next h; tdata := normalise resized |},
     end_scope (next h) {[2 + next h]} (Nat.iter 3 extend h)).
Proof.
  intros Hr. etrans.
  { apply (tidy_run (A:=Tensor Image)).
    eapply bind_run; [by apply lift_alloc_run|].
    eapply bind_run; [reflexivity|].
    apply tf_binop_run. reflexivity. }
  reflexivity.
Qed.

Lemma image_scope_throw (this : HandDetector) (input : Tensor Image) h :
  resizeBilinear (tdata input) (width this) (height this) = None →
  tidy (resized ← tf_resizeBilinear input (width this, height this);
        scale ← tf_scalar (of_Q 255);
        tf_div resized scale) h
  = (Throw ShapeError, end_scope (next h) ∅ h).
Proof.
  intros Hr. unfold tidy, tf_resizeBilinear, mbind, TF_bind. simpl.
  by rewrite Hr.
Qed.

Lemma image_scope_live h :
  heap_wf h →
  live (end_scope (next h) {[2 + next h]} (Nat.iter 3 extend h))
  = live h ∪ {[2 + next h]}.
Proof.
  intros Hwf. apply set_eq. intros i.
  rewrite elem_of_end_scope, elem_of_union, !elem_of_singleton. simpl.
  rewrite !elem_of_union, !elem_of_singleton.
  split.
  - intros [[Hi| ->] Hl]; [|by right]. left.
    destruct Hl as [->|[->|[->|?]]]; [lia..|done].
  - intros [Hi| ->].
    + pose proof (Hwf i Hi) as Hlt. simpl in Hlt. split; [by left|]. tauto.
    + split; [by right|]. by left.
Qed.

Lemma image_scope_wf h :
  heap_wf h →
  heap_wf (end_scope (next h) {[2 + next h]} (Nat.iter 3 extend h)).
Proof.
  intros Hwf. apply heap_wf_end_scope. simpl.
  by do 3 apply heap_wf_extend.
Qed.

(** The no-detection return leaves the image tensor live. *)
Lemma null_return_live this input h h' :
  heap_wf h →
  getSingleBoundingBox this input h = (Ok None, h') →
  live h' = live h ∪ {[2 + next h]}.
Proof.
  intros Hwf. unfold getSingleBoundingBox.
  destruct (resizeBilinear (tdata input) (width this) (height this))
    as [resized|] eqn:Hres.
  2:{ erewrite bind_throw by (by apply image_scope_throw). done. }
  erewrite bind_run; [|by apply image_scope_run|reflexivity].
  set (image := {| tid := 2 + next h; tdata := normalise resized |}).
  set (h1 := end_scope _ _ _).
  assert (heap_wf h1) as Hwf1 by (by apply image_scope_wf).
  destruct (getBoundingBox_live this image h1 Hwf1)
    as (Hwf2 & Hn2 & Hshape & Hsub & Hsup).
  unfold mbind at 1, TF_bind at 1.
  destruct (_getBoundingBox this image h1) as [[r|e] h2]; [|done].
  cbn [fst snd] in Hshape, Hsub, Hsup.
  destruct (Hshape r eq_refl) as [->|(b & l & -> & Hb & Hl)]; simpl.
  - intros [= <-]. etrans; [|exact (image_scope_live h Hwf)]. fold h1.
    apply set_eq. intros i. split; [|by apply Hsub].
    intros Hi. apply Hsup in Hi.
    unfold tensors_in, tensors_pair, tensors_in, tensors_option in Hi.
    simpl in Hi. rewrite !elem_of_union in Hi.
    destruct Hi as [?|[Hi|Hi]]; [done|by apply not_elem_of_empty in Hi..].
  - unfold mbind, TF_bind, mret, TF_ret. simpl.
    destruct (arraySync b !! 0); simpl; done.
Qed.

(** A returned detection leaves nothing behind. *)
Lemma detection_return_live this input bb h h' :
  heap_wf h →
  getSingleBoundingBox this input h = (Ok (Some bb), h') →
  live h' = live h.
Proof.
  intros Hwf. unfold getSingleBoundingBox.
  destruct (resizeBilinear (tdata input) (width this) (height this))
    as [resized|] eqn:Hres.
  2:{ erewrite bind_throw by (by apply image_scope_throw). done. }
  erewrite bind_run; [|by apply image_scope_run|reflexivity].
  set (image := {| tid := 2 + next h; tdata := normalise resized |}).
  set (h1 := end_scope _ _ _).
  assert (heap_wf h1) as Hwf1 by (by apply image_scope_wf).
  assert (next h1 = 3 + next h) as Hn1 by done.
  destruct (getBoundingBox_live this image h1 Hwf1)
    as (Hwf2 & Hn2 & Hshape & Hsub & Hsup).
  unfold mbind at 1, TF_bind at 1.
  destruct (_getBoundingBox this image h1) as [[r|e] h2]; [|done].
  cbn [fst snd] in Hshape, Hsub, Hsup.
  destruct (Hshape r eq_refl) as [->|(b & l & -> & Hb & Hl)]; simpl; [done|].
  unfold mbind, TF_bind, mret, TF_ret. simpl.
  destruct (arraySync b !! 0); simpl; [|done].
  intros [= _ <-]. simpl.
  pose proof (image_scope_live h Hwf) as Hlive1. fold h1 in Hlive1.
  apply set_eq. intros i.
  rewrite !elem_of_difference, !elem_of_singleton. split.
  - intros (((Hi & Himg) & Hib) & Hil). apply Hsup in Hi.
    apply elem_of_union in Hi as [Hi|Hi].
    + rewrite Hlive1 in Hi.
      apply elem_of_union in Hi as [?|Hi%elem_of_singleton]; done.
    + change (i ∈ ({[tid b]} ∪ {[tid l]} : gset nat)) in Hi.
      apply elem_of_union in Hi as [Hi%elem_of_singleton|Hi%elem_of_singleton];
        done.
  - intros Hi. pose proof (Hwf i Hi) as Hlt. simpl in Hlt.
    split_and!; [|lia..]. apply Hsub. rewrite Hlive1.
    by apply elem_of_union_l.
Qed.

End CallStore.

Section Calls.
Context `{Number, !Runtime}.

(** What the constructor builds. *)
Lemma new_HandDetector_inv net w h ANCHORS iou score h0 this h1 :
  new_HandDetector net w h ANCHORS iou score h0 = (Ok this, h1) →
  ANCHORS ≠ [] ∧
  this = {| model := net; width := w; height := h;
            iouThreshold := iou; scoreThreshold := score;
            anchors := {| tid := next h0; tdata := anchor_row <$> ANCHORS |};
            inputSizeTensor := {| tid := 1 + next h0; tdata := [w; h] |};
            doubleInputSizeTensor :=
              {| tid := 2 + next h0;
                 tdata := [nmul w (of_Q 2); nmul h (of_Q 2)] |} |} ∧
  h1 = Nat.iter 3 extend h0.
Proof.
  unfold new_HandDetector, tf_tensor2d.
  destruct ANCHORS as [|a ANCHORS]; [done|].
  intros [= <- <-]. done.
Qed.

Lemma new_HandDetector_shapes net w h ANCHORS iou score h0 this h1 :
  new_HandDetector net w h ANCHORS iou score h0 = (Ok this, h1) →
  detector_shapes this.
Proof.
  intros (Hne & -> & _)%new_HandDetector_inv. split_and!; simpl; try done.
  - apply Forall_fmap, Forall_forall. done.
  - by destruct ANCHORS.
Qed.

(** A call on an image the network answers with a well-shaped
    prediction returns the detection at the first selected row, or
    nothing when no row is selected. *)
Lemma getSingleBoundingBox_run (this : HandDetector) (input : Tensor Image)
    (rows : T2) h :
  detector_shapes this →
  network_input this (tdata input) ≫= predict (model this) = Some [rows] →
  raw_prediction_ok this rows →
  ∃ h',
    getSingleBoundingBox this input h
    = (Ok (match selection this rows with
           | [] => None
           | i :: _ => detection_at this (tdata input) rows i
           end), h') ∧
    ∀ i sel, selection this rows = i :: sel →
      is_Some (detection_at this (tdata input) rows i).
Proof.
  intros Hshapes Hnet Hrows. unfold network_input in Hnet.
  destruct (resizeBilinear (tdata input) (width this) (height this))
    as [resized|] eqn:Hres; [|done].
  simpl in Hnet. unfold getSingleBoundingBox.
  set (image := {| tid := 2 + next h; tdata := normalise resized |}).
  set (h1 := end_scope (next h) {[2 + next h]} (Nat.iter 3 extend h)).
  pose proof (getBoundingBox_run this image rows h1 Hshapes Hnet Hrows) as Hrun.
  destruct (selection this rows) as [|i sel].
  - destruct Hrun as [h2 Hrun]. exists h2. split; [|done].
    eapply bind_run; [by apply image_scope_run|].
    eapply bind_run; [exact Hrun|]. reflexivity.
  - destruct Hrun as (b & m & h2 & Hb & Hm & Hrun).
    assert (is_Some (detection_at this (tdata input) rows i)) as [bb Hdet].
    { unfold detection_at. rewrite Hb, Hm. by eexists. }
    eexists. split; [|intros ? ? [= <- <-]; by eexists].
    rewrite Hdet. unfold detection_at in Hdet. rewrite Hb, Hm in Hdet.
    injection Hdet as <-.
    eapply bind_run; [by apply image_scope_run|].
    eapply bind_run; [exact Hrun|]. reflexivity.
Qed.

End Calls.

(** ** Results do not depend on the store *)

Section Similar.
Context `{Number, !Runtime}.

Lemma sim_ret {A} (R : A → A → Prop) a1 a2 :
  R a1 a2 → sim R (mret a1) (mret a2).
Proof. intros Ha h1 h2. done. Qed.

Lemma sim_throw {A} (R : A → A → Prop) e : sim R (throw e) (throw e).
Proof. intros h1 h2. done. Qed.

Lemma sim_bind {A B} (R : A → A → Prop) (S : B → B → Prop)
    (m1 m2 : TF A) (k1 k2 : A → TF B) :
  sim R m1 m2 → (∀ a1 a2, R a1 a2 → sim S (k1 a1) (k2 a2)) →
  sim S (m1 ≫= k1) (m2 ≫= k2).
Proof.
  intros Hm Hk h1 h2. specialize (Hm h1 h2). unfold mbind, TF_bind.
  destruct (m1 h1) as [[a1|e1] h1'], (m2 h2) as [[a2|e2] h2'];
    simpl in *; try done.
  by apply Hk.
Qed.

Lemma sim_tidy `{Tensors A} (R : A → A → Prop) (m1 m2 : TF A) :
  sim R m1 m2 → sim R (tidy m1) (tidy m2).
Proof.
  intros Hm h1 h2. specialize (Hm h1 h2). unfold tidy.
  by destruct (m1 h1) as [[a1|e1] h1'], (m2 h2) as [[a2|e2] h2'].
Qed.

Lemma sim_alloc {D} (d : D) : sim same_data (alloc d) (alloc d).
Proof. intros h1 h2. done. Qed.

Lemma sim_dispose {D} (t1 t2 : Tensor D) :
  sim (λ _ _, True) (dispose t1) (dispose t2).
Proof. intros h1 h2. done. Qed.

Lemma sim_lift_alloc {D} (o : option D) :
  sim same_data (lift o ≫= alloc) (lift o ≫= alloc).
Proof.
  apply (sim_bind eq); [|intros d ? <-; apply sim_alloc].
  destruct o; [by apply sim_ret|apply sim_throw].
Qed.

Lemma sim_binop {D1 D2 E} `{!Broadcast D1 D2 E} f
    (a1 a2 : Tensor D1) (b1 b2 : Tensor D2) :
  same_data a1 a2 → same_data b1 b2 →
  sim (same_data (D:=E)) (tf_binop f a1 b1) (tf_binop f a2 b2).
Proof.
  unfold same_data, tf_binop. intros -> ->. apply sim_lift_alloc.
Qed.

Lemma sim_slice `{!Slice D} (x1 x2 : Tensor D) begin size :
  same_data x1 x2 →
  sim same_data (tf_slice x1 begin size) (tf_slice x2 begin size).
Proof. unfold same_data, tf_slice. intros ->. apply sim_lift_alloc. Qed.

Lemma sim_reshape2 `{!Flat D} (x1 x2 : Tensor D) shape :
  same_data x1 x2 →
  sim same_data (tf_reshape2 x1 shape) (tf_reshape2 x2 shape).
Proof. unfold same_data, tf_reshape2. intros ->. apply sim_lift_alloc. Qed.

Lemma sim_reshape3 `{!Flat D} (x1 x2 : Tensor D) shape :
  same_data x1 x2 →
  sim same_data (tf_reshape3 x1 shape) (tf_reshape3 x2 shape).
Proof. unfold same_data, tf_reshape3. intros ->. apply sim_lift_alloc. Qed.

Lemma sim_squeeze3 (x1 x2 : Tensor T3) :
  same_data x1 x2 → sim same_data (tf_squeeze3 x1) (tf_squeeze3 x2).
Proof. unfold same_data, tf_squeeze3. intros ->. apply sim_lift_alloc. Qed.

Lemma sim_squeeze2 (x1 x2 : Tensor T2) :
  same_data x1 x2 → sim same_data (tf_squeeze2 x1) (tf_squeeze2 x2).
Proof. unfold same_data, tf_squeeze2. intros ->. apply sim_lift_alloc. Qed.

Lemma sim_sigmoid (x1 x2 : Tensor T2) :
  same_data x1 x2 → sim same_data (tf_sigmoid x1) (tf_sigmoid x2).
Proof. unfold same_data, tf_sigmoid. intros ->. apply sim_alloc. Qed.

Lemma sim_concat2d (a1 a2 b1 b2 : Tensor T2) axis :
  same_data a1 a2 → same_data b1 b2 →
  sim same_data (tf_concat2d [a1; b1] axis) (tf_concat2d [a2; b2] axis).
Proof.
  unfold same_data, tf_concat2d. intros Ha Hb. simpl. rewrite Ha, Hb.
  apply sim_lift_alloc.
Qed.

Lemma sim_predict m (x1 x2 : Tensor Image) :
  same_data x1 x2 → sim same_data (model_predict m x1) (model_predict m x2).
Proof.
  unfold same_data, model_predict. intros ->.
  destruct (predict m (tdata x2)); [apply sim_alloc|apply sim_throw].
Qed.

Lemma sim_resize (x1 x2 : Tensor Image) size :
  same_data x1 x2 →
  sim same_data (tf_resizeBilinear x1 size) (tf_resizeBilinear x2 size).
Proof. unfold same_data, tf_resizeBilinear. intros ->. apply sim_lift_alloc. Qed.

Lemma sim_nms (b1 b2 : Tensor T2) (s1 s2 : Tensor T1) k iou threshold :
  same_data b1 b2 → same_data s1 s2 →
  sim same_data (tf_image_nonMaxSuppression b1 s1 k iou threshold)
                (tf_image_nonMaxSuppression b2 s2 k iou threshold).
Proof.
  unfold same_data, tf_image_nonMaxSuppression. intros -> ->. apply sim_alloc.
Qed.

Local Ltac sim_op :=
  first
    [ apply sim_binop | apply sim_slice | apply sim_reshape2
    | apply sim_reshape3 | apply sim_squeeze3 | apply sim_squeeze2
    | apply sim_sigmoid | apply sim_concat2d | apply sim_predict
    | apply sim_resize | apply sim_nms | apply sim_alloc ];
  first [assumption | reflexivity].

Local Ltac sim_steps :=
  repeat (eapply sim_bind; [sim_op|intros ? ? ?]).

Lemma sim_normalizeBoxes this (b1 b2 : Tensor T2) :
  same_data b1 b2 →
  sim same_data (normalizeBoxes this b1) (normalizeBoxes this b2).
Proof. intros Hb. unfold normalizeBoxes. sim_steps. sim_op. Qed.

Lemma sim_decode_landmarks this (r1 r2 : Tensor T2) :
  same_data r1 r2 →
  sim same_data (_decode_landmarks this r1) (_decode_landmarks this r2).
Proof. intros Hr. unfold _decode_landmarks. sim_steps. sim_op. Qed.

Lemma sim_getBoundingBox this (x1 x2 : Tensor Image) :
  same_data x1 x2 →
  sim same_boxes (_getBoundingBox this x1) (_getBoundingBox this x2).
Proof.
  intros Hx. unfold _getBoundingBox. apply sim_tidy. sim_steps.
  eapply sim_bind; [by apply sim_normalizeBoxes|intros boxes1 boxes2 Hboxes].
  eapply sim_bind; [by apply sim_nms|intros sel1 sel2 Hsel].
  unfold arraySync. rewrite Hsel. destruct (tdata sel2) as [|i ?].
  - apply sim_ret. split; constructor.
  - sim_steps.
    eapply sim_bind; [by apply sim_decode_landmarks|intros ? ? ?].
    sim_steps. apply sim_ret. split; by constructor.
Qed.

(** Two calls on the same input return the same result, or throw the
    same error, whatever the store each starts from. *)
Lemma sim_getSingleBoundingBox this (input : Tensor Image) :
  sim eq (getSingleBoundingBox this input) (getSingleBoundingBox this input).
Proof.
  unfold getSingleBoundingBox.
  eapply sim_bind.
  { apply sim_tidy. sim_steps. sim_op. }
  intros image1 image2 Himage.
  eapply sim_bind; [by apply sim_getBoundingBox|].
  intros [b1 l1] [b2 l2] [Hb Hl]. simpl in *.
  destruct Hb as [b1 b2 Hb|]; [|by apply sim_ret].
  destruct Hl as [l1 l2 Hl|]; simpl.
  - eapply (sim_bind same_data); [by apply sim_ret|]. intros l1' l2' Hl'.
    unfold arraySync. rewrite Hb, Hl'.
    eapply (sim_bind eq).
    { destruct (tdata b2 !! 0); [by apply sim_ret|apply sim_throw]. }
    intros row ? <-.
    eapply sim_bind; [apply sim_dispose|intros ? ? _].
    eapply sim_bind; [apply sim_dispose|intros ? ? _].
    eapply sim_bind; [apply sim_dispose|intros ? ? _].
    by apply sim_ret.
  - eapply (sim_bind (λ _ _, False)); [apply sim_throw|]. intros ? ? [].
Qed.

End Similar.

(** ** Decoding boxes and landmarks *)

Section Decoding.
Context `{Number, !Runtime}.

(** The two decoding programs of [_getBoundingBox], run on their own. *)
Lemma boxes_program_run (this : HandDetector) (prediction : Tensor T2) hp :
  detector_shapes this →
  length (tdata prediction) = length (tdata (anchors this)) →
  Forall (λ raw, 5 ≤ length raw) (tdata prediction) →
  (rawBoxes ← tf_slice prediction [0; 1] [-1; 4]%Z;
   normalizeBoxes this rawBoxes) hp
  = (Ok {| tid := 10 + next hp; tdata := boxes_of this (tdata prediction) |},
     Nat.iter 11 extend hp).
Proof.
  intros (Hsize & Hdbl & Hanc & _) Hlen Hrows.
  eapply bind_run.
  { apply tf_slice_run, slice_columns; [lia|].
    eapply Forall_impl; [exact Hrows|]. intros r Hr. simpl in *. lia. }
  apply normalizeBoxes_run; simpl; try done.
  - by rewrite !length_fmap.
  - apply Forall_fmap. eapply Forall_impl; [exact Hrows|].
    intros r Hr. simpl in *. rewrite length_take, length_drop. lia.
Qed.

Lemma landmarks_program_run (this : HandDetector) (prediction : Tensor T2) hp :
  detector_shapes this →
  length (tdata prediction) = length (tdata (anchors this)) →
  Forall (λ raw, 19 ≤ length raw) (tdata prediction) →
  (raw_landmarks ← tf_slice prediction [0; 5] [-1; 14]%Z;
   _decode_landmarks this raw_landmarks) hp
  = (Ok {| tid := 5 + next hp;
           tdata := landmarks_of this (tdata prediction) |},
     Nat.iter 6 extend hp).
Proof.
  intros (Hsize & Hdbl & Hanc & _) Hlen Hrows.
  eapply bind_run.
  { apply tf_slice_run, slice_columns; [lia|].
    eapply Forall_impl; [exact Hrows|]. intros r Hr. simpl in *. lia. }
  apply decode_landmarks_run; simpl; try done.
  - by rewrite !length_fmap.
  - apply Forall_fmap. eapply Forall_impl; [exact Hrows|].
    intros r Hr. simpl in *. rewrite length_take, length_drop. lia.
Qed.

Lemma constructed_anchors net w h ANCHORS iou score h0 this h1 :
  new_HandDetector net w h ANCHORS iou score h0 = (Ok this, h1) →
  tdata (anchors this) = anchor_row <$> ANCHORS ∧
  tdata (inputSizeTensor this) = [w; h] ∧
  tdata (doubleInputSizeTensor this) = [nmul w (of_Q 2); nmul h (of_Q 2)] ∧
  width this = w ∧ height this = h ∧
  iouThreshold this = iou ∧ scoreThreshold this = score ∧ model this = net.
Proof. by intros (_ & -> & _)%new_HandDetector_inv. Qed.

(** C1.  For every raw prediction row, the box decoded by
    [normalizeBoxes] from columns 1 to 4 of the row and the anchor at the
    same index is: center = raw[1:3] / inputSize + anchor, half size =
    raw[3:5] / (2 * inputSize), start = (center - half) * inputSize and
    end = (center + half) * inputSize, with inputSize = (width, height). *)
Theorem normalizeBoxes_decodes_each_row
    net width height ANCHORS iou score h0 this h1
    (prediction : Tensor T2) hp :
  new_HandDetector net width height ANCHORS iou score h0 = (Ok this, h1) →
  length (tdata prediction) = length ANCHORS →
  Forall (λ raw, 5 ≤ length raw) (tdata prediction) →
  ∃ boxes hp',
    (rawBoxes ← tf_slice prediction [0; 1] [-1; 4]%Z;
     normalizeBoxes this rawBoxes) hp = (Ok boxes, hp') ∧
    length (tdata boxes) = length (tdata prediction) ∧
    ∀ i s bx by_ bw bh rest anchor,
      tdata prediction !! i = Some (s :: bx :: by_ :: bw :: bh :: rest) →
      ANCHORS !! i = Some anchor →
      let cx := (bx / width + x_center anchor)%num in
      let cy := (by_ / height + y_center anchor)%num in
      let hw := (bw / (width * of_Q 2))%num in
      let hh := (bh / (height * of_Q 2))%num in
      tdata boxes !! i
      = Some [ ((cx - hw) * width)%num; ((cy - hh) * height)%num;
               ((cx + hw) * width)%num; ((cy + hh) * height)%num ].
Proof.
  intros Hnew Hlen Hrows.
  pose proof (new_HandDetector_shapes _ _ _ _ _ _ _ _ _ Hnew) as Hshapes.
  destruct (constructed_anchors _ _ _ _ _ _ _ _ _ Hnew)
    as (Hanc & Hsize & Hdbl & _).
  eexists _, _. split_and!.
  - apply boxes_program_run; [done| |done]. by rewrite Hanc, length_fmap.
  - cbn [tdata]. unfold boxes_of.
    rewrite length_zip_with, !length_fmap, Hanc, length_fmap. lia.
  - intros i s bx by_ bw bh rest anchor Hi Ha. cbn [tdata]. unfold boxes_of.
    rewrite lookup_zip_with, !list_lookup_fmap, Hi, Hanc, list_lookup_fmap, Ha.
    rewrite Hsize, Hdbl. done.
Qed.

Lemma landmarks_row_lookup (size anchor raw : T1) (k : nat) (lx ly : num) :
  length raw = 14 → k < 7 →
  raw !! (2 * k) = Some lx → raw !! (2 * k + 1) = Some ly →
  landmarks_row size raw anchor !! k
  = Some (landmark_point size anchor [lx; ly]).
Proof.
  intros Hlen Hk Hx Hy.
  do 15 (destruct raw as [|? raw]; try done).
  do 7 (destruct k as [|k]; [by simplify_eq/=|]). lia.
Qed.

Lemma length_landmarks_row (size anchor raw : T1) :
  length raw = 14 → length (landmarks_row size raw anchor) = 7.
Proof.
  intros Hlen. unfold landmarks_row.
  by rewrite length_fmap, length_chunks, Hlen.
Qed.

(** C2.  For every raw prediction row, each of the 7 landmark points
    decoded by [_decode_landmarks] from columns 5 to 18 of the row is
    (raw_landmark / inputSize + anchor) * inputSize, with the anchor at the
    same row index. *)
Theorem decode_landmarks_decodes_each_point
    net width height ANCHORS iou score h0 this h1
    (prediction : Tensor T2) hp :
  new_HandDetector net width height ANCHORS iou score h0 = (Ok this, h1) →
  length (tdata prediction) = length ANCHORS →
  Forall (λ raw, 19 ≤ length raw) (tdata prediction) →
  ∃ landmarks hp',
    (raw_landmarks ← tf_slice prediction [0; 5] [-1; 14]%Z;
     _decode_landmarks this raw_landmarks) hp = (Ok landmarks, hp') ∧
    ∀ i raw anchor,
      tdata prediction !! i = Some raw →
      ANCHORS !! i = Some anchor →
      ∃ points,
        tdata landmarks !! i = Some points ∧ length points = 7 ∧
        ∀ k lx ly,
          k < 7 →
          raw !! (5 + 2 * k) = Some lx → raw !! (5 + 2 * k + 1) = Some ly →
          points !! k
          = Some [ ((lx / width + x_center anchor) * width)%num;
                   ((ly / height + y_center anchor) * height)%num ].
Proof.
  intros Hnew Hlen Hrows.
  pose proof (new_HandDetector_shapes _ _ _ _ _ _ _ _ _ Hnew) as Hshapes.
  destruct (constructed_anchors _ _ _ _ _ _ _ _ _ Hnew)
    as (Hanc & Hsize & Hdbl & _).
  eexists _, _. split.
  - apply landmarks_program_run; [done| |done]. by rewrite Hanc, length_fmap.
  - intros i raw anchor Hi Ha. cbn [tdata]. unfold landmarks_of.
    rewrite lookup_zip_with, !list_lookup_fmap, Hi, Hanc, list_lookup_fmap, Ha.
    rewrite Hsize. simpl.
    assert (length (take 14 (drop 5 raw)) = 14) as Hlen14.
    { rewrite Forall_lookup in Hrows. specialize (Hrows _ _ Hi). simpl in Hrows.
      rewrite length_take, length_drop. lia. }
    eexists. split; [done|]. split; [by apply length_landmarks_row|].
    intros k lx ly Hk Hx Hy.
    rewrite (landmarks_row_lookup _ _ _ k lx ly); [done|done|done|..].
    + rewrite lookup_take_lt by lia. rewrite lookup_drop, <-Hx. f_equal.
    + rewrite lookup_take_lt by lia. rewrite lookup_drop, <-Hy. f_equal.
Qed.

(** C3.  For every anchor and every row whose 4 box values and 14
    landmark values are zero, the decoded box starts and ends at
    anchor * inputSize and each of the 7 decoded landmark points is
    anchor * inputSize.  The input size must not be zero: zero divided by
    zero is not zero. *)
Theorem zero_offsets_decode_to_anchor `{!ZeroLaws}
    net width height ANCHORS iou score h0 this h1
    (prediction : Tensor T2) hp hq :
  new_HandDetector net width height ANCHORS iou score h0 = (Ok this, h1) →
  width ≠ zero → height ≠ zero →
  length (tdata prediction) = length ANCHORS →
  Forall (λ raw, 19 ≤ length raw) (tdata prediction) →
  ∃ boxes landmarks hp' hq',
    (rawBoxes ← tf_slice prediction [0; 1] [-1; 4]%Z;
     normalizeBoxes this rawBoxes) hp = (Ok boxes, hp') ∧
    (raw_landmarks ← tf_slice prediction [0; 5] [-1; 14]%Z;
     _decode_landmarks this raw_landmarks) hq = (Ok landmarks, hq') ∧
    ∀ i s anchor,
      tdata prediction !! i = Some (s :: replicate 18 zero) →
      ANCHORS !! i = Some anchor →
      let at_anchor := [ (x_center anchor * width)%num;
                         (y_center anchor * height)%num ] in
      tdata boxes !! i = Some (at_anchor ++ at_anchor) ∧
      tdata landmarks !! i = Some (replicate 7 at_anchor).
Proof.
  intros Hnew Hw Hh Hlen Hrows.
  pose proof (new_HandDetector_shapes _ _ _ _ _ _ _ _ _ Hnew) as Hshapes.
  destruct (constructed_anchors _ _ _ _ _ _ _ _ _ Hnew)
    as (Hanc & Hsize & Hdbl & _).
  eexists _, _, _, _. split_and!.
  - apply boxes_program_run; [done|by rewrite Hanc, length_fmap|].
    eapply Forall_impl; [exact Hrows|]. intros r Hr. simpl in *. lia.
  - apply landmarks_program_run; [done|by rewrite Hanc, length_fmap|done].
  - intros i s anchor Hi Ha. cbn [tdata]. unfold boxes_of, landmarks_of.
    rewrite !lookup_zip_with, !list_lookup_fmap, Hi, Hanc, list_lookup_fmap, Ha.
    rewrite Hsize, Hdbl. simpl.
    unfold box_row, landmarks_row, landmark_point, anchor_row, chunks.
    cbn -[zero].
    rewrite !(zero_div width), !(zero_div height) by done.
    rewrite !(zero_div _ (double_nonzero _ Hw)).
    rewrite !(zero_div _ (double_nonzero _ Hh)).
    rewrite !add_zero_l, !sub_zero_r, !add_zero_r. done.
Qed.

End Decoding.

(** ** Selection, absence and rescaling *)

Section Selection.
Context `{Number, !Runtime}.

Lemma scores_of_fmap (rows : T2) :
  Forall (λ r, 1 ≤ length r) rows →
  scores_of rows = (λ r, from_option sigmoid zero (head r)) <$> rows.
Proof.
  unfold scores_of. induction 1 as [|r rows Hr _ IH]; [done|].
  destruct r as [|s r]; [simpl in Hr; lia|].
  rewrite !fmap_cons. cbn [concat]. by rewrite IH.
Qed.

Lemma selection_passes this rows i :
  Forall (λ r, 1 ≤ length r) rows →
  i ∈ selection this rows →
  ∃ s rest, rows !! i = Some (s :: rest) ∧
            nlt (sigmoid s) (scoreThreshold this) = false.
Proof.
  intros Hall (sc & Hsc & Hpass)%elem_of_nonMaxSuppression.
  rewrite scores_of_fmap, list_lookup_fmap in Hsc by done.
  destruct (rows !! i) as [r|] eqn:Hr; [|done].
  rewrite Forall_lookup in Hall. specialize (Hall _ _ Hr).
  destruct r as [|s rest]; [simpl in Hall; lia|].
  simplify_eq/=. eauto.
Qed.

Lemma raw_prediction_rows this rows n :
  raw_prediction_ok this rows → n ≤ 19 → Forall (λ r : T1, n ≤ length r) rows.
Proof.
  intros (_ & _ & Hrows) Hn. eapply Forall_impl; [exact Hrows|].
  intros r Hr. simpl in *. lia.
Qed.

(** What a call returned, read back from the run lemma. *)
Lemma returned_detection this input rows h bb h' :
  detector_shapes this →
  network_input this (tdata input) ≫= predict (model this) = Some [rows] →
  raw_prediction_ok this rows →
  getSingleBoundingBox this input h = (Ok (Some bb), h') →
  ∃ i, head (selection this rows) = Some i ∧
       detection_at this (tdata input) rows i = Some bb.
Proof.
  intros Hshapes Hnet Hok Hret.
  destruct (getSingleBoundingBox_run this input rows h Hshapes Hnet Hok)
    as (h'' & Hrun & _).
  rewrite Hrun in Hret. destruct (selection this rows) as [|i sel]; [done|].
  exists i. split; [done|]. congruence.
Qed.

(** C4.  [_getBoundingBox] runs suppression over all decoded boxes with
    the detector's IoU and score thresholds and asks for at most one box
    ([selection]).  When exactly two rows have a confidence above the
    score threshold, only the higher-scoring one survives, both when the
    IoU of their decoded boxes is above the IoU threshold and when it is
    below: suppression keeps that row alone and the call returns the
    detection decoded from it.  The IoU threshold is taken between 0 and
    1, as the construction interface says; the library refuses others. *)
Theorem suppression_keeps_higher_score `{!OrderLaws}
    net width height ANCHORS iou score h0 this h1
    (input : Tensor Image) (rows : T2) h
    (hi lo : nat) (s_hi s_lo : num) (rest_hi rest_lo : T1) :
  new_HandDetector net width height ANCHORS iou score h0 = (Ok this, h1) →
  nlt iou zero = false → nlt (of_Q 1) iou = false →
  network_input this (tdata input) ≫= predict net = Some [rows] →
  raw_prediction_ok this rows →
  rows !! hi = Some (s_hi :: rest_hi) → rows !! lo = Some (s_lo :: rest_lo) →
  hi ≠ lo →
  nlt score (sigmoid s_hi) = true → nlt score (sigmoid s_lo) = true →
  (∀ j s rest, rows !! j = Some (s :: rest) → j ≠ hi → j ≠ lo →
     nlt (sigmoid s) score = true) →
  nlt (sigmoid s_lo) (sigmoid s_hi) = true →
  let overlap := intersectionOverUnion (box_at (boxes_of this rows) hi)
                                       (box_at (boxes_of this rows) lo) in
  let survives :=
    nonMaxSuppression (boxes_of this rows) (scores_of rows) 1 iou score = [hi] ∧
    ∃ bb h',
      getSingleBoundingBox this input h = (Ok (Some bb), h') ∧
      detection_at this (tdata input) rows hi = Some bb in
  (nlt iou overlap = true → survives) ∧
  (nlt overlap iou = true → survives).
Proof.
  intros Hnew _ _ Hnet Hok Hhi Hlo Hne Hpass_hi Hpass_lo Hrest Hlt
    overlap survives.
  pose proof (new_HandDetector_shapes _ _ _ _ _ _ _ _ _ Hnew) as Hshapes.
  destruct (constructed_anchors _ _ _ _ _ _ _ _ _ Hnew)
    as (_ & _ & _ & _ & _ & Hiou & Hscore & Hmodel).
  rewrite <-Hmodel in Hnet.
  assert (Forall (λ r : T1, 1 ≤ length r) rows) as Hwide.
  { apply (raw_prediction_rows this); [done|lia]. }
  assert (selection this rows = [hi]) as Hsel.
  { unfold selection. rewrite Hscore.
    apply (nonMaxSuppression_best _ _ _ _ hi (sigmoid s_hi)).
    - rewrite scores_of_fmap, list_lookup_fmap, Hhi by done. done.
    - by apply nlt_asym.
    - intros j s'. rewrite scores_of_fmap, list_lookup_fmap by done.
      destruct (rows !! j) as [r|] eqn:Hj; [|done].
      rewrite Forall_lookup in Hwide. specialize (Hwide _ _ Hj).
      destruct r as [|s rest]; [simpl in Hwide; lia|].
      simpl. intros [= <-] Hs.
      destruct (decide (j = hi)) as [->|Hjhi]; [by left|]. right.
      destruct (decide (j = lo)) as [->|Hjlo].
      + rewrite Hlo in Hj. by injection Hj as <- <-.
      + rewrite (Hrest j s rest Hj Hjhi Hjlo) in Hs. done. }
  assert survives as Hsurvives.
  { unfold survives. split.
    - unfold selection in Hsel. by rewrite Hiou, Hscore in Hsel.
    - destruct (getSingleBoundingBox_run this input rows h Hshapes Hnet Hok)
        as (h' & Hrun & Hsome).
      rewrite Hsel in Hrun. destruct (Hsome hi [] Hsel) as [bb Hbb].
      exists bb, h'. split; [|done]. by rewrite <-Hbb. }
  done.
Qed.

(** C5.  A row whose confidence sigmoid(raw[0]) is below the score
    threshold is never the detection: a returned detection is the one at
    a row whose confidence is not below the threshold. *)
Theorem selected_row_passes_score_threshold
    net width height ANCHORS iou score h0 this h1
    (input : Tensor Image) (rows : T2) h bb h' :
  new_HandDetector net width height ANCHORS iou score h0 = (Ok this, h1) →
  network_input this (tdata input) ≫= predict net = Some [rows] →
  raw_prediction_ok this rows →
  getSingleBoundingBox this input h = (Ok (Some bb), h') →
  ∃ i s rest,
    rows !! i = Some (s :: rest) ∧
    nlt (sigmoid s) score = false ∧
    detection_at this (tdata input) rows i = Some bb.
Proof.
  intros Hnew Hnet Hok Hret.
  pose proof (new_HandDetector_shapes _ _ _ _ _ _ _ _ _ Hnew) as Hshapes.
  destruct (constructed_anchors _ _ _ _ _ _ _ _ _ Hnew)
    as (_ & _ & _ & _ & _ & _ & Hscore & Hmodel).
  rewrite <-Hmodel in Hnet.
  destruct (returned_detection _ _ _ _ _ _ Hshapes Hnet Hok Hret)
    as (i & Hhead & Hdet).
  destruct (selection_passes this rows i) as (s & rest & Hrow & Hpass).
  { apply (raw_prediction_rows this); [done|lia]. }
  { destruct (selection this rows); simplify_eq/=. left. }
  exists i, s, rest. by rewrite <-Hscore.
Qed.

(** With more than one anchor and an answer of the expected shape: when
    suppression keeps no candidate, and in particular when every row's
    confidence is below the score threshold, the call returns the absent
    result. *)
Lemma no_candidate_returns_null
    net width height ANCHORS iou score h0 this h1
    (input : Tensor Image) (rows : T2) h :
  new_HandDetector net width height ANCHORS iou score h0 = (Ok this, h1) →
  network_input this (tdata input) ≫= predict net = Some [rows] →
  raw_prediction_ok this rows →
  (selection this rows = [] →
   ∃ h', getSingleBoundingBox this input h = (Ok None, h')) ∧
  (Forall (λ raw, ∀ s, head raw = Some s → nlt (sigmoid s) score = true) rows →
   selection this rows = []).
Proof.
  intros Hnew Hnet Hok.
  pose proof (new_HandDetector_shapes _ _ _ _ _ _ _ _ _ Hnew) as Hshapes.
  destruct (constructed_anchors _ _ _ _ _ _ _ _ _ Hnew)
    as (_ & _ & _ & _ & _ & _ & Hscore & Hmodel).
  rewrite <-Hmodel in Hnet. split.
  - intros Hsel.
    destruct (getSingleBoundingBox_run this input rows h Hshapes Hnet Hok)
      as (h' & Hrun & _).
    rewrite Hsel in Hrun. by exists h'.
  - intros Hbelow. unfold selection. apply nonMaxSuppression_none.
    rewrite scores_of_fmap by (apply (raw_prediction_rows this); [done|lia]).
    apply Forall_fmap. rewrite Hscore.
    pose proof (raw_prediction_rows this rows 1 Hok) as Hwide.
    rewrite Forall_forall in Hbelow, Hwide. apply Forall_forall.
    intros [|s rest] Hin; [specialize (Hwide ltac:(lia) _ Hin); simpl in *; lia|].
    simpl. by apply (Hbelow _ Hin).
Qed.

(** C7.  The coordinates of a returned detection are those of the
    selected candidate at input resolution, multiplied by
    (originalWidth / width) on x and (originalHeight / height) on y; on
    rationals, factors (2, 2) take a box from (10,10),(20,20) to
    (20,20),(40,40). *)
Theorem detection_is_rescaled
    net width height ANCHORS iou score h0 this h1
    (input : Tensor Image) (rows : T2) h bb h' :
  new_HandDetector net width height ANCHORS iou score h0 = (Ok this, h1) →
  network_input this (tdata input) ≫= predict net = Some [rows] →
  raw_prediction_ok this rows →
  getSingleBoundingBox this input h = (Ok (Some bb), h') →
  (∃ i box points,
     head (selection this rows) = Some i ∧
     boxes_of this rows !! i = Some box ∧
     landmarks_of this rows !! i = Some points ∧
     let fx := (of_nat (ishape (tdata input) !!! 2) / width)%num in
     let fy := (of_nat (ishape (tdata input) !!! 1) / height)%num in
     startPoint bb = zip_with nmul (take 2 box) [fx; fy] ∧
     endPoint bb = zip_with nmul (take 2 (drop 2 box)) [fx; fy] ∧
     landmarks bb = (λ point, zip_with nmul point [fx; fy]) <$> points) ∧
  scaleBoxCoordinates example_box (Q2Qc 2, Q2Qc 2) = example_box_rescaled.
Proof.
  intros Hnew Hnet Hok Hret.
  pose proof (new_HandDetector_shapes _ _ _ _ _ _ _ _ _ Hnew) as Hshapes.
  destruct (constructed_anchors _ _ _ _ _ _ _ _ _ Hnew)
    as (_ & _ & _ & Hw & Hh & _ & _ & Hmodel).
  rewrite <-Hmodel in Hnet. split.
  - destruct (returned_detection _ _ _ _ _ _ Hshapes Hnet Hok Hret)
      as (i & Hhead & Hdet).
    unfold detection_at in Hdet.
    destruct (boxes_of this rows !! i) as [box|] eqn:Hbox; [|done].
    destruct (landmarks_of this rows !! i) as [points|] eqn:Hpoints; [|done].
    injection Hdet as <-. exists i, box, points.
    unfold factors_of. rewrite Hw, Hh. done.
  - reflexivity.
Qed.

(** C9.  The box and the 7 landmark points of a returned detection are
    read at one and the same row index, the first index suppression
    keeps: both are decoded from that row and the anchor at that index. *)
Theorem box_and_landmarks_share_row
    net width height ANCHORS iou score h0 this h1
    (input : Tensor Image) (rows : T2) h bb h' :
  new_HandDetector net width height ANCHORS iou score h0 = (Ok this, h1) →
  network_input this (tdata input) ≫= predict net = Some [rows] →
  raw_prediction_ok this rows →
  getSingleBoundingBox this input h = (Ok (Some bb), h') →
  ∃ i raw anchor,
    head (selection this rows) = Some i ∧
    rows !! i = Some raw ∧ ANCHORS !! i = Some anchor ∧
    let inputSize := [width; height] in
    let doubleInputSize := [(width * of_Q 2)%num; (height * of_Q 2)%num] in
    let box := box_row inputSize doubleInputSize (take 4 (drop 1 raw))
                       (anchor_row anchor) in
    let points := landmarks_row inputSize (take 14 (drop 5 raw))
                                (anchor_row anchor) in
    bb = scaleBoxCoordinates
           {| startPoint := js_slice box 0 2; endPoint := js_slice box 2 4;
              landmarks := points |}
           (factors_of this (tdata input)).
Proof.
  intros Hnew Hnet Hok Hret.
  pose proof (new_HandDetector_shapes _ _ _ _ _ _ _ _ _ Hnew) as Hshapes.
  destruct (constructed_anchors _ _ _ _ _ _ _ _ _ Hnew)
    as (Hanc & Hsize & Hdbl & _ & _ & _ & _ & Hmodel).
  rewrite <-Hmodel in Hnet.
  destruct (returned_detection _ _ _ _ _ _ Hshapes Hnet Hok Hret)
    as (i & Hhead & Hdet).
  unfold detection_at, boxes_of, landmarks_of in Hdet.
  rewrite !lookup_zip_with, !list_lookup_fmap, Hanc, list_lookup_fmap in Hdet.
  destruct (rows !! i) as [raw|] eqn:Hraw; [|done].
  destruct (ANCHORS !! i) as [anchor|] eqn:Hanchor; [|done].
  simpl in Hdet. rewrite Hsize, Hdbl in Hdet. injection Hdet as <-.
  by exists i, raw, anchor.
Qed.

End Selection.

(** ** Calls are independent *)

Section Refinement.
Context `{Number, !Runtime}.

Lemma refines_op {A} this (m : TF A) : refines this (op m) m.
Proof. intros h. reflexivity. Qed.

Lemma refines_ret {A} this (a : A) : refines this (mret a) (mret a).
Proof. intros h. reflexivity. Qed.

Lemma refines_bind {A B} this (M : Method A) (K : A → Method B)
    (m : TF A) (k : A → TF B) :
  refines this M m → (∀ a, refines this (K a) (k a)) →
  refines this (M ≫= K) (m ≫= k).
Proof.
  intros HM HK h. unfold mbind, Method_bind, TF_bind. rewrite (HM h).
  destruct (m h) as [[a|e] h1]; cbn [fst snd]; [|done]. apply HK.
Qed.

(** Reading a field gives the value the object had before the call. *)
Lemma refines_field {X B} this (f : HandDetector → X) (K : X → Method B)
    (m : TF B) :
  refines this (K (f this)) m → refines this (field f ≫= K) m.
Proof. intros HK h. exact (HK h). Qed.

Lemma refines_scoped `{Tensors A} this (M : Method A) (m : TF A) :
  refines this M m → refines this (scoped M) (tidy m).
Proof.
  intros HM h. unfold scoped, tidy. rewrite (HM h).
  by destruct (m h) as [[a|e] h1].
Qed.

Local Ltac refine_steps :=
  repeat first
    [ apply refines_op
    | apply refines_ret
    | apply refines_field; cbv beta
    | apply refines_bind; [|intros ?] ].

Lemma refines_normalizeBoxes this boxes :
  refines this (Object.normalizeBoxes boxes) (normalizeBoxes this boxes).
Proof. unfold Object.normalizeBoxes, normalizeBoxes. refine_steps. Qed.

Lemma refines_decode_landmarks this raw :
  refines this (Object._decode_landmarks raw) (_decode_landmarks this raw).
Proof. unfold Object._decode_landmarks, _decode_landmarks. refine_steps. Qed.

Lemma refines_getBoundingBox this input :
  refines this (Object._getBoundingBox input) (_getBoundingBox this input).
Proof.
  unfold Object._getBoundingBox, _getBoundingBox. apply refines_scoped.
  do 4 (apply refines_bind; [apply refines_op|intros ?]).
  apply refines_field; cbv beta.
  do 6 (apply refines_bind; [apply refines_op|intros ?]).
  apply refines_bind; [apply refines_normalizeBoxes|intros boxes].
  do 2 (apply refines_field; cbv beta).
  apply refines_bind; [apply refines_op|intros suppressed].
  cbv zeta. destruct (arraySync suppressed) as [|box_index ?].
  - apply refines_ret.
  - do 2 (apply refines_bind; [apply refines_op|intros ?]).
    apply refines_bind; [apply refines_decode_landmarks|intros ?].
    refine_steps.
Qed.

(** The method on the object does what the function of the detector
    does, and leaves the object as it was, on every path. *)
Lemma refines_getSingleBoundingBox this input :
  refines this (Object.getSingleBoundingBox input)
          (getSingleBoundingBox this input).
Proof.
  unfold Object.getSingleBoundingBox, getSingleBoundingBox. cbv zeta.
  apply refines_bind.
  { apply refines_scoped. refine_steps. }
  intros image.
  apply refines_bind; [apply refines_getBoundingBox|intros [[b|] l]];
    cbn [fst snd]; [|apply refines_ret].
  apply refines_bind; [apply refines_op|intros landmarks_tensor].
  do 2 (apply refines_field; cbv beta).
  refine_steps.
Qed.

End Refinement.

Section Lifetime.
Context `{Number, !Runtime}.

(** The object is part of the state: a method that assigned a field
    before the call would be seen in the object it leaves. *)
Example assigned_field_is_seen this iou (input : Tensor Image) h :
  ((assign (λ o, with_iouThreshold o iou);;
    Object.getSingleBoundingBox input) this h).2.1
  = with_iouThreshold this iou.
Proof.
  unfold mbind, Method_bind, assign. cbn [fst snd].
  rewrite (refines_getSingleBoundingBox (with_iouThreshold this iou) input h).
  done.
Qed.

(** C10.  A call does not touch the detector.  Run as a method on the
    detector object, whose fields it could assign, a call leaves the
    object as it found it: width, height, both thresholds, the network
    and the three tensor fields with their values are after the call what
    they were before, also when the call throws.  Every tensor that
    existed before the call (the anchor tensor and the two size tensors
    among them) is live after it exactly when it was live before.  So a
    second call on the same input, on the object and the store the first
    call left, returns what the first returned, and so does a call from
    any other store. *)
Theorem call_is_stateless (this : HandDetector) (input : Tensor Image) h :
  heap_wf h →
  let first := Object.getSingleBoundingBox input this h in
  let second := Object.getSingleBoundingBox input first.2.1 first.2.2 in
  first.2.1 = this ∧
  (width first.2.1 = width this ∧ height first.2.1 = height this ∧
   iouThreshold first.2.1 = iouThreshold this ∧
   scoreThreshold first.2.1 = scoreThreshold this ∧
   anchors first.2.1 = anchors this) ∧
  (∀ i, i < next h → i ∈ live first.2.2 ↔ i ∈ live h) ∧
  (∀ t, t ∈ [tid (anchors this); tid (inputSizeTensor this);
             tid (doubleInputSizeTensor this)] →
        t ∈ live h → t ∈ live first.2.2) ∧
  second.1 = first.1 ∧ second.2.1 = this ∧
  ∀ h2, (Object.getSingleBoundingBox input this h2).1 = first.1.
Proof.
  intros Hwf.
  assert (∀ h1 h2, (getSingleBoundingBox this input h1).1
                   = (getSingleBoundingBox this input h2).1) as Hsame.
  { intros h1 h2. pose proof (sim_getSingleBoundingBox this input h1 h2) as Hsim.
    destruct ((getSingleBoundingBox this input h1).1),
             ((getSingleBoundingBox this input h2).1); try done; by subst. }
  intros first second.
  assert (∀ h', Object.getSingleBoundingBox input this h'
                = ((getSingleBoundingBox this input h').1,
                   (this, (getSingleBoundingBox this input h').2))) as Href.
  { exact (refines_getSingleBoundingBox this input). }
  assert (first.2.1 = this) as Hthis by (unfold first; by rewrite Href).
  assert (first.2.2 = (getSingleBoundingBox this input h).2) as Hstore
    by (unfold first; by rewrite Href).
  assert (first.1 = (getSingleBoundingBox this input h).1) as Hres
    by (unfold first; by rewrite Href).
  destruct (frames_getSingleBoundingBox (next h) this input h Hwf (le_n _))
    as (_ & _ & Hframe & _).
  split; [exact Hthis|]. split; [by rewrite Hthis|]. split_and!.
  - intros i Hi. rewrite Hstore. by apply Hframe.
  - intros t _ Ht. rewrite Hstore. apply Hframe; [|done]. exact (Hwf t Ht).
  - unfold second. rewrite Hthis, Href, Hres. apply Hsame.
  - unfold second. by rewrite Hthis, Href.
  - intros h2. rewrite Href, Hres. apply Hsame.
Qed.

End Lifetime.

(** ** Laws of the rational instance *)

Lemma Qc_zero_laws : ZeroLaws (H:=Qc_number).
Proof.
  split; unfold zero; simpl.
  - intros a. ring.
  - intros a. ring.
  - intros a. ring.
  - intros x _. unfold Qcdiv. ring.
  - intros x Hx Hm. apply Qcmult_integral in Hm as [?|?]; done.
Qed.

Lemma Qc_ltb_asym (a b : Qc) : Qc_ltb a b = true → Qc_ltb b a = false.
Proof.
  unfold Qc_ltb. rewrite <-(Qcompare_antisym (this a) (this b)).
  by destruct (this a ?= this b)%Q.
Qed.

Lemma Qc_order_laws : OrderLaws (H:=Qc_number).
Proof. split. exact Qc_ltb_asym. Qed.

Global Existing Instance Qc_zero_laws.
Global Existing Instance Qc_order_laws.

Lemma demo_heap_wf : heap_wf demo_heap.
Proof. unfold demo_heap. simpl. by do 4 apply heap_wf_extend. Qed.

(** ** Tensor lifetime, and the theorems at the small detector *)

(** C8.  Not every intermediate tensor is released on the no-detection
    path: with every score below the threshold the call returns the absent
    result and the resized, normalised image (tensor 6 here) is still live
    afterwards, although it was not live before.  On the detection path
    the store is left as it was ([detection_return_live]). *)
Theorem null_return_leaks_image :
  let call := getSingleBoundingBox (demo_detector quiet_rows) demo_image
                                   demo_heap in
  call.1 = Ok None ∧
  live call.2 = live demo_heap ∪ {[6]} ∧
  6 ∉ live demo_heap.
Proof.
  intros call. split; [reflexivity|]. split.
  - apply (null_return_live (demo_detector quiet_rows) demo_image demo_heap).
    + exact demo_heap_wf.
    + unfold call. reflexivity.
  - intros Hi. pose proof (demo_heap_wf _ Hi) as Hlt. simpl in Hlt. lia.
Qed.

(** C6.  Not every call without a candidate returns the absent result.
    A detector built with a single anchor gets the network's answer as
    [1, 1, 19]; [squeeze()], meant to drop the batch axis (the comment at
    lines 86 to 88), drops the anchor axis as well, and the call throws a
    shape error although the only confidence is below the score threshold
    and suppression keeps nothing.  With more than one anchor the call
    returns the absent result ([no_candidate_returns_null]). *)
Theorem single_anchor_without_candidate_throws :
  let built := new_HandDetector (mock_model [demo_row (-5)]) (Q2Qc 10)
                 (Q2Qc 10) (take 1 demo_anchors) (Q2Qc 0.3) (Q2Qc 0.5)
                 empty_heap in
  ∃ this,
    built.1 = Ok this ∧
    Forall (λ raw, ∀ s, head raw = Some s →
                        nlt (sigmoid s) (scoreThreshold this) = true)
           [demo_row (-5)] ∧
    selection this [demo_row (-5)] = [] ∧
    (getSingleBoundingBox this demo_image demo_heap).1 = Throw ShapeError.
Proof.
  intros built. eexists. split; [reflexivity|]. split_and!.
  - repeat constructor. intros s [= <-]. reflexivity.
  - reflexivity.
  - reflexivity.
Qed.

(** The constructor builds the small detector. *)
Example demo_constructed (rows : list (list Qc)) :
  new_HandDetector (mock_model rows) (Q2Qc 10) (Q2Qc 10) demo_anchors
                   (Q2Qc 0.3) (Q2Qc 0.5) empty_heap
  = (Ok (demo_detector rows), Nat.iter 3 extend empty_heap).
Proof. reflexivity. Qed.

(** The small detector finds the middle anchor: suppression keeps row 1,
    and a second call returns the same detection. *)
Example demo_selection :
  selection (demo_detector demo_rows) demo_rows = [1].
Proof. reflexivity. Qed.

Example demo_call_detects : demo_call.1 = Ok (Some demo_detection).
Proof. reflexivity. Qed.

(** With a single anchor the network answers [1, 1, 19]; [squeeze] then
    drops the anchor axis along with the batch and the call throws. *)
Example single_anchor_throws :
  ((this ← new_HandDetector (mock_model [demo_row 3]) (Q2Qc 10) (Q2Qc 10)
             (take 1 demo_anchors) (Q2Qc 0.3) (Q2Qc 0.5);
    getSingleBoundingBox this demo_image) empty_heap).1
  = Throw ShapeError.
Proof. reflexivity. Qed.

Lemma normalizeBoxes_decodes_each_row_witness :
  ∃ boxes hp',
    (rawBoxes ← tf_slice (demo_prediction demo_rows) [0; 1] [-1; 4]%Z;
     normalizeBoxes (demo_detector demo_rows) rawBoxes) demo_heap
    = (Ok boxes, hp') ∧
    length (tdata boxes) = 3.
Proof.
  destruct (normalizeBoxes_decodes_each_row
              (mock_model demo_rows) (Q2Qc 10) (Q2Qc 10) demo_anchors
              (Q2Qc 0.3) (Q2Qc 0.5) empty_heap (demo_detector demo_rows)
              (Nat.iter 3 extend empty_heap) (demo_prediction demo_rows)
              demo_heap)
    as (boxes & hp' & Hrun & Hlen & _).
  - reflexivity.
  - reflexivity.
  - repeat constructor; simpl; lia.
  - exists boxes, hp'. split; [exact Hrun|exact Hlen].
Defined.

Lemma decode_landmarks_decodes_each_point_witness :
  ∃ landmarks hp',
    (raw_landmarks ← tf_slice (demo_prediction demo_rows) [0; 5] [-1; 14]%Z;
     _decode_landmarks (demo_detector demo_rows) raw_landmarks) demo_heap
    = (Ok landmarks, hp').
Proof.
  destruct (decode_landmarks_decodes_each_point
              (mock_model demo_rows) (Q2Qc 10) (Q2Qc 10) demo_anchors
              (Q2Qc 0.3) (Q2Qc 0.5) empty_heap (demo_detector demo_rows)
              (Nat.iter 3 extend empty_heap) (demo_prediction demo_rows)
              demo_heap)
    as (landmarks & hp' & Hrun & _).
  - reflexivity.
  - reflexivity.
  - repeat constructor; simpl; lia.
  - exists landmarks, hp'. exact Hrun.
Defined.

Lemma zero_offsets_decode_to_anchor_witness :
  ∃ (boxes : Tensor (list (list Qc))) (landmarks : Tensor (list (list (list Qc)))),
    tdata boxes !! 1
    = Some [ (Q2Qc 0.5 * Q2Qc 10)%Qc; (Q2Qc 0.5 * Q2Qc 10)%Qc;
             (Q2Qc 0.5 * Q2Qc 10)%Qc; (Q2Qc 0.5 * Q2Qc 10)%Qc ] ∧
    tdata landmarks !! 1
    = Some (replicate 7 [ (Q2Qc 0.5 * Q2Qc 10)%Qc; (Q2Qc 0.5 * Q2Qc 10)%Qc ]).
Proof.
  destruct (zero_offsets_decode_to_anchor
              (mock_model demo_rows) (Q2Qc 10) (Q2Qc 10) demo_anchors
              (Q2Qc 0.3) (Q2Qc 0.5) empty_heap (demo_detector demo_rows)
              (Nat.iter 3 extend empty_heap) (demo_prediction demo_rows)
              demo_heap demo_heap)
    as (boxes & landmarks & hp' & hq' & _ & _ & Hrows).
  - reflexivity.
  - discriminate.
  - discriminate.
  - reflexivity.
  - repeat constructor; simpl; lia.
  - exists boxes, landmarks.
    exact (Hrows 1 (Q2Qc 3) {| x_center := Q2Qc 0.5; y_center := Q2Qc 0.5 |}
                 eq_refl eq_refl).
Defined.

Lemma suppression_keeps_higher_score_witness :
  (∃ bb h',
     getSingleBoundingBox (demo_detector overlapping_rows) demo_image demo_heap
     = (Ok (Some bb), h') ∧
     detection_at (demo_detector overlapping_rows) (tdata demo_image)
                  overlapping_rows 0 = Some bb) ∧
  (∃ bb h',
     getSingleBoundingBox (demo_detector demo_rows) demo_image demo_heap
     = (Ok (Some bb), h') ∧
     detection_at (demo_detector demo_rows) (tdata demo_image) demo_rows 1
     = Some bb).
Proof.
  split.
  - destruct (suppression_keeps_higher_score
                (mock_model overlapping_rows) (Q2Qc 10) (Q2Qc 10) demo_anchors
                (Q2Qc 0.3) (Q2Qc 0.5) empty_heap
                (demo_detector overlapping_rows)
                (Nat.iter 3 extend empty_heap) demo_image overlapping_rows
                demo_heap 0 1 (Q2Qc 3) (Q2Qc 1)
                ([Q2Qc 0; Q2Qc 0; Q2Qc 10; Q2Qc 10] ++ replicate 14 (Q2Qc 0))
                ([Q2Qc 0; Q2Qc 0; Q2Qc 10; Q2Qc 10] ++ replicate 14 (Q2Qc 0)))
      as [Habove _].
    + reflexivity.
    + reflexivity.
    + reflexivity.
    + reflexivity.
    + split_and!; [reflexivity|simpl; lia|repeat constructor].
    + reflexivity.
    + reflexivity.
    + lia.
    + reflexivity.
    + reflexivity.
    + intros [|[|[|j]]] s rest Hj H0 H1; [done|done| |done].
      injection Hj as <- <-. reflexivity.
    + reflexivity.
    + apply Habove. reflexivity.
  - destruct (suppression_keeps_higher_score
                (mock_model demo_rows) (Q2Qc 10) (Q2Qc 10) demo_anchors
                (Q2Qc 0.3) (Q2Qc 0.5) empty_heap (demo_detector demo_rows)
                (Nat.iter 3 extend empty_heap) demo_image demo_rows
                demo_heap 1 2 (Q2Qc 3) (Q2Qc 1)
                (replicate 18 (Q2Qc 0)) (replicate 18 (Q2Qc 0)))
      as [_ Hbelow].
    + reflexivity.
    + reflexivity.
    + reflexivity.
    + reflexivity.
    + split_and!; [reflexivity|simpl; lia|repeat constructor].
    + reflexivity.
    + reflexivity.
    + lia.
    + reflexivity.
    + reflexivity.
    + intros [|[|[|j]]] s rest Hj H0 H1; [|done|done|done].
      injection Hj as <- <-. reflexivity.
    + reflexivity.
    + apply Hbelow. reflexivity.
Defined.

Lemma selected_row_passes_score_threshold_witness :
  ∃ i s rest,
    demo_rows !! i = Some (s :: rest) ∧
    Qc_ltb (Qc_squash s) (Q2Qc 0.5) = false ∧
    detection_at (demo_detector demo_rows) (tdata demo_image) demo_rows i
    = Some demo_detection.
Proof.
  apply (selected_row_passes_score_threshold
           (mock_model demo_rows) (Q2Qc 10) (Q2Qc 10) demo_anchors
           (Q2Qc 0.3) (Q2Qc 0.5) empty_heap (demo_detector demo_rows)
           (Nat.iter 3 extend empty_heap) demo_image demo_rows demo_heap
           demo_detection demo_call.2).
  - reflexivity.
  - reflexivity.
  - split_and!; [reflexivity|simpl; lia|repeat constructor].
  - reflexivity.
Defined.

Lemma detection_is_rescaled_witness :
  ∃ i box points,
    head (selection (demo_detector demo_rows) demo_rows) = Some i ∧
    boxes_of (demo_detector demo_rows) demo_rows !! i = Some box ∧
    landmarks_of (demo_detector demo_rows) demo_rows !! i = Some points ∧
    startPoint demo_detection
    = zip_with Qcmult (take 2 box)
        [ (Q2Qc 20 / Q2Qc 10)%Qc; (Q2Qc 20 / Q2Qc 10)%Qc ].
Proof.
  destruct (detection_is_rescaled
              (mock_model demo_rows) (Q2Qc 10) (Q2Qc 10) demo_anchors
              (Q2Qc 0.3) (Q2Qc 0.5) empty_heap (demo_detector demo_rows)
              (Nat.iter 3 extend empty_heap) demo_image demo_rows demo_heap
              demo_detection demo_call.2)
    as [(i & box & points & Hhead & Hbox & Hpoints & Hstart & _) _].
  - reflexivity.
  - reflexivity.
  - split_and!; [reflexivity|simpl; lia|repeat constructor].
  - reflexivity.
  - exists i, box, points. split_and!; [exact Hhead|exact Hbox|exact Hpoints|].
    exact Hstart.
Defined.

Lemma box_and_landmarks_share_row_witness :
  ∃ i raw anchor,
    head (selection (demo_detector demo_rows) demo_rows) = Some i ∧
    demo_rows !! i = Some raw ∧ demo_anchors !! i = Some anchor.
Proof.
  destruct (box_and_landmarks_share_row
              (mock_model demo_rows) (Q2Qc 10) (Q2Qc 10) demo_anchors
              (Q2Qc 0.3) (Q2Qc 0.5) empty_heap (demo_detector demo_rows)
              (Nat.iter 3 extend empty_heap) demo_image demo_rows demo_heap
              demo_detection demo_call.2)
    as (i & raw & anchor & Hhead & Hraw & Hanchor & _).
  - reflexivity.
  - reflexivity.
  - split_and!; [reflexivity|simpl; lia|repeat constructor].
  - reflexivity.
  - exists i, raw, anchor. split_and!; [exact Hhead|exact Hraw|exact Hanchor].
Defined.

Lemma call_is_stateless_witness :
  let first := Object.getSingleBoundingBox demo_image (demo_detector demo_rows)
                                           demo_heap in
  first.2.1 = demo_detector demo_rows ∧
  (Object.getSingleBoundingBox demo_image first.2.1 first.2.2).1 = first.1 ∧
  (0 ∈ live demo_heap → 0 ∈ live first.2.2).
Proof.
  destruct (call_is_stateless (demo_detector demo_rows) demo_image demo_heap)
    as (Hthis & _ & _ & Hkept & Hsecond & _).
  - unfold heap_wf. apply (bool_decide_unpack _). vm_compute. exact I.
  - split_and!; [exact Hthis|exact Hsecond|]. apply Hkept. simpl. left.
Defined.

(** ** Which errors a call can throw *)

Section Outcomes.
Context `{Number, !Runtime}.

Lemma outcomes_ret {A} (a : A) (Ψ : Error → Prop) (Φ : A → Prop) :
  Φ a → outcomes (mret a) Ψ Φ.
Proof. intros Ha h. exact Ha. Qed.

Lemma outcomes_throw {A} e (Ψ : Error → Prop) (Φ : A → Prop) :
  Ψ e → outcomes (throw e) Ψ Φ.
Proof. intros He h. exact He. Qed.

Lemma outcomes_bind {A B} (m : TF A) (k : A → TF B) Ψ (Φ : A → Prop)
    (Φ' : B → Prop) :
  outcomes m Ψ Φ → (∀ a, Φ a → outcomes (k a) Ψ Φ') → outcomes (m ≫= k) Ψ Φ'.
Proof.
  intros Hm Hk h. specialize (Hm h). unfold mbind, TF_bind.
  destruct (m h) as [[a|e] h1]; simpl in *; [|done].
  exact (Hk a Hm h1).
Qed.

Lemma outcomes_tidy `{Tensors A} (m : TF A) Ψ (Φ : A → Prop) :
  outcomes m Ψ Φ → outcomes (tidy m) Ψ Φ.
Proof.
  intros Hm h. specialize (Hm h). unfold tidy.
  by destruct (m h) as [[a|e] h1].
Qed.

Lemma outcomes_weaken {A} (m : TF A) Ψ (Φ Φ' : A → Prop) :
  outcomes m Ψ Φ → (∀ a, Φ a → Φ' a) → outcomes m Ψ Φ'.
Proof.
  intros Hm HΦ h. specialize (Hm h). destruct ((m h).1); auto.
Qed.

Lemma outcomes_alloc {D} (d : D) Ψ : outcomes (alloc d) Ψ (λ t, tdata t = d).
Proof. intros h. done. Qed.

Lemma outcomes_dispose {D} (t : Tensor D) Ψ :
  outcomes (dispose t) Ψ (λ _, True).
Proof. intros h. done. Qed.

(** Every tensor operation either rejects its operands' shapes or holds
    the value it computed. *)
Lemma outcomes_lift_alloc {D} (o : option D) (Ψ : Error → Prop) :
  Ψ ShapeError → outcomes (lift o ≫= alloc) Ψ (λ t, o = Some (tdata t)).
Proof. intros HΨ h. by destruct o. Qed.

Lemma outcomes_predict (m : GraphModel) (x : Tensor Image) (Ψ : Error → Prop) :
  Ψ ModelError → outcomes (model_predict m x) Ψ (λ _, True).
Proof.
  intros HΨ h. unfold model_predict. by destruct (predict m (tdata x)).
Qed.

Local Ltac op_step :=
  first
    [ apply outcomes_lift_alloc; left; reflexivity
    | apply outcomes_alloc
    | apply outcomes_predict; right; reflexivity ].

Local Ltac op_steps :=
  repeat (eapply outcomes_bind; [op_step|intros ? ?]).

Lemma outcomes_normalizeBoxes this boxes :
  outcomes (normalizeBoxes this boxes) tensor_error (λ _, True).
Proof.
  unfold normalizeBoxes. op_steps.
  eapply outcomes_weaken; [op_step|done].
Qed.

Lemma outcomes_decode_landmarks this raw :
  outcomes (_decode_landmarks this raw) tensor_error (λ _, True).
Proof.
  unfold _decode_landmarks. op_steps.
  eapply outcomes_weaken; [op_step|done].
Qed.

(** One row cut out of a rank-2 tensor is a tensor of one row. *)
Lemma slice_one_row_length (i : nat) (t r : T2) :
  slice [i; 0] [1; -1]%Z t = Some r → length r = 1.
Proof.
  unfold slice at 1, slice_list at 1. simpl. unfold slice_axis. cbv zeta.
  rewrite (decide_False (P:=(1 = -1)%Z)) by lia.
  case_decide as Hi; [|done]. simpl.
  intros Hr%length_mapM. rewrite <-Hr, length_take, length_drop.
  change (Z.to_nat 1) with 1. lia.
Qed.

Lemma outcomes_getBoundingBox this input :
  outcomes (_getBoundingBox this input) tensor_error one_box_or_nothing.
Proof.
  unfold _getBoundingBox. apply outcomes_tidy.
  unfold tf_scalar, tf_sigmoid, tf_image_nonMaxSuppression. op_steps.
  eapply outcomes_bind; [apply outcomes_normalizeBoxes|intros boxes _].
  eapply outcomes_bind; [apply outcomes_alloc|intros sel _].
  destruct (arraySync sel) as [|i ?].
  - apply outcomes_ret. by left.
  - eapply outcomes_bind; [op_step|intros result_box Hbox].
    eapply outcomes_bind; [op_step|intros ? _].
    eapply outcomes_bind; [apply outcomes_decode_landmarks|intros ? _].
    op_steps. apply outcomes_ret. right. eexists _, _. split; [done|].
    simpl in Hbox. by eapply slice_one_row_length.
Qed.

Lemma outcomes_getSingleBoundingBox this input :
  outcomes (getSingleBoundingBox this input) tensor_error (λ _, True).
Proof.
  unfold getSingleBoundingBox.
  eapply outcomes_bind.
  { apply outcomes_tidy. unfold tf_scalar. op_steps.
    eapply (outcomes_weaken _ _ _ (λ _, True)); [op_step|done]. }
  intros image _.
  eapply outcomes_bind; [apply outcomes_getBoundingBox|].
  intros r [->|(b & l & -> & Hb)]; cbn [fst snd from_option].
  - by apply outcomes_ret.
  - eapply outcomes_bind; [by apply (outcomes_ret _ _ (λ _, True))|].
    intros lt _. unfold arraySync.
    destruct (tdata b) as [|row rest]; [done|]. cbn [lookup list_lookup from_option].
    eapply outcomes_bind; [by apply (outcomes_ret _ _ (λ _, True))|intros ? _].
    eapply outcomes_bind; [apply outcomes_dispose|intros ? _].
    eapply outcomes_bind; [apply outcomes_dispose|intros ? _].
    eapply outcomes_bind; [apply outcomes_dispose|intros ? _].
    by apply outcomes_ret.
Qed.

(** X1.  Whatever the detector, the image and the store, a call throws
    only a shape error or a network error: the two places where a missing
    result would be dereferenced ([bboxes_data[1].arraySync()] and
    [bboxes[0].slice]) are never reached with a missing value, because
    [_getBoundingBox] returns both tensors or neither and the box tensor
    always holds one row. *)
Theorem call_never_dereferences_null this (input : Tensor Image) h e :
  (getSingleBoundingBox this input h).1 = Throw e →
  e = ShapeError ∨ e = ModelError.
Proof.
  intros He. pose proof (outcomes_getSingleBoundingBox this input h) as Hout.
  by rewrite He in Hout.
Qed.

End Outcomes.

(** ** The store after each way out of a call *)

Section StoreAfter.
Context `{Number, !Runtime}.

Lemma next_iter_extend n h : next (Nat.iter n extend h) = n + next h.
Proof. induction n as [|n IH]; [done|]. simpl. by rewrite IH. Qed.

Lemma live_iter_extend n h :
  live (Nat.iter n extend h) = live h ∪ set_seq (next h) n.
Proof.
  induction n as [|n IH].
  - simpl. by rewrite (right_id_L ∅ (∪)).
  - change (Nat.iter (S n) extend h) with (extend (Nat.iter n extend h)).
    unfold extend at 1. cbn [live].
    rewrite IH, next_iter_extend. apply set_eq. intros i.
    rewrite !elem_of_union, elem_of_singleton, !elem_of_set_seq. intuition lia.
Qed.

Lemma end_scope_nothing_new h :
  heap_wf h → live (end_scope (next h) ∅ h) = live h.
Proof.
  intros Hwf. apply set_eq. intros i. rewrite elem_of_end_scope.
  split; [tauto|]. intros Hi. split; [|done]. left. exact (Hwf i Hi).
Qed.

Lemma call_result_any_store this (input : Tensor Image) h1 h2 :
  (getSingleBoundingBox this input h1).1
  = (getSingleBoundingBox this input h2).1.
Proof.
  pose proof (sim_getSingleBoundingBox this input h1 h2) as Hsim.
  destruct ((getSingleBoundingBox this input h1).1),
           ((getSingleBoundingBox this input h2).1); try done; by subst.
Qed.

Lemma call_wf this (input : Tensor Image) h :
  heap_wf h → heap_wf (getSingleBoundingBox this input h).2.
Proof.
  intros Hwf.
  by destruct (frames_getSingleBoundingBox (next h) this input h Hwf (le_n _))
    as (? & _).
Qed.

Lemma store_after_calls_cons this input inputs h :
  store_after_calls this (input :: inputs) h
  = store_after_calls this inputs (getSingleBoundingBox this input h).2.
Proof. reflexivity. Qed.

(** Calls leave every tensor that existed before the first of them as
    it was. *)
Lemma store_after_calls_frame this inputs h :
  heap_wf h →
  heap_wf (store_after_calls this inputs h) ∧
  next h ≤ next (store_after_calls this inputs h) ∧
  ∀ i, i < next h → i ∈ live (store_after_calls this inputs h) ↔ i ∈ live h.
Proof.
  revert h. induction inputs as [|input inputs IH]; intros h Hwf; [done|].
  rewrite store_after_calls_cons.
  destruct (frames_getSingleBoundingBox (next h) this input h Hwf (le_n _))
    as (Hwf1 & Hn1 & Hfr1 & _).
  destruct (IH _ Hwf1) as (Hwf2 & Hn2 & Hfr2).
  split_and!; [done|lia|].
  intros i Hi. rewrite Hfr2 by lia. by apply Hfr1.
Qed.

(** X2.  A call that returns a detection leaves the store exactly as it
    found it: the resized image, the box tensor and the landmark tensor
    are disposed before the result is returned, and every intermediate
    was released by the enclosing scopes. *)
Theorem detection_restores_store this (input : Tensor Image) bb h h' :
  heap_wf h →
  getSingleBoundingBox this input h = (Ok (Some bb), h') →
  live h' = live h ∧ heap_wf h'.
Proof.
  intros Hwf Hcall. split; [by eapply detection_return_live|].
  pose proof (call_wf this input h Hwf) as Hwf'. by rewrite Hcall in Hwf'.
Qed.

(** X3.  Calls that find no hand add up: after a run of calls each of
    which returns the absent result, the store holds one more live tensor
    per call than before the first. *)
Theorem calls_without_detection_accumulate this
    (inputs : list (Tensor Image)) h :
  heap_wf h →
  Forall (λ input, (getSingleBoundingBox this input h).1 = Ok None) inputs →
  size (live (store_after_calls this inputs h))
  = size (live h) + length inputs.
Proof.
  revert h. induction inputs as [|input inputs IH]; intros h Hwf Hall.
  - simpl. lia.
  - apply Forall_cons in Hall as [Hnull Hall].
    rewrite store_after_calls_cons.
    pose proof (call_wf this input h Hwf) as Hwf1.
    destruct (getSingleBoundingBox this input h) as [r h1] eqn:Hcall.
    simpl in Hnull, Hwf1 |- *. subst r.
    pose proof (null_return_live _ _ _ _ Hwf Hcall) as Hlive.
    rewrite IH; [|done|].
    + rewrite Hlive, size_union, size_singleton; [lia|].
      intros i Hi ->%elem_of_singleton. specialize (Hwf _ Hi). simpl in Hwf. lia.
    + eapply Forall_impl; [exact Hall|]. intros x Hx. simpl in *.
      rewrite <-Hx. apply call_result_any_store.
Qed.

(** X4.  A call that throws after the image was resized leaves the
    resized image live, whatever threw: the network, or a tensor
    operation that rejected a shape.  Only when the resampler itself
    rejects the input is the store left as it was. *)
Theorem throwing_call_leaves_image this (input : Tensor Image) h e h' :
  heap_wf h →
  getSingleBoundingBox this input h = (Throw e, h') →
  live h'
  = live h ∪ match resizeBilinear (tdata input) (width this) (height this) with
             | Some _ => {[2 + next h]}
             | None => ∅
             end.
Proof.
  intros Hwf. unfold getSingleBoundingBox.
  destruct (resizeBilinear (tdata input) (width this) (height this))
    as [resized|] eqn:Hres.
  2:{ erewrite bind_throw by (by apply image_scope_throw).
      intros [= _ <-]. rewrite end_scope_nothing_new by done.
      by rewrite (right_id_L ∅ (∪)). }
  erewrite bind_run; [|by apply image_scope_run|reflexivity].
  set (image := {| tid := 2 + next h; tdata := normalise resized |}).
  set (h1 := end_scope _ _ _).
  assert (heap_wf h1) as Hwf1 by (by apply image_scope_wf).
  destruct (getBoundingBox_live this image h1 Hwf1)
    as (Hwf2 & Hn2 & Hshape & Hsub & Hsup).
  pose proof (outcomes_getBoundingBox this image h1) as Hout.
  unfold mbind at 1, TF_bind at 1.
  destruct (_getBoundingBox this image h1) as [[r|e2] h2];
    cbn [fst snd] in Hshape, Hsub, Hsup, Hout.
  - destruct Hout as [->|(b & l & -> & Hb)]; [done|].
    unfold mbind, TF_bind, mret, TF_ret, arraySync. simpl.
    destruct (tdata b) as [|row rest]; done.
  - intros [= _ <-]. etrans; [|exact (image_scope_live h Hwf)]. fold h1.
    apply set_eq. intros i. split; [|by apply Hsub].
    intros Hi. apply Hsup in Hi.
    apply elem_of_union in Hi as [?|Hi]; [done|].
    by apply not_elem_of_empty in Hi.
Qed.

(** X5.  [_getBoundingBox] releases every intermediate tensor it
    creates.  When it returns nothing, or throws, the live tensors are
    exactly those live before; when it returns a box and landmarks, the
    only tensors that can be new are these two, and neither was live
    before.  It never returns one without the other. *)
Theorem getBoundingBox_releases_intermediates this (input : Tensor Image) h :
  heap_wf h →
  let r := _getBoundingBox this input h in
  match r.1 with
  | Ok (Some b, Some l) =>
      live h ⊆ live r.2 ∧ live r.2 ⊆ live h ∪ {[tid b; tid l]} ∧
      (tid b ∉ live h) ∧ (tid l ∉ live h)
  | Ok (None, None) | Throw _ => live r.2 = live h
  | Ok _ => False
  end.
Proof.
  intros Hwf r.
  destruct (getBoundingBox_live this input h Hwf)
    as (_ & _ & Hshape & Hsub & Hsup).
  fold r in Hshape, Hsub, Hsup.
  destruct (r.1) as [a|e].
  - destruct (Hshape a eq_refl) as [->|(b & l & -> & Hb & Hl)].
    + apply set_eq. intros i. split; [|by apply Hsub].
      intros Hi. apply Hsup in Hi.
      unfold tensors_in, tensors_pair, tensors_in, tensors_option in Hi.
      simpl in Hi. rewrite !elem_of_union in Hi.
      destruct Hi as [?|[Hi|Hi]]; [done|by apply not_elem_of_empty in Hi..].
    + split_and!; [done| | |].
      * intros i Hi. apply Hsup in Hi.
        change (i ∈ live h ∪ ({[tid b]} ∪ {[tid l]} : gset nat)) in Hi.
        rewrite !elem_of_union, !elem_of_singleton in *. tauto.
      * intros Hi. specialize (Hwf _ Hi). simpl in Hwf. lia.
      * intros Hi. specialize (Hwf _ Hi). simpl in Hwf. lia.
  - apply set_eq. intros i. split; [|by apply Hsub].
    intros Hi. apply Hsup in Hi.
    apply elem_of_union in Hi as [?|Hi]; [done|].
    by apply not_elem_of_empty in Hi.
Qed.

(** X6.  [normalizeBoxes] opens no scope of its own: called directly on
    well-shaped boxes it creates ten tensors and all ten, the nine
    intermediate ones included, are live when it returns; wrapped in
    [tf.tidy], only the returned tensor is new. *)
Theorem normalizeBoxes_keeps_intermediates this (boxes : Tensor T2) h :
  heap_wf h →
  detector_shapes this →
  length (tdata boxes) = length (tdata (anchors this)) →
  Forall (λ r, 4 ≤ length r) (tdata boxes) →
  live (normalizeBoxes this boxes h).2 = live h ∪ set_seq (next h) 10 ∧
  live (tidy (normalizeBoxes this boxes) h).2 = live h ∪ {[9 + next h]}.
Proof.
  intros Hwf (Hsize & Hdbl & Hanc & _) Hlen Hrows.
  pose proof (normalizeBoxes_run this boxes h Hsize Hdbl Hanc Hlen Hrows)
    as Hrun.
  split.
  - rewrite Hrun. cbn [snd]. apply live_iter_extend.
  - erewrite tidy_run by exact Hrun. cbn [snd]. apply set_eq. intros i.
    rewrite elem_of_end_scope, live_iter_extend.
    unfold tensors_in, tensors_tensor. cbn [tid].
    rewrite !elem_of_union, !elem_of_singleton, elem_of_set_seq.
    split; [|intros [Hi| ->]].
    + intros [[Hi| ->] [Hl|Hl]]; [by left|lia|by left|by right].
    + specialize (Hwf _ Hi) as Hlt. simpl in Hlt. split; [by left|by left].
    + split; [by right|right; lia].
Qed.

(** X7.  [_decode_landmarks] opens no scope of its own either: called
    directly on well-shaped raw landmarks it creates five tensors and all
    five are live when it returns; wrapped in [tf.tidy], only the
    returned tensor is new. *)
Theorem decode_landmarks_keeps_intermediates this (raw : Tensor T2) h :
  heap_wf h →
  detector_shapes this →
  length (tdata raw) = length (tdata (anchors this)) →
  uniform 14 (tdata raw) →
  live (_decode_landmarks this raw h).2 = live h ∪ set_seq (next h) 5 ∧
  live (tidy (_decode_landmarks this raw) h).2 = live h ∪ {[4 + next h]}.
Proof.
  intros Hwf (Hsize & _ & Hanc & _) Hlen Hrows.
  pose proof (decode_landmarks_run this raw h Hsize Hanc Hlen Hrows) as Hrun.
  split.
  - rewrite Hrun. cbn [snd]. apply live_iter_extend.
  - erewrite tidy_run by exact Hrun. cbn [snd]. apply set_eq. intros i.
    rewrite elem_of_end_scope, live_iter_extend.
    unfold tensors_in, tensors_tensor. cbn [tid].
    rewrite !elem_of_union, !elem_of_singleton, elem_of_set_seq.
    split; [|intros [Hi| ->]].
    + intros [[Hi| ->] [Hl|Hl]]; [by left|lia|by left|by right].
    + specialize (Hwf _ Hi) as Hlt. simpl in Hlt. split; [by left|by left].
    + split; [by right|right; lia].
Qed.

(** X8.  The three tensors the constructor creates (anchors, input size,
    doubled input size) are new, and they are still live after any number
    of calls on any images: nothing in the class ever disposes them. *)
Theorem detector_tensors_outlive_calls
    net w hh ANCHORS iou score h0 this h1 (inputs : list (Tensor Image)) t :
  heap_wf h0 →
  new_HandDetector net w hh ANCHORS iou score h0 = (Ok this, h1) →
  t ∈ [tid (anchors this); tid (inputSizeTensor this);
       tid (doubleInputSizeTensor this)] →
  (t ∉ live h0) ∧ t ∈ live (store_after_calls this inputs h1).
Proof.
  intros Hwf (_ & -> & ->)%new_HandDetector_inv Ht. cbn [tid anchors
    inputSizeTensor doubleInputSizeTensor] in Ht.
  assert (heap_wf (Nat.iter 3 extend h0)) as Hwf1.
  { simpl. by do 3 apply heap_wf_extend. }
  destruct (store_after_calls_frame
              {| model := net; width := w; height := hh;
                 iouThreshold := iou; scoreThreshold := score;
                 anchors := {| tid := next h0; tdata := anchor_row <$> ANCHORS |};
                 inputSizeTensor := {| tid := 1 + next h0; tdata := [w; hh] |};
                 doubleInputSizeTensor :=
                   {| tid := 2 + next h0;
                      tdata := [nmul w (of_Q 2); nmul hh (of_Q 2)] |} |}
              inputs _ Hwf1) as (_ & _ & Hframe).
  assert (next h0 ≤ t < 3 + next h0) as Hrange.
  { rewrite !elem_of_cons in Ht. destruct Ht as [->|[->|[->|Ht]]]; [lia..|].
    by apply elem_of_nil in Ht. }
  split.
  - intros Hi. specialize (Hwf _ Hi). simpl in Hwf. lia.
  - apply Hframe; [rewrite next_iter_extend; lia|].
    rewrite live_iter_extend. apply elem_of_union_r, elem_of_set_seq. lia.
Qed.

End StoreAfter.

(** ** Shapes the detector rejects, and shapes it lets through *)

Section Rejected.
Context `{Number, !Runtime}.

Lemma tidy_throw `{Tensors A} (body : TF A) h e h1 :
  body h = (Throw e, h1) →
  tidy body h = (Throw e, end_scope (next h) ∅ h1).
Proof. intros Hb. unfold tidy. by rewrite Hb. Qed.

Lemma lift_alloc_throw {D} (o : option D) h :
  o = None → (lift o ≫= alloc) h = (Throw ShapeError, h).
Proof. by intros ->. Qed.

(** With a batch of one and a single row, no two axes are left after
    [squeeze]. *)
Lemma squeeze3_single_row (row : T1) : squeeze3 [[row]] = None.
Proof.
  unfold squeeze3, shape3. cbn [length hd].
  rewrite !filter_cons_False by (intros ?; done).
  rewrite filter_cons. case_decide; by rewrite filter_nil.
Qed.

(** A row too short for the columns asked for makes [tf.slice] fail. *)
Lemma slice_columns_short (c0 : nat) (size : Z) (rows : T2) :
  (0 ≤ size)%Z → Exists (λ r, length r < c0 + Z.to_nat size) rows →
  slice [0; c0] [(-1)%Z; size] rows = None.
Proof.
  intros Hsize Hex. unfold slice at 1, slice_list at 1. simpl.
  rewrite slice_axis_full. simpl. apply mapM_None_2.
  eapply Exists_impl; [exact Hex|]. intros r Hr. simpl in Hr.
  unfold slice, slice_list. simpl. unfold slice_axis. cbv zeta.
  destruct (decide (size = (-1)%Z)) as [->|_]; [lia|].
  rewrite decide_False by lia. done.
Qed.

(** Two axes of different lengths, neither of length 1, do not
    broadcast. *)
Lemma bzip_mismatch {A B C} (f : A → B → option C) xs ys :
  length xs ≠ length ys → length xs ≠ 1 → length ys ≠ 1 →
  bzip f xs ys = None.
Proof.
  intros Hne Hx Hy. unfold bzip. rewrite decide_False by done.
  destruct xs as [|x [|x' xs]], ys as [|y [|y' ys]]; done.
Qed.

(** A rank-2 tensor against a tensor of one row. *)
Lemma broadcast_rows_row (f : num → num → num) (a : T2) (v : T1) :
  Forall (λ r, length r = length v) a →
  broadcast f a [v] = Some ((λ r, zip_with f r v) <$> a).
Proof.
  intros Hall. unfold broadcast, broadcast_2_2, bop2.
  apply bzip_single_r. eapply Forall_impl; [done|].
  intros r Hr. by apply bop1_same.
Qed.

(** X9.  A network that answers with a single row ([1, 1, k], which is
    what a detector with one anchor gets) makes every call throw:
    [squeeze()] drops the anchor axis together with the batch axis, so no
    rank-2 prediction is left to slice. *)
Theorem single_row_answer_throws this (input : Tensor Image) img (row : T1) h :
  network_input this (tdata input) = Some img →
  predict (model this) img = Some [[row]] →
  (getSingleBoundingBox this input h).1 = Throw ShapeError.
Proof.
  unfold network_input. intros Hnet Hpred.
  destruct (resizeBilinear (tdata input) (width this) (height this))
    as [resized|] eqn:Hres; [|done].
  injection Hnet as <-. unfold getSingleBoundingBox.
  erewrite bind_run; [|by apply image_scope_run|reflexivity].
  erewrite bind_throw; [done|].
  unfold _getBoundingBox. apply tidy_throw.
  eapply bind_run; [reflexivity|].
  eapply bind_run; [apply tf_binop_run; reflexivity|].
  eapply bind_run; [reflexivity|].
  eapply bind_run; [apply tf_binop_run; reflexivity|].
  eapply bind_run; [apply model_predict_run; exact Hpred|].
  apply bind_throw. apply lift_alloc_throw. apply squeeze3_single_row.
Qed.

(** X10.  With as many rows as anchors, [normalizeBoxes] returns a
    tensor exactly when every row holds at least 4 values (two offsets,
    two sizes); with a shorter row it throws a shape error. *)
Theorem normalizeBoxes_needs_four_columns this (boxes : Tensor T2) h :
  detector_shapes this →
  length (tdata boxes) = length (tdata (anchors this)) →
  ((∃ r, (normalizeBoxes this boxes h).1 = Ok r) ↔
   Forall (λ r, 4 ≤ length r) (tdata boxes)) ∧
  (¬ Forall (λ r, 4 ≤ length r) (tdata boxes) →
   (normalizeBoxes this boxes h).1 = Throw ShapeError).
Proof.
  intros (Hsize & Hdbl & Hanc & _) Hlen.
  assert (¬ Forall (λ r : T1, 4 ≤ length r) (tdata boxes) →
          (normalizeBoxes this boxes h).1 = Throw ShapeError) as Hshort.
  { intros Hex%not_Forall_Exists; [|apply _].
    unfold normalizeBoxes.
    destruct (decide (Forall (λ r : T1, 2 ≤ length r) (tdata boxes)))
      as [Hall|Hex2].
    - erewrite bind_run;
        [|apply tf_slice_run, slice_columns; [lia|exact Hall]|reflexivity].
      erewrite bind_throw; [done|].
      apply lift_alloc_throw, slice_columns_short; [lia|].
      eapply Exists_impl; [exact Hex|]. intros r Hr. simpl in *.
      change (Z.to_nat 2) with 2. lia.
    - apply not_Forall_Exists in Hex2; [|apply _].
      erewrite bind_throw; [done|].
      apply lift_alloc_throw, slice_columns_short; [lia|].
      eapply Exists_impl; [exact Hex2|]. intros r Hr. simpl in *.
      change (Z.to_nat 2) with 2. lia. }
  split; [|exact Hshort]. split.
  - intros [r Hr].
    destruct (decide (Forall (λ r : T1, 4 ≤ length r) (tdata boxes)))
      as [?|Hno]; [done|].
    rewrite (Hshort Hno) in Hr. done.
  - intros Hall. eexists.
    by rewrite (normalizeBoxes_run this boxes h Hsize Hdbl Hanc Hlen Hall).
Qed.

(** X11.  When the number of rows differs from the number of anchors and
    neither is 1, [normalizeBoxes] throws a shape error at the addition
    of the anchors; the three tensors it created before that are left in
    the store. *)
Theorem normalizeBoxes_rejects_row_count this (boxes : Tensor T2) h :
  length (tdata (inputSizeTensor this)) = 2 →
  Forall (λ r, 4 ≤ length r) (tdata boxes) →
  length (tdata boxes) ≠ length (tdata (anchors this)) →
  length (tdata boxes) ≠ 1 →
  length (tdata (anchors this)) ≠ 1 →
  normalizeBoxes this boxes h = (Throw ShapeError, Nat.iter 3 extend h).
Proof.
  intros Hsize Hrows Hne Hone Hanc1. unfold normalizeBoxes.
  eapply bind_run.
  { apply tf_slice_run, slice_columns; [lia|].
    eapply Forall_impl; [exact Hrows|]. intros r Hr. simpl in *. lia. }
  eapply bind_run.
  { apply tf_slice_run, slice_columns; [lia|].
    eapply Forall_impl; [exact Hrows|]. intros r Hr. simpl in *. lia. }
  eapply bind_run.
  { apply tf_binop_run, broadcast_rows_vector. simpl. rewrite Hsize.
    apply Forall_fmap. eapply Forall_impl; [exact Hrows|]. intros r Hr.
    simpl in *. rewrite length_take, length_drop. change (Z.to_nat 2) with 2.
    lia. }
  apply bind_throw. apply lift_alloc_throw. cbn [tdata].
  unfold broadcast, broadcast_2_2, bop2. apply bzip_mismatch.
  - by rewrite !length_fmap.
  - by rewrite !length_fmap.
  - done.
Qed.

(** X12.  A detector with a single anchor accepts any number of rows:
    broadcasting repeats the anchor, and every row is decoded against
    it. *)
Theorem normalizeBoxes_repeats_single_anchor this (boxes : Tensor T2)
    (anchor : T1) h :
  length (tdata (inputSizeTensor this)) = 2 →
  length (tdata (doubleInputSizeTensor this)) = 2 →
  tdata (anchors this) = [anchor] → length anchor = 2 →
  Forall (λ r, 4 ≤ length r) (tdata boxes) →
  normalizeBoxes this boxes h
  = (Ok {| tid := 9 + next h;
           tdata := (λ raw, box_row (tdata (inputSizeTensor this))
                                    (tdata (doubleInputSizeTensor this))
                                    raw anchor) <$> tdata boxes |},
     Nat.iter 10 extend h).
Proof.
  intros Hsize Hdbl Hanc Ha Hrows. unfold normalizeBoxes.
  set (size := tdata (inputSizeTensor this)) in *.
  set (dbl := tdata (doubleInputSizeTensor this)) in *.
  set (rows := tdata boxes) in *.
  assert (uniform 2 ((λ r, take (Z.to_nat 2) (drop 0 r)) <$> rows)) as Hoffs.
  { apply Forall_fmap. eapply Forall_impl; [exact Hrows|]. intros r Hr.
    simpl in *. rewrite length_take, length_drop. change (Z.to_nat 2) with 2.
    lia. }
  assert (uniform 2 ((λ r, take (Z.to_nat 2) (drop 2 r)) <$> rows)) as Hsizes.
  { apply Forall_fmap. eapply Forall_impl; [exact Hrows|]. intros r Hr.
    simpl in *. rewrite length_take, length_drop. change (Z.to_nat 2) with 2.
    lia. }
  assert (∀ (g : T1 → T1) (t : T2),
            (∀ r, length r = 2 → length (g r) = 2) →
            uniform 2 t → uniform 2 (g <$> t)) as Hmap.
  { intros g t Hg Ht. by apply (uniform_fmap 2 2). }
  assert (∀ (g : num → num → num) (r s : T1),
            length r = 2 → length s = 2 → length (zip_with g r s) = 2) as Hzip.
  { intros. by apply length_zip_with_same. }
  eapply bind_run.
  { apply tf_slice_run, slice_columns; [lia|].
    eapply Forall_impl; [exact Hrows|]. intros r Hr. simpl in *. lia. }
  eapply bind_run.
  { apply tf_slice_run, slice_columns; [lia|].
    eapply Forall_impl; [exact Hrows|]. intros r Hr. simpl in *. lia. }
  eapply bind_run.
  { apply tf_binop_run, broadcast_rows_vector. simpl. fold size.
    rewrite Hsize. exact Hoffs. }
  eapply bind_run.
  { apply tf_binop_run. cbn [tdata]. rewrite Hanc.
    apply broadcast_rows_row. rewrite Ha.
    apply Hmap; [|exact Hoffs]. intros r Hr. by apply Hzip. }
  eapply bind_run.
  { apply tf_binop_run, broadcast_rows_vector. simpl. fold dbl.
    rewrite Hdbl. exact Hsizes. }
  eapply bind_run.
  { apply tf_binop_run, broadcast_rows_rows. cbn [tdata].
    apply (uniform_Forall2 2).
    - by rewrite !length_fmap.
    - apply Hmap; [intros; by apply Hzip|].
      apply Hmap; [intros; by apply Hzip|]. exact Hoffs.
    - apply Hmap; [intros; by apply Hzip|]. exact Hsizes. }
  eapply bind_run.
  { apply tf_binop_run, broadcast_rows_rows. cbn [tdata].
    apply (uniform_Forall2 2).
    - by rewrite !length_fmap.
    - apply Hmap; [intros; by apply Hzip|].
      apply Hmap; [intros; by apply Hzip|]. exact Hoffs.
    - apply Hmap; [intros; by apply Hzip|]. exact Hsizes. }
  eapply bind_run.
  { apply tf_binop_run, broadcast_rows_vector. cbn [tdata]. fold size.
    rewrite Hsize. apply (uniform_zip_with 2); [intros; by apply Hzip| |].
    - apply Hmap; [intros; by apply Hzip|].
      apply Hmap; [intros; by apply Hzip|]. exact Hoffs.
    - apply Hmap; [intros; by apply Hzip|]. exact Hsizes. }
  eapply bind_run.
  { apply tf_binop_run, broadcast_rows_vector. cbn [tdata]. fold size.
    rewrite Hsize. apply (uniform_zip_with 2); [intros; by apply Hzip| |].
    - apply Hmap; [intros; by apply Hzip|].
      apply Hmap; [intros; by apply Hzip|]. exact Hoffs.
    - apply Hmap; [intros; by apply Hzip|]. exact Hsizes. }
  rewrite tf_concat2d_run.
  2:{ cbn [tdata]. by rewrite !length_fmap, !length_zip_with, !length_fmap. }
  do 3 f_equal. cbn [tdata]. fold size dbl rows. apply list_eq. intros i.
  repeat first [rewrite lookup_zip_with | rewrite list_lookup_fmap].
  destruct (rows !! i) as [r|]; done.
Qed.

End Rejected.

(** ** What a detection looks like *)

Section Detections.
Context `{Number, !Runtime}.

Lemma length_box_row (size dbl raw a : T1) :
  length size = 2 → length dbl = 2 → length a = 2 → 4 ≤ length raw →
  length (box_row size dbl raw a) = 4.
Proof.
  intros Hs Hd Ha Hr. unfold box_row.
  rewrite length_app, !length_zip_with, !length_take, !length_drop. lia.
Qed.

(** X13.  A returned detection has a start point and an end point of two
    coordinates each, and exactly seven landmarks of two coordinates
    each. *)
Theorem detection_has_seven_landmarks this (input : Tensor Image)
    (rows : T2) h bb h' :
  detector_shapes this →
  network_input this (tdata input) ≫= predict (model this) = Some [rows] →
  raw_prediction_ok this rows →
  getSingleBoundingBox this input h = (Ok (Some bb), h') →
  length (startPoint bb) = 2 ∧ length (endPoint bb) = 2 ∧
  length (landmarks bb) = 7 ∧ Forall (λ p, length p = 2) (landmarks bb).
Proof.
  intros Hshapes Hnet Hok Hret.
  destruct (returned_detection _ _ _ _ _ _ Hshapes Hnet Hok Hret)
    as (i & _ & Hdet).
  destruct Hshapes as (Hsize & Hdbl & Hanc & _).
  destruct Hok as (_ & _ & Hrows).
  unfold detection_at, boxes_of, landmarks_of in Hdet.
  rewrite !lookup_zip_with, !list_lookup_fmap in Hdet.
  destruct (rows !! i) as [raw|] eqn:Hraw; [|done].
  destruct (tdata (anchors this) !! i) as [a|] eqn:Ha; [|done].
  simpl in Hdet. injection Hdet as <-.
  pose proof (uniform_lookup 19 rows i raw Hrows Hraw) as Hlen.
  pose proof (uniform_lookup 2 _ i a Hanc Ha) as Hlena.
  assert (length (box_row (tdata (inputSizeTensor this))
                          (tdata (doubleInputSizeTensor this))
                          (take 4 (drop 1 raw)) a) = 4) as Hbox.
  { apply length_box_row; [done..|]. rewrite length_take, length_drop. lia. }
  assert (length (take 14 (drop 5 raw)) = 14) as Hlen14.
  { rewrite length_take, length_drop. lia. }
  cbn [startPoint endPoint landmarks scaleBoxCoordinates].
  unfold scalePoint, js_slice. split_and!.
  - rewrite length_zip_with, length_take, length_drop, Hbox. simpl. lia.
  - rewrite length_zip_with, length_take, length_drop, Hbox. simpl. lia.
  - by rewrite length_fmap, length_landmarks_row.
  - apply Forall_fmap. unfold landmarks_row. apply Forall_fmap.
    eapply Forall_impl.
    { apply (uniform_chunks 2 7); [lia|]. by rewrite Hlen14. }
    intros p Hp. simpl in *.
    rewrite length_zip_with, length_landmark_point by done. simpl. lia.
Qed.

Lemma bind_ext {A B} (m1 m2 : TF A) (k1 k2 : A → TF B) h :
  m1 h = m2 h → (∀ a h', k1 a h' = k2 a h') → (m1 ≫= k1) h = (m2 ≫= k2) h.
Proof.
  intros Hm Hk. unfold mbind, TF_bind. rewrite Hm.
  destruct (m2 h) as [[a|e] h']; auto.
Qed.

Lemma predict_bind_with_model {B} (m1 m2 : GraphModel) (x : Tensor Image)
    (k1 k2 : Tensor T3 → TF B) h :
  predict m1 (tdata x) = predict m2 (tdata x) →
  (∀ a h', k1 a h' = k2 a h') →
  (model_predict m1 x ≫= k1) h = (model_predict m2 x ≫= k2) h.
Proof.
  intros Hp Hk. unfold mbind, TF_bind, model_predict. rewrite Hp.
  destruct (predict m2 (tdata x)); simpl; auto.
Qed.

Lemma getBoundingBox_with_model this net' (image : Tensor Image) h :
  predict net' (centre (tdata image))
  = predict (model this) (centre (tdata image)) →
  _getBoundingBox (with_model this net') image h
  = _getBoundingBox this image h.
Proof.
  intros Hp. unfold _getBoundingBox, tidy.
  match goal with
  | |- match ?b1 h with _ => _ end = match ?b2 h with _ => _ end =>
      assert (b1 h = b2 h) as Hb; [|by rewrite Hb]
  end.
  etrans.
  { eapply bind_run; [reflexivity|].
    eapply bind_run; [apply tf_binop_run; reflexivity|].
    eapply bind_run; [reflexivity|].
    eapply bind_run; [apply tf_binop_run; reflexivity|].
    reflexivity. }
  symmetry. etrans.
  { eapply bind_run; [reflexivity|].
    eapply bind_run; [apply tf_binop_run; reflexivity|].
    eapply bind_run; [reflexivity|].
    eapply bind_run; [apply tf_binop_run; reflexivity|].
    reflexivity. }
  apply predict_bind_with_model; [symmetry; exact Hp|reflexivity].
Qed.

(** The network is consulted once, on the resized image with every
    value [x] replaced by [(x / 255 - 0.5) * 2]; nothing else about the
    network matters to a call. *)
Lemma call_with_model this net' (input : Tensor Image) resized h :
  resizeBilinear (tdata input) (width this) (height this) = Some resized →
  predict net' (centre (normalise resized))
  = predict (model this) (centre (normalise resized)) →
  getSingleBoundingBox (with_model this net') input h
  = getSingleBoundingBox this input h.
Proof.
  intros Hres Hp. unfold getSingleBoundingBox.
  etrans.
  { eapply bind_run;
      [by apply (image_scope_run (with_model this net'))|reflexivity]. }
  symmetry. etrans.
  { eapply bind_run; [by apply image_scope_run|reflexivity]. }
  apply bind_ext; [|reflexivity].
  symmetry. by apply getBoundingBox_with_model.
Qed.

End Detections.

(** ** Decoding in exact arithmetic

    On rationals the divisions and multiplications by the input size
    cancel, which shows what the raw values mean. *)

Lemma Qc_two : Q2Qc 2 = (1 + 1)%Qc.
Proof. apply Qc_is_canon. reflexivity. Qed.

Lemma Qc_box_axis (offset anchor extent size : Qc) :
  size ≠ 0%Qc →
  let centre := (offset / size + anchor)%Qc in
  let half := (extent / (size * Q2Qc 2))%Qc in
  ((centre + half) * size - (centre - half) * size = extent ∧
   (centre - half) * size + (centre + half) * size
   = Q2Qc 2 * (offset + anchor * size))%Qc.
Proof.
  intros Hsize centre half. unfold centre, half. rewrite Qc_two.
  split; field; split; try done; intros Hc; discriminate Hc.
Qed.

Lemma Qc_landmark_axis (raw anchor size : Qc) :
  size ≠ 0%Qc → ((raw / size + anchor) * size = raw + anchor * size)%Qc.
Proof. intros Hsize. by field. Qed.

Lemma Qc_pixel_range (p : Qc) :
  (0 <= p <= Q2Qc 255)%Qc →
  (- (1) <= (p / Q2Qc 255 - Q2Qc 0.5) * Q2Qc 2 <= 1)%Qc.
Proof.
  intros [H0 H1]. unfold Qcle in *.
  unfold Qcdiv, Qcmult, Qcminus, Qcplus, Qcopp, Qcinv in *.
  cbn [this Q2Qc] in *. rewrite ?Qred_correct in *.
  change (/ 255)%Q with (1 # 255)%Q. split; lra.
Qed.

(** X14.  In exact arithmetic, the box [normalizeBoxes] decodes from a
    row [bx, by, bw, bh] and its anchor is [bw] wide and [bh] high, and
    its centre is the anchor scaled to the input size, moved by
    [(bx, by)]. *)
Theorem decoded_box_has_raw_size_and_centre
    net (width height : Qc) ANCHORS iou score h0 (this : HandDetector) h1
    (boxes : Tensor T2) h :
  new_HandDetector net width height ANCHORS iou score h0 = (Ok this, h1) →
  width ≠ 0%Qc → height ≠ 0%Qc →
  length (tdata boxes) = length ANCHORS →
  Forall (λ raw, 4 ≤ length raw) (tdata boxes) →
  ∃ decoded h',
    normalizeBoxes this boxes h = (Ok decoded, h') ∧
    ∀ i (bx by_ bw bh : num) rest anchor,
      tdata boxes !! i = Some (bx :: by_ :: bw :: bh :: rest) →
      ANCHORS !! i = Some anchor →
      ∃ x1 y1 x2 y2 : Qc,
        tdata decoded !! i = Some [x1; y1; x2; y2] ∧
        (x2 - x1 = bw ∧ y2 - y1 = bh ∧
         x1 + x2 = Q2Qc 2 * (bx + x_center anchor * width) ∧
         y1 + y2 = Q2Qc 2 * (by_ + y_center anchor * height))%Qc.
Proof.
  intros Hnew Hw Hh Hlen Hrows.
  destruct (new_HandDetector_shapes _ _ _ _ _ _ _ _ _ Hnew)
    as (Hsize2 & Hdbl2 & Hanc2 & _).
  destruct (constructed_anchors _ _ _ _ _ _ _ _ _ Hnew)
    as (Hanc & Hsize & Hdbl & _).
  eexists _, _. split.
  { apply normalizeBoxes_run; try done. by rewrite Hanc, length_fmap. }
  intros i bx by_ bw bh rest anchor Hi Ha. cbn [tdata].
  rewrite lookup_zip_with, Hi, Hanc, list_lookup_fmap, Ha, Hsize, Hdbl.
  eexists _, _, _, _. split; [reflexivity|].
  destruct (Qc_box_axis bx (x_center anchor) bw width Hw) as [Hx1 Hx2].
  destruct (Qc_box_axis by_ (y_center anchor) bh height Hh) as [Hy1 Hy2].
  split_and!; [exact Hx1|exact Hy1|exact Hx2|exact Hy2].
Qed.

(** X15.  In exact arithmetic, each landmark [_decode_landmarks] decodes
    from a raw pair [(lx, ly)] is the anchor scaled to the input size,
    moved by [(lx, ly)]: raw landmarks are offsets from the anchor in
    input pixels. *)
Theorem decoded_landmark_is_anchor_plus_offset
    net (width height : Qc) ANCHORS iou score h0 (this : HandDetector) h1
    (raw : Tensor T2) h :
  new_HandDetector net width height ANCHORS iou score h0 = (Ok this, h1) →
  width ≠ 0%Qc → height ≠ 0%Qc →
  length (tdata raw) = length ANCHORS →
  Forall (λ row, length row = 14) (tdata raw) →
  ∃ decoded h',
    _decode_landmarks this raw h = (Ok decoded, h') ∧
    ∀ i row anchor k (lx ly : num),
      tdata raw !! i = Some row → ANCHORS !! i = Some anchor → k < 7 →
      row !! (2 * k) = Some lx → row !! (2 * k + 1) = Some ly →
      ∃ points,
        tdata decoded !! i = Some points ∧
        points !! k = Some [ (lx + x_center anchor * width)%Qc;
                             (ly + y_center anchor * height)%Qc ].
Proof.
  intros Hnew Hw Hh Hlen Hrows.
  destruct (new_HandDetector_shapes _ _ _ _ _ _ _ _ _ Hnew)
    as (Hsize2 & Hdbl2 & Hanc2 & _).
  destruct (constructed_anchors _ _ _ _ _ _ _ _ _ Hnew)
    as (Hanc & Hsize & Hdbl & _).
  eexists _, _. split.
  { apply decode_landmarks_run; try done. by rewrite Hanc, length_fmap. }
  intros i row anchor k lx ly Hi Ha Hk Hx Hy. cbn [tdata].
  rewrite lookup_zip_with, Hi, Hanc, list_lookup_fmap, Ha, Hsize.
  eexists. split; [reflexivity|].
  rewrite (landmarks_row_lookup _ _ _ k lx ly); [|by eapply uniform_lookup|done..].
  f_equal. unfold landmark_point, anchor_row. cbn [zip_with].
  f_equal; [apply Qc_landmark_axis; exact Hw|].
  f_equal. apply Qc_landmark_axis; exact Hh.
Qed.

Lemma Qc_ltb_ge (a b : Qc) : (b <= a)%Qc → Qc_ltb a b = false.
Proof.
  intros Hle. unfold Qc_ltb. destruct (this a ?= this b)%Q eqn:Hc; [done| |done].
  apply Qlt_alt in Hc. by apply Qle_not_lt in Hle.
Qed.

(** The picky network answers every image with values between -1 and
    1. *)
Lemma picky_model_answers (rows : list (list Qc)) (img : Image) :
  Forall (λ p : Qc, (- (1) <= p <= 1)%Qc) (pixels img) →
  predict (picky_model rows) img = Some [rows].
Proof.
  intros Hall. unfold picky_model. cbn [predict].
  assert (forallb (λ p, negb (Qc_ltb p (Q2Qc (-1))) && negb (Qc_ltb (Q2Qc 1) p))
                  (pixels img) = true) as ->; [|done].
  induction Hall as [|p ps [Hlo Hhi] _ IH]; [done|].
  cbn [forallb]. rewrite IH, !Qc_ltb_ge; [done|exact Hhi|exact Hlo].
Qed.

Section Exact.
Context (R : Runtime (H:=Qc_number)).

(** X16.  The network is consulted on values in [-1, 1]: when every
    value of the resized image lies in [0, 255], replacing the network
    by any other that agrees with it on images of that shape with values
    in [-1, 1] changes nothing about the call, neither its result nor the
    store it leaves. *)
Theorem network_sees_values_in_unit_range
    (this : HandDetector) net' (input : Tensor Image) resized h :
  resizeBilinear (tdata input) (width this) (height this) = Some resized →
  Forall (λ p : Qc, (0 <= p <= Q2Qc 255)%Qc) (pixels resized) →
  (∀ img : Image,
     ishape img = ishape resized →
     Forall (λ p : Qc, (- (1) <= p <= 1)%Qc) (pixels img) →
     predict net' img = predict (model this) img) →
  getSingleBoundingBox (with_model this net') input h
  = getSingleBoundingBox this input h.
Proof.
  intros Hres Hrange Hagree. apply (call_with_model _ _ _ resized); [done|].
  apply Hagree; [done|]. unfold centre, normalise. cbn [pixels].
  rewrite <-list_fmap_compose, <-list_fmap_compose. apply Forall_fmap.
  eapply Forall_impl; [exact Hrange|]. intros p Hp.
  exact (Qc_pixel_range p Hp).
Qed.

End Exact.

(** ** Network answers of the wrong width *)

Section Widths.
Context `{Number, !Runtime}.

Lemma columns_wide (c c0 : nat) (n : Z) (rows : T2) :
  (0 ≤ n)%Z → c0 + Z.to_nat n ≤ c → Forall (λ r, length r = c) rows →
  Forall (λ r : T1, c0 + Z.to_nat n ≤ length r) rows.
Proof.
  intros Hn Hc Hrows. eapply Forall_impl; [exact Hrows|].
  intros r Hr. simpl in *. lia.
Qed.

Lemma columns_cut (c c0 : nat) (n : Z) (rows : T2) :
  (0 ≤ n)%Z → c0 + Z.to_nat n ≤ c → Forall (λ r, length r = c) rows →
  Forall (λ r : T1, length r = Z.to_nat n)
         ((λ r : T1, take (Z.to_nat n) (drop c0 r)) <$> rows).
Proof.
  intros Hn Hc Hrows. apply Forall_fmap.
  eapply Forall_impl; [exact Hrows|]. intros r Hr. simpl in *.
  rewrite length_take, length_drop. lia.
Qed.

Lemma squeeze2_first_column (rows : T2) :
  rows ≠ [] → length rows ≠ 1 → Forall (λ r, 1 ≤ length r) rows →
  squeeze2 ((λ row : T1, sigmoid <$> row) <$>
            ((λ r : T1, take (Z.to_nat 1) (drop 0 r)) <$> rows))
  = Some (concat ((λ row : T1, sigmoid <$> row) <$>
                  ((λ r : T1, take (Z.to_nat 1) (drop 0 r)) <$> rows))).
Proof.
  intros Hne Hone Hrows. apply squeeze2_column.
  - destruct rows; done.
  - by rewrite !length_fmap.
  - rewrite <-list_fmap_compose. apply Forall_fmap.
    eapply Forall_impl; [exact Hrows|]. intros r Hr. simpl in *.
    rewrite length_fmap, length_take, length_drop.
    change (Z.to_nat 1) with 1. lia.
Qed.

Local Ltac narrow_prefix_steps c Hpred Hne Hone Hc Hrows Hshapes :=
  eapply bind_run; [reflexivity|];
  eapply bind_run; [apply tf_binop_run; reflexivity|];
  eapply bind_run; [reflexivity|];
  eapply bind_run; [apply tf_binop_run; reflexivity|];
  eapply bind_run; [apply model_predict_run; exact Hpred|];
  eapply bind_run;
    [apply tf_squeeze3_run, (squeeze3_batch _ c); [done|done|lia|lia|done]|];
  eapply bind_run;
    [apply tf_slice_run, slice_columns;
       [lia|apply (columns_wide c); [lia|compute; lia|exact Hrows]]|];
  eapply bind_run; [reflexivity|];
  eapply bind_run;
    [apply tf_squeeze2_run, squeeze2_first_column;
       [done|done|apply (columns_wide c 1 0); [lia|compute; lia|exact Hrows]]|];
  eapply bind_run;
    [apply tf_slice_run, slice_columns;
       [lia|apply (columns_wide c); [lia|compute; lia|exact Hrows]]|];
  eapply bind_run;
    [apply normalizeBoxes_run;
     [apply Hshapes|apply Hshapes|apply Hshapes
     |cbn [tdata]; rewrite length_fmap; apply Hshapes
     |cbn [tdata]; eapply Forall_impl;
        [apply (columns_cut c 1 4); [lia|compute; lia|exact Hrows]
        |intros ? ->; compute; lia]]|].

(** [_getBoundingBox] on a network answer whose rows hold between 5 and
    18 values. *)
Lemma getBoundingBox_run_narrow (this : HandDetector) (input : Tensor Image)
    (rows : T2) (c : nat) h :
  detector_shapes this →
  predict (model this) (centre (tdata input)) = Some [rows] →
  length rows = length (tdata (anchors this)) → length rows ≠ 1 →
  5 ≤ c < 19 → Forall (λ r, length r = c) rows →
  ∃ h', _getBoundingBox this input h
        = (match selection this rows with
           | [] => Ok (None, None)
           | _ :: _ => Throw ShapeError
           end, h').
Proof.
  intros (Hsize & Hdbl & Hanc & Hne) Hpred Hlen Hone Hc Hrows.
  assert (length (tdata (inputSizeTensor this)) = 2 ∧
          length (tdata (doubleInputSizeTensor this)) = 2 ∧
          uniform 2 (tdata (anchors this)) ∧
          length rows = length (tdata (anchors this))) as Hshapes by done.
  assert (rows ≠ []) as Hrne.
  { intros ->. destruct (tdata (anchors this)); done. }
  assert (Forall (λ r : T1, 1 ≤ length r) rows) as Hge1.
  { eapply Forall_impl; [exact Hrows|]. intros r Hr. simpl in *. lia. }
  unfold _getBoundingBox.
  destruct (selection this rows) as [|i sel] eqn:Hsel.
  - eexists. apply tidy_run. narrow_prefix_steps c Hpred Hrne Hone Hc Hrows Hshapes.
    eapply bind_run; [reflexivity|].
    cbn [arraySync tdata]. rewrite <-list_fmap_compose.
    change (nonMaxSuppression _ _ _ _ _) with (selection this rows).
    rewrite Hsel. reflexivity.
  - assert (is_Some (boxes_of this rows !! i)) as [b Hb].
    { apply lookup_lt_is_Some. unfold boxes_of.
      rewrite length_zip_with, length_fmap.
      assert (i < length rows); [|lia].
      apply (selection_lt this); [done|]. rewrite Hsel. left. }
    eexists. apply tidy_throw.
    narrow_prefix_steps c Hpred Hrne Hone Hc Hrows Hshapes.
    eapply bind_run; [reflexivity|].
    cbn [arraySync tdata]. rewrite <-list_fmap_compose.
    change (nonMaxSuppression _ _ _ _ _) with (selection this rows).
    rewrite Hsel.
    eapply bind_run.
    { apply tf_slice_run, slice_one_row. exact Hb. }
    apply bind_throw, lift_alloc_throw, slice_columns_short; [lia|].
    cbn [tdata]. destruct rows as [|r rows]; [done|].
    apply Exists_cons_hd. apply Forall_cons in Hrows as [Hr _].
    rewrite Hr. change (Z.to_nat 14) with 14. lia.
Qed.

(** X17.  The width of the network's answer is checked only when a row
    is selected.  With rows of between 5 and 18 values instead of 19, a
    call returns the absent result when no row passes suppression, as if
    the answer were well formed, and throws a shape error only when one
    does (the 14 landmark columns cannot be cut out). *)
Theorem narrow_answer_is_rejected_only_on_detection
    this (input : Tensor Image) (rows : T2) (c : nat) h :
  detector_shapes this →
  network_input this (tdata input) ≫= predict (model this) = Some [rows] →
  length rows = length (tdata (anchors this)) → length rows ≠ 1 →
  5 ≤ c < 19 → Forall (λ r, length r = c) rows →
  (getSingleBoundingBox this input h).1
  = match selection this rows with
    | [] => Ok None
    | _ :: _ => Throw ShapeError
    end.
Proof.
  intros Hshapes Hnet Hlen Hone Hc Hrows. unfold network_input in Hnet.
  destruct (resizeBilinear (tdata input) (width this) (height this))
    as [resized|] eqn:Hres; [|done].
  simpl in Hnet. unfold getSingleBoundingBox.
  set (image := {| tid := 2 + next h; tdata := normalise resized |}).
  set (h1 := end_scope (next h) {[2 + next h]} (Nat.iter 3 extend h)).
  destruct (getBoundingBox_run_narrow this image rows c h1
              Hshapes Hnet Hlen Hone Hc Hrows) as [h2 Hrun].
  erewrite bind_run; [|by apply image_scope_run|reflexivity].
  fold image h1.
  destruct (selection this rows) as [|i sel].
  - erewrite bind_run; [|exact Hrun|reflexivity]. done.
  - erewrite bind_throw; [|exact Hrun]. done.
Qed.

Lemma nonMaxSuppression_some `{!OrderLaws} boxes scores iou threshold i s :
  scores !! i = Some s → nlt threshold s = true →
  nonMaxSuppression boxes scores 1 iou threshold ≠ [].
Proof.
  intros Hi Hs. rewrite nonMaxSuppression_one.
  assert ((i, s) ∈ sort_by_score (candidates scores threshold)) as Hin.
  { apply elem_of_sort_by_score, elem_of_candidates.
    split; [done|]. by apply nlt_asym. }
  destruct (sort_by_score _) as [|c rest]; [|done].
  by apply elem_of_nil in Hin.
Qed.

(** X18.  With an IoU threshold between 0 and 1, a network answer of the
    expected shape (one batch, one row of 19 values per anchor, more than
    one anchor) never makes a call throw.  The call returns the absent
    result when every confidence is below the score threshold, and a
    detection when some confidence is above it. *)
Theorem well_shaped_answer_never_throws `{!OrderLaws}
    this (input : Tensor Image) (rows : T2) h :
  detector_shapes this →
  nlt (iouThreshold this) zero = false →
  nlt (of_Q 1) (iouThreshold this) = false →
  network_input this (tdata input) ≫= predict (model this) = Some [rows] →
  raw_prediction_ok this rows →
  ∃ r h',
    getSingleBoundingBox this input h = (Ok r, h') ∧
    (Forall (λ raw, ∀ s, head raw = Some s →
                         nlt (sigmoid s) (scoreThreshold this) = true) rows →
     r = None) ∧
    (Exists (λ raw, ∃ s, head raw = Some s ∧
                         nlt (scoreThreshold this) (sigmoid s) = true) rows →
     ∃ bb, r = Some bb).
Proof.
  intros Hshapes _ _ Hnet Hok.
  assert (Forall (λ r : T1, 1 ≤ length r) rows) as Hwide.
  { apply (raw_prediction_rows this); [done|lia]. }
  destruct (getSingleBoundingBox_run this input rows h Hshapes Hnet Hok)
    as (h' & Hrun & Hsome).
  eexists _, h'. split; [exact Hrun|]. split.
  - intros Hbelow. assert (selection this rows = []) as ->; [|done].
    unfold selection. apply nonMaxSuppression_none.
    rewrite scores_of_fmap by done. apply Forall_fmap.
    rewrite Forall_forall in Hbelow, Hwide. apply Forall_forall.
    intros [|s rest] Hin; [specialize (Hwide _ Hin); simpl in *; lia|].
    simpl. by apply (Hbelow _ Hin).
  - intros Habove. apply Exists_exists in Habove as (raw & Hin & s & Hs & Hpass).
    apply list_elem_of_lookup_1 in Hin as [i Hi].
    assert (selection this rows ≠ []) as Hsel.
    { unfold selection. apply (nonMaxSuppression_some _ _ _ _ i (sigmoid s)).
      - rewrite scores_of_fmap, list_lookup_fmap, Hi by done.
        simpl. by rewrite Hs.
      - done. }
    destruct (selection this rows) as [|j sel]; [done|].
    destruct (Hsome j sel eq_refl) as [bb Hbb]. rewrite Hbb. by exists bb.
Qed.

End Widths.

(** ** Asking suppression for one box *)

Section OneBox.
Context `{Number, !Runtime}.

Lemma getBoundingBox_with_iouThreshold this iou (image : Tensor Image) h :
  _getBoundingBox (with_iouThreshold this iou) image h
  = _getBoundingBox this image h.
Proof.
  unfold _getBoundingBox, tidy.
  match goal with
  | |- match ?b1 h with _ => _ end = match ?b2 h with _ => _ end =>
      assert (b1 h = b2 h) as Hb; [|by rewrite Hb]
  end.
  do 11 (apply bind_ext; [reflexivity|intros ? ?]).
  apply bind_ext; [|reflexivity].
  unfold tf_image_nonMaxSuppression. by rewrite !nonMaxSuppression_one.
Qed.

(** X19.  Within the range the library accepts, the IoU threshold given
    to the constructor has no effect on a call.  [_getBoundingBox] asks
    suppression for at most one box, and greedy suppression accepts its
    first candidate without comparing it to anything: for any two IoU
    thresholds between 0 and 1 the result of a call and the store it
    leaves are the same. *)
Theorem iou_threshold_has_no_effect this iou (input : Tensor Image) h :
  nlt (iouThreshold this) zero = false →
  nlt (of_Q 1) (iouThreshold this) = false →
  nlt iou zero = false → nlt (of_Q 1) iou = false →
  getSingleBoundingBox (with_iouThreshold this iou) input h
  = getSingleBoundingBox this input h.
Proof.
  intros _ _ _ _.
  unfold getSingleBoundingBox. apply bind_ext; [reflexivity|].
  intros image h1. apply bind_ext; [|reflexivity].
  apply getBoundingBox_with_iouThreshold.
Qed.

(** X20.  With an IoU threshold between 0 and 1 and a well-shaped
    answer: when some row's confidence is above the score threshold and
    above the confidence of every other row that reaches the threshold,
    the call returns the detection decoded from that row, however many
    rows pass. *)
Theorem detection_is_the_most_confident_row `{!OrderLaws}
    this (input : Tensor Image) (rows : T2) h i s rest :
  detector_shapes this →
  nlt (iouThreshold this) zero = false →
  nlt (of_Q 1) (iouThreshold this) = false →
  network_input this (tdata input) ≫= predict (model this) = Some [rows] →
  raw_prediction_ok this rows →
  rows !! i = Some (s :: rest) →
  nlt (scoreThreshold this) (sigmoid s) = true →
  (∀ j s' rest', rows !! j = Some (s' :: rest') →
     nlt (sigmoid s') (scoreThreshold this) = false →
     j = i ∨ nlt (sigmoid s') (sigmoid s) = true) →
  ∃ bb h',
    getSingleBoundingBox this input h = (Ok (Some bb), h') ∧
    detection_at this (tdata input) rows i = Some bb.
Proof.
  intros Hshapes _ _ Hnet Hok Hi Hpass Hbest.
  assert (Forall (λ r : T1, 1 ≤ length r) rows) as Hwide.
  { apply (raw_prediction_rows this); [done|lia]. }
  assert (selection this rows = [i]) as Hsel.
  { unfold selection. apply (nonMaxSuppression_best _ _ _ _ i (sigmoid s)).
    - rewrite scores_of_fmap, list_lookup_fmap, Hi by done. done.
    - by apply nlt_asym.
    - intros j s'. rewrite scores_of_fmap, list_lookup_fmap by done.
      destruct (rows !! j) as [r|] eqn:Hj; [|done].
      rewrite Forall_lookup in Hwide. specialize (Hwide _ _ Hj).
      destruct r as [|s0 rest0]; [simpl in Hwide; lia|].
      simpl. intros [= <-] Hs'. by eapply Hbest. }
  destruct (getSingleBoundingBox_run this input rows h Hshapes Hnet Hok)
    as (h' & Hrun & Hsome).
  rewrite Hsel in Hrun. destruct (Hsome i [] Hsel) as [bb Hbb].
  exists bb, h'. split; [|done]. by rewrite <-Hbb.
Qed.

End OneBox.

(** ** The further theorems at the small detector *)

Lemma call_never_dereferences_null_witness :
  ShapeError = ShapeError ∨ ShapeError = ModelError.
Proof.
  apply (call_never_dereferences_null lone_detector demo_image demo_heap).
  reflexivity.
Defined.

Lemma detection_restores_store_witness :
  live demo_call.2 = live demo_heap ∧ heap_wf demo_call.2.
Proof.
  apply (detection_restores_store (demo_detector demo_rows) demo_image
           demo_detection demo_heap demo_call.2).
  - unfold heap_wf. apply (bool_decide_unpack _). vm_compute. exact I.
  - reflexivity.
Defined.

Lemma calls_without_detection_accumulate_witness :
  size (live (store_after_calls (demo_detector quiet_rows)
                                [demo_image; demo_image] demo_heap))
  = size (live demo_heap) + 2.
Proof.
  apply (calls_without_detection_accumulate (demo_detector quiet_rows)
           [demo_image; demo_image] demo_heap).
  - unfold heap_wf. apply (bool_decide_unpack _). vm_compute. exact I.
  - repeat constructor.
Defined.

Lemma throwing_call_leaves_image_witness :
  live (getSingleBoundingBox lone_detector demo_image demo_heap).2
  = live demo_heap ∪ {[6]}.
Proof.
  change (live (getSingleBoundingBox lone_detector demo_image demo_heap).2
          = live demo_heap
            ∪ match resizeBilinear (tdata demo_image) (width lone_detector)
                                   (height lone_detector) with
              | Some _ => {[2 + next demo_heap]}
              | None => ∅
              end).
  apply (throwing_call_leaves_image lone_detector demo_image demo_heap
           ShapeError).
  - unfold heap_wf. apply (bool_decide_unpack _). vm_compute. exact I.
  - reflexivity.
Defined.

Lemma getBoundingBox_releases_intermediates_witness :
  live (_getBoundingBox (demo_detector quiet_rows) demo_image demo_heap).2
  = live demo_heap.
Proof.
  apply (getBoundingBox_releases_intermediates (demo_detector quiet_rows)
           demo_image demo_heap).
  unfold heap_wf. apply (bool_decide_unpack _). vm_compute. exact I.
Defined.

Lemma normalizeBoxes_keeps_intermediates_witness :
  live (normalizeBoxes (demo_detector demo_rows) (demo_prediction demo_rows)
                       demo_heap).2
  = live demo_heap ∪ set_seq 4 10 ∧
  live (tidy (normalizeBoxes (demo_detector demo_rows)
                             (demo_prediction demo_rows)) demo_heap).2
  = live demo_heap ∪ {[13]}.
Proof.
  apply (normalizeBoxes_keeps_intermediates (demo_detector demo_rows)
           (demo_prediction demo_rows) demo_heap).
  - unfold heap_wf. apply (bool_decide_unpack _). vm_compute. exact I.
  - split_and!; [reflexivity|reflexivity|repeat constructor|done].
  - reflexivity.
  - repeat constructor; simpl; lia.
Defined.

Lemma decode_landmarks_keeps_intermediates_witness :
  live (_decode_landmarks (demo_detector demo_rows) demo_raw_landmarks
                          demo_heap).2
  = live demo_heap ∪ set_seq 4 5 ∧
  live (tidy (_decode_landmarks (demo_detector demo_rows)
                                demo_raw_landmarks) demo_heap).2
  = live demo_heap ∪ {[8]}.
Proof.
  apply (decode_landmarks_keeps_intermediates (demo_detector demo_rows)
           demo_raw_landmarks demo_heap).
  - unfold heap_wf. apply (bool_decide_unpack _). vm_compute. exact I.
  - split_and!; [reflexivity|reflexivity|repeat constructor|done].
  - reflexivity.
  - repeat constructor.
Defined.

Lemma detector_tensors_outlive_calls_witness :
  (0 ∉ live empty_heap) ∧
  0 ∈ live (store_after_calls (demo_detector demo_rows)
                              [demo_image; demo_image]
                              (Nat.iter 3 extend empty_heap)).
Proof.
  apply (detector_tensors_outlive_calls
           (mock_model demo_rows) (Q2Qc 10) (Q2Qc 10) demo_anchors
           (Q2Qc 0.3) (Q2Qc 0.5) empty_heap (demo_detector demo_rows)
           (Nat.iter 3 extend empty_heap) [demo_image; demo_image] 0).
  - unfold heap_wf. apply (bool_decide_unpack _). vm_compute. exact I.
  - reflexivity.
  - simpl. left.
Defined.

Lemma single_row_answer_throws_witness :
  (getSingleBoundingBox lone_detector demo_image demo_heap).1
  = Throw ShapeError.
Proof.
  apply (single_row_answer_throws lone_detector demo_image
           (centre (normalise (tdata demo_image))) (demo_row 3) demo_heap).
  - reflexivity.
  - reflexivity.
Defined.

Lemma normalizeBoxes_needs_four_columns_witness :
  ∃ r, (normalizeBoxes (demo_detector demo_rows) (demo_prediction demo_rows)
                       demo_heap).1 = Ok r.
Proof.
  apply (normalizeBoxes_needs_four_columns (demo_detector demo_rows)
           (demo_prediction demo_rows) demo_heap).
  - split_and!; [reflexivity|reflexivity|repeat constructor|done].
  - reflexivity.
  - repeat constructor; simpl; lia.
Defined.

Lemma normalizeBoxes_rejects_row_count_witness :
  normalizeBoxes (demo_detector demo_rows) (demo_prediction (take 2 demo_rows))
                 demo_heap
  = (Throw ShapeError, Nat.iter 3 extend demo_heap).
Proof.
  apply (normalizeBoxes_rejects_row_count (demo_detector demo_rows)
           (demo_prediction (take 2 demo_rows)) demo_heap).
  - reflexivity.
  - repeat constructor; simpl; lia.
  - simpl. lia.
  - simpl. lia.
  - simpl. lia.
Defined.

Lemma normalizeBoxes_repeats_single_anchor_witness :
  (normalizeBoxes lone_detector (demo_prediction demo_rows) demo_heap).1
  = Ok {| tid := 13;
          tdata := (λ raw, box_row [Q2Qc 10; Q2Qc 10] [Q2Qc 20; Q2Qc 20] raw
                                   [Q2Qc 0.25; Q2Qc 0.25]) <$> demo_rows |}.
Proof.
  rewrite (normalizeBoxes_repeats_single_anchor lone_detector
             (demo_prediction demo_rows) [Q2Qc 0.25; Q2Qc 0.25] demo_heap).
  - reflexivity.
  - reflexivity.
  - reflexivity.
  - reflexivity.
  - reflexivity.
  - repeat constructor; simpl; lia.
Defined.

Lemma detection_has_seven_landmarks_witness :
  length (startPoint demo_detection) = 2 ∧
  length (endPoint demo_detection) = 2 ∧
  length (landmarks demo_detection) = 7 ∧
  Forall (λ p, length p = 2) (landmarks demo_detection).
Proof.
  apply (detection_has_seven_landmarks (demo_detector demo_rows) demo_image
           demo_rows demo_heap demo_detection demo_call.2).
  - split_and!; [reflexivity|reflexivity|repeat constructor|done].
  - reflexivity.
  - split_and!; [reflexivity|simpl; lia|repeat constructor].
  - reflexivity.
Defined.

Lemma decoded_box_has_raw_size_and_centre_witness :
  ∃ decoded h',
    normalizeBoxes (demo_detector demo_rows) (demo_prediction demo_rows)
                   demo_heap = (Ok decoded, h').
Proof.
  destruct (decoded_box_has_raw_size_and_centre
              (mock_model demo_rows) (Q2Qc 10) (Q2Qc 10) demo_anchors
              (Q2Qc 0.3) (Q2Qc 0.5) empty_heap (demo_detector demo_rows)
              (Nat.iter 3 extend empty_heap) (demo_prediction demo_rows)
              demo_heap)
    as (decoded & h' & Hrun & _).
  - reflexivity.
  - intros Hc. discriminate Hc.
  - intros Hc. discriminate Hc.
  - reflexivity.
  - repeat constructor; simpl; lia.
  - exists decoded, h'. exact Hrun.
Defined.

Lemma decoded_landmark_is_anchor_plus_offset_witness :
  ∃ decoded h',
    _decode_landmarks (demo_detector demo_rows) demo_raw_landmarks demo_heap
    = (Ok decoded, h').
Proof.
  destruct (decoded_landmark_is_anchor_plus_offset
              (mock_model demo_rows) (Q2Qc 10) (Q2Qc 10) demo_anchors
              (Q2Qc 0.3) (Q2Qc 0.5) empty_heap (demo_detector demo_rows)
              (Nat.iter 3 extend empty_heap) demo_raw_landmarks demo_heap)
    as (decoded & h' & Hrun & _).
  - reflexivity.
  - intros Hc. discriminate Hc.
  - intros Hc. discriminate Hc.
  - reflexivity.
  - repeat constructor.
  - exists decoded, h'. exact Hrun.
Defined.

Lemma network_sees_values_in_unit_range_witness :
  predict (picky_model demo_rows) (tdata demo_image) = None ∧
  predict (model (demo_detector demo_rows)) (tdata demo_image)
  = Some [demo_rows] ∧
  getSingleBoundingBox
    (with_model (demo_detector demo_rows) (picky_model demo_rows))
    demo_image demo_heap
  = getSingleBoundingBox (demo_detector demo_rows) demo_image demo_heap.
Proof.
  split; [reflexivity|]. split; [reflexivity|].
  apply (network_sees_values_in_unit_range Qc_runtime
           (demo_detector demo_rows) (picky_model demo_rows) demo_image
           (tdata demo_image) demo_heap).
  - reflexivity.
  - repeat constructor; intros Hc; discriminate Hc.
  - intros img _ Hrange. exact (picky_model_answers demo_rows img Hrange).
Defined.

Lemma narrow_answer_is_rejected_only_on_detection_witness :
  (getSingleBoundingBox (demo_detector (take 6 <$> quiet_rows)) demo_image
                        demo_heap).1
  = Ok None.
Proof.
  change (Ok None)
    with (match selection (demo_detector (take 6 <$> quiet_rows))
                          (take 6 <$> quiet_rows) with
          | [] => Ok None
          | _ :: _ => Throw ShapeError
          end : Outcome (option BoundingBox)).
  apply (narrow_answer_is_rejected_only_on_detection
           (demo_detector (take 6 <$> quiet_rows)) demo_image
           (take 6 <$> quiet_rows) 6 demo_heap).
  - split_and!; [reflexivity|reflexivity|repeat constructor|done].
  - reflexivity.
  - reflexivity.
  - simpl. lia.
  - lia.
  - repeat constructor.
Defined.

Lemma well_shaped_answer_never_throws_witness :
  ∃ r h',
    getSingleBoundingBox (demo_detector demo_rows) demo_image demo_heap
    = (Ok r, h') ∧
    ∃ bb, r = Some bb.
Proof.
  destruct (well_shaped_answer_never_throws (demo_detector demo_rows)
              demo_image demo_rows demo_heap) as (r & h' & Hrun & _ & Habove).
  - split_and!; [reflexivity|reflexivity|repeat constructor|done].
  - reflexivity.
  - reflexivity.
  - reflexivity.
  - split_and!; [reflexivity|simpl; lia|repeat constructor].
  - exists r, h'. split; [exact Hrun|]. apply Habove.
    apply Exists_cons_tl, Exists_cons_hd. exists (Q2Qc 3).
    split; reflexivity.
Defined.

Lemma iou_threshold_has_no_effect_witness :
  getSingleBoundingBox (with_iouThreshold (demo_detector demo_rows) (Q2Qc 0.9))
                       demo_image demo_heap
  = getSingleBoundingBox (demo_detector demo_rows) demo_image demo_heap.
Proof.
  apply (iou_threshold_has_no_effect (demo_detector demo_rows) (Q2Qc 0.9)
           demo_image demo_heap).
  - reflexivity.
  - reflexivity.
  - reflexivity.
  - reflexivity.
Defined.

Lemma detection_is_the_most_confident_row_witness :
  ∃ bb h',
    getSingleBoundingBox (demo_detector demo_rows) demo_image demo_heap
    = (Ok (Some bb), h') ∧
    detection_at (demo_detector demo_rows) (tdata demo_image) demo_rows 1
    = Some bb.
Proof.
  apply (detection_is_the_most_confident_row (demo_detector demo_rows)
           demo_image demo_rows demo_heap 1 (Q2Qc 3) (replicate 18 (Q2Qc 0))).
  - split_and!; [reflexivity|reflexivity|repeat constructor|done].
  - reflexivity.
  - reflexivity.
  - reflexivity.
  - split_and!; [reflexivity|simpl; lia|repeat constructor].
  - reflexivity.
  - reflexivity.
  - intros [|[|[|j]]] s' rest' Hj Hs'; [|by left| |done].
    + right. injection Hj as <- <-. reflexivity.
    + right. injection Hj as <- <-. reflexivity.
Defined.

